(** * PoetryGame: the per-room game engine of [server.js]

    A shallow embedding of the server's room engine: submission intake,
    the validation queue, voting, the character-choice hand-off, and the
    connect / disconnect / reconnect life cycle, together with the admin
    endpoints that touch the same state.

    Conventions.
    - A JavaScript string is the list of its UTF-16 code units.
    - A JavaScript object used as a dictionary ([rooms], [room.players],
      [votes], [timeouts], [reconnectTimeouts], [choiceTimeouts]) is a [gmap]
      over its own keys. A key that names a member inherited from
      [Object.prototype] ([inherited]) is outside the model: the theorems
      on creating and joining a room, on the answer of a player who is
      gone and on the timers of a removed room exclude it by a hypothesis.
    - [Object.values] and [Object.keys] enumerate a dictionary with
      [map_to_list], whose order need not be the insertion order of the
      runtime: what is stated of such an enumeration (the voters of a vote,
      the room lists) is stated up to the order of its entries.
    - The module-level variables of [server.js] are the first four fields of
      [State]; the remaining fields model the runtime: connected sockets
      with their [roomId] / [nickname] properties, the table of pending
      [setTimeout] callbacks, the clock behind [Date.now()], and the log of
      everything emitted through socket.io.
    - Handlers are state transformers [State → State]; [s ▷ f ▷ g] runs [f]
      and then [g], like two consecutive statements.
    - A listener whose first property access throws (a room that is gone)
      has changed nothing by then; it is modelled as leaving the state as
      it is.
    - Debounced persistence ([scheduleSaveRooms], [scheduleSaveCache]) and
      HTTP responses do not feed back into the engine and are left out,
      the data listing of the admin page ([adminData]) apart; the start-up
      state is the one of an empty data directory. *)

From stdpp Require Import gmap list fin_maps strings sorting.

Open Scope N_scope.
Open Scope list_scope.

Notation "s ▷ f" := (f s) (at level 45, left associativity, only parsing).

(** ** JavaScript strings *)

Abbreviation jsstring := (list N).

(** A string literal over Basic Latin, as code units. *)
Definition js (s : string) : jsstring :=
  (λ a, Ascii.N_of_ascii a) <$> String.list_ascii_of_string s.

(** Truthiness of a string: only [''] is falsy. *)
Definition truthy (s : jsstring) : bool :=
  match s with [] => false | _ => true end.

(** [\s] of a regular expression, which is also what [String.prototype.trim]
    strips: WhiteSpace and LineTerminator, all in the basic plane. *)
Definition isWhiteSpace (c : N) : bool :=
  ((9 <=? c) && (c <=? 13)) || (c =? 32) || (c =? 160) || (c =? 0x1680)
  || ((0x2000 <=? c) && (c <=? 0x200A))
  || (c =? 0x2028) || (c =? 0x2029) || (c =? 0x202F) || (c =? 0x205F)
  || (c =? 0x3000) || (c =? 0xFEFF).

(** The tables of the JavaScript runtime that the server relies on and does
    not define: the Unicode general category P (the [\p{P}] of a [u]-flagged
    regular expression, on code points) and [String.prototype.toLowerCase]. *)
Class Unicode := {
  isPunctuation : N → bool;
  toLowerCase : jsstring → jsstring;
}.

Definition isHighSurrogate (c : N) : bool := (0xD800 <=? c) && (c <=? 0xDBFF).
Definition isLowSurrogate (c : N) : bool := (0xDC00 <=? c) && (c <=? 0xDFFF).
Definition codePoint (h l : N) : N :=
  0x10000 + (h - 0xD800) * 0x400 + (l - 0xDC00).

Fixpoint dropWhile {A} (p : A → bool) (l : list A) : list A :=
  match l with
  | [] => []
  | x :: l' => if p x then dropWhile p l' else l
  end.

(** [s.trim()] *)
Definition trim (s : jsstring) : jsstring :=
  reverse (dropWhile isWhiteSpace (reverse (dropWhile isWhiteSpace s))).

Fixpoint startsWith (s t : jsstring) : bool :=
  match t, s with
  | [], _ => true
  | _ :: _, [] => false
  | b :: t', a :: s' => (a =? b) && startsWith s' t'
  end.

(** [s.includes(t)] on strings: [t] occurs in [s] as a run of code units. *)
Fixpoint includes (s t : jsstring) : bool :=
  startsWith s t ||
  match s with
  | [] => false
  | _ :: s' => includes s' t
  end.

(** The property names every plain object inherits from [Object.prototype]
    in Node.js. On an object that has no own property [k], the read
    [obj[k]] under one of these names finds the inherited member, which is
    truthy, where any other name gives [undefined]. The dictionaries of the
    model hold own properties only: what the server does once a room id or
    a nickname is one of these names is outside the model. The theorems on
    creating and joining a room, on the answer of a player who is gone and
    on the timers of a removed room rest on a key being absent from
    [rooms] or from [room.players], and say that the key is not
    [inherited]. *)
Definition objectPrototypeNames : list jsstring :=
  js <$> ["constructor"; "__defineGetter__"; "__defineSetter__";
          "hasOwnProperty"; "__lookupGetter__"; "__lookupSetter__";
          "isPrototypeOf"; "propertyIsEnumerable"; "toString"; "valueOf";
          "__proto__"; "toLocaleString"].

Definition inherited (k : jsstring) : bool :=
  bool_decide (k ∈ objectPrototypeNames).

Section Strings.
Context {U : Unicode}.

(** The character class [[\s\p{P}]] on one code point. *)
Definition illegalChar (c : N) : bool := isWhiteSpace c || isPunctuation c.

(** [sentence.replace(/[\s\p{P}]/gu, '')]: with the [u] flag the pattern
    is matched per code point, so a surrogate pair is kept or dropped as
    a whole. *)
Fixpoint normalizeSentence (sentence : jsstring) : jsstring :=
  match sentence with
  | [] => []
  | h :: rest =>
      match rest with
      | l :: rest' =>
          if isHighSurrogate h && isLowSurrogate l then
            if illegalChar (codePoint h l) then normalizeSentence rest'
            else h :: l :: normalizeSentence rest'
          else
            if illegalChar h then normalizeSentence rest
            else h :: normalizeSentence rest
      | [] => if illegalChar h then [] else [h]
      end
  end.

(** [/[\s\p{P}]/u.test(s)] *)
Fixpoint illegalCharsRegex_test (s : jsstring) : bool :=
  match s with
  | [] => false
  | h :: rest =>
      match rest with
      | l :: rest' =>
          if isHighSurrogate h && isLowSurrogate l then
            illegalChar (codePoint h l) || illegalCharsRegex_test rest'
          else illegalChar h || illegalCharsRegex_test rest
      | [] => illegalChar h
      end
  end.
End Strings.

(** The restriction of the runtime tables to Basic Latin plus the common CJK
    punctuation marks; it agrees with the runtime on strings over those
    characters and is what the concrete runs below are evaluated with. *)
Definition latinPunctuation (c : N) : bool :=
  bool_decide (c ∈ [33; 34; 35; 37; 38; 39; 40; 41; 42; 44; 45; 46; 47; 58;
                    59; 63; 64; 91; 92; 93; 95; 123; 125;
                    0x3001; 0x3002; 0xFF01; 0xFF0C; 0xFF1F]).
Definition latinLower (s : jsstring) : jsstring :=
  (λ c, if (65 <=? c) && (c <=? 90) then c + 32 else c) <$> s.
Definition latin : Unicode :=
  {| isPunctuation := latinPunctuation; toLowerCase := latinLower |}.

(** ** Data model *)

Abbreviation SocketId := N.
Abbreviation TimerId := N.

(** [{ nickname, score, online, socketId, disconnectTime }] *)
Record Player := mkPlayer {
  nickname : jsstring;
  score : Z;
  online : bool;
  socketId : SocketId;
  disconnectTime : option Z;
}.

(** [{ answer, nickname }] *)
Record Submission := mkSubmission {
  answer : jsstring;
  sub_nickname : jsstring;
}.

(** [room.currentVote]: [votes] maps a nickname to whatever the client sent
    with [submitVote]; [timeouts] maps a voter to the handle of its pending
    countdown. *)
Record Vote := mkVote {
  submission : Submission;
  votes : gmap jsstring jsstring;
  endTime : Z;
  voters : list jsstring;
  timeouts : gmap jsstring TimerId;
}.

(** The texts of the server, one constructor per template string. *)
Inductive Content :=
  | TipAlreadySubmitted
  | TipIllegalChars
  | TipRecentlyUsed (trimmedAnswer : jsstring)
  | TipNoStartChar
  | MsgWithdrawn (nick : jsstring)
  | MsgVoteInterrupted
  | MsgLeft (nick : jsstring)
  | MsgDisconnected (nick : jsstring)
  | MsgDropped (nick : jsstring)
  | MsgDisconnectCountedValid (nick : jsstring)
  | MsgWelcome (nick : jsstring)
  | MsgReconnected (nick : jsstring)
  | MsgValidating (ans nick : jsstring)
  | MsgCacheHit (ans : jsstring)
  | MsgToVote (ans : jsstring)
  | MsgChoiceTimedOut (nick : jsstring)
  | MsgVoteTimedOut (nick : jsstring)
  | MsgVoted (nick : jsstring)
  | MsgNobodyToVote (ans : jsstring)
  | MsgVotePassed (ans : jsstring)
  | MsgVoteFailed (ans : jsstring)
  | MsgNewRound (chooser newChar : jsstring).

Inductive ClassName := GameMessage | PrivateMessage.

Record Message := mkMessage {
  content : Content;
  className : ClassName;
  timestamp : Z;
}.

Record Room := mkRoom {
  room_id : jsstring;
  room_name : jsstring;
  players : gmap jsstring Player;
  isPermanent : bool;
  currentStartChar : jsstring;
  usedSentences : list jsstring;
  validationQueue : list Submission;
  currentVote : option Vote;
  messages : list Message;
}.

(** An entry of [choiceTimeouts]. *)
Record Choice := mkChoice {
  winnerNickname : jsstring;
  choice_answer : jsstring;
  choice_endTime : Z;
  timer : TimerId;
}.

(** What a pending [setTimeout] callback will run, with the variables its
    closure captured. *)
Inductive TimerAction :=
  | VoteCountdown (roomId nick : jsstring)
  | ChoiceWindow (roomId ans : jsstring)
  | ReconnectGrace (roomId nick : jsstring).

(** The [roomId] and [nickname] properties the server hangs on a socket. *)
Record Socket := mkSocket {
  sock_roomId : option jsstring;
  sock_nickname : option jsstring;
}.

Inductive GameStateMessage :=
  | StVoting
  | StChoosing (winner : jsstring)
  | StValidating (ans : jsstring)
  | StWaitingPlayers
  | StWaitingInput.

(** The result of [getSerializableRoomState]. *)
Record Snapshot := mkSnapshot {
  snap_players : gmap jsstring (jsstring * Z * bool);
  snap_currentStartChar : jsstring;
  snap_queue : list Submission;
  snap_currentVote :
    option (Submission * list jsstring * gmap jsstring jsstring * Z);
  snap_choice : option (jsstring * jsstring * Z);
  snap_playable : bool;
  snap_isChoosingChar : bool;
  snap_gameStateMessage : GameStateMessage;
  snap_messages : list Message;
}.

Inductive JoinErrorReason := RoomExists | RoomMissing | BadNickname | NicknameTaken.
Inductive ReconnectErrorReason := RoomGone | CannotReconnect.

Inductive Payload :=
  | JoinError (r : JoinErrorReason)
  | ReconnectError (r : ReconnectErrorReason)
  | JoinSuccess (roomId roomName : jsstring)
  | NewMessage (m : Message)
  | GameStateUpdate (st : Snapshot)
  | RoomListUpdate (l : list (jsstring * jsstring * nat))
  | AdminDataUpdate
  | VoteInProgress (ans : jsstring)
  | Kicked
  | RoomClosed.

Inductive Emit :=
  | ToSocket (sid : SocketId) (p : Payload)
  | ToRoom (roomId : jsstring) (p : Payload)
  | ToLobby (p : Payload)
  | ToAdmin (p : Payload).

Record State := mkState {
  rooms : gmap jsstring Room;
  localCache : list jsstring;
  reconnectTimeouts : gmap jsstring TimerId;
  choiceTimeouts : gmap jsstring Choice;
  sockets : gmap SocketId Socket;
  timers : gmap TimerId (Z * TimerAction);
  nextTimer : TimerId;
  now : Z;
  outbox : list Emit;
}.

Definition RECONNECT_TIMEOUT_MS : Z := 30000.
Definition VOTE_DURATION_MS : Z := 15000.
Definition CHOICE_DURATION_MS : Z := 15000.

(** The string literals ['valid'], ['系统'], ['月'], ['天'] and ['一位玩家']. *)
Definition VALID : jsstring := js "valid".
Definition SYSTEM : jsstring := [0x7CFB; 0x7EDF].
Definition DEFAULT_START_CHAR : jsstring := [0x6708].
Definition FALLBACK_CHAR : jsstring := [0x5929].
Definition SOMEONE : jsstring := [0x4E00; 0x4F4D; 0x73A9; 0x5BB6].

(** *** Field updates *)

Definition setPlayer_online (b : bool) (p : Player) : Player :=
  mkPlayer (nickname p) (score p) b (socketId p) (disconnectTime p).
Definition setPlayer_disconnectTime (t : option Z) (p : Player) : Player :=
  mkPlayer (nickname p) (score p) (online p) (socketId p) t.
Definition setPlayer_socketId (i : SocketId) (p : Player) : Player :=
  mkPlayer (nickname p) (score p) (online p) i (disconnectTime p).
Definition setPlayer_score (n : Z) (p : Player) : Player :=
  mkPlayer (nickname p) n (online p) (socketId p) (disconnectTime p).

Definition setVote_votes (v : gmap jsstring jsstring) (x : Vote) : Vote :=
  mkVote (submission x) v (endTime x) (voters x) (timeouts x).
Definition setVote_timeouts (t : gmap jsstring TimerId) (x : Vote) : Vote :=
  mkVote (submission x) (votes x) (endTime x) (voters x) t.

Definition setRoom_players (f : gmap jsstring Player → gmap jsstring Player)
    (r : Room) : Room :=
  mkRoom (room_id r) (room_name r) (f (players r)) (isPermanent r)
    (currentStartChar r) (usedSentences r) (validationQueue r)
    (currentVote r) (messages r).
Definition setRoom_isPermanent (b : bool) (r : Room) : Room :=
  mkRoom (room_id r) (room_name r) (players r) b (currentStartChar r)
    (usedSentences r) (validationQueue r) (currentVote r) (messages r).
Definition setRoom_currentStartChar (c : jsstring) (r : Room) : Room :=
  mkRoom (room_id r) (room_name r) (players r) (isPermanent r) c
    (usedSentences r) (validationQueue r) (currentVote r) (messages r).
Definition setRoom_usedSentences (l : list jsstring) (r : Room) : Room :=
  mkRoom (room_id r) (room_name r) (players r) (isPermanent r)
    (currentStartChar r) l (validationQueue r) (currentVote r) (messages r).
Definition setRoom_validationQueue (q : list Submission) (r : Room) : Room :=
  mkRoom (room_id r) (room_name r) (players r) (isPermanent r)
    (currentStartChar r) (usedSentences r) q (currentVote r) (messages r).
Definition setRoom_currentVote (v : option Vote) (r : Room) : Room :=
  mkRoom (room_id r) (room_name r) (players r) (isPermanent r)
    (currentStartChar r) (usedSentences r) (validationQueue r) v (messages r).
Definition setRoom_messages (m : list Message) (r : Room) : Room :=
  mkRoom (room_id r) (room_name r) (players r) (isPermanent r)
    (currentStartChar r) (usedSentences r) (validationQueue r)
    (currentVote r) m.

Definition set_rooms (f : gmap jsstring Room → gmap jsstring Room)
    (s : State) : State :=
  mkState (f (rooms s)) (localCache s) (reconnectTimeouts s)
    (choiceTimeouts s) (sockets s) (timers s) (nextTimer s) (now s) (outbox s).
Definition set_localCache (c : list jsstring) (s : State) : State :=
  mkState (rooms s) c (reconnectTimeouts s) (choiceTimeouts s) (sockets s)
    (timers s) (nextTimer s) (now s) (outbox s).
Definition set_reconnectTimeouts
    (f : gmap jsstring TimerId → gmap jsstring TimerId) (s : State) : State :=
  mkState (rooms s) (localCache s) (f (reconnectTimeouts s))
    (choiceTimeouts s) (sockets s) (timers s) (nextTimer s) (now s) (outbox s).
Definition set_choiceTimeouts
    (f : gmap jsstring Choice → gmap jsstring Choice) (s : State) : State :=
  mkState (rooms s) (localCache s) (reconnectTimeouts s)
    (f (choiceTimeouts s)) (sockets s) (timers s) (nextTimer s) (now s)
    (outbox s).
Definition set_sockets (f : gmap SocketId Socket → gmap SocketId Socket)
    (s : State) : State :=
  mkState (rooms s) (localCache s) (reconnectTimeouts s) (choiceTimeouts s)
    (f (sockets s)) (timers s) (nextTimer s) (now s) (outbox s).
Definition set_timers
    (f : gmap TimerId (Z * TimerAction) → gmap TimerId (Z * TimerAction))
    (s : State) : State :=
  mkState (rooms s) (localCache s) (reconnectTimeouts s) (choiceTimeouts s)
    (sockets s) (f (timers s)) (nextTimer s) (now s) (outbox s).
Definition set_nextTimer (n : TimerId) (s : State) : State :=
  mkState (rooms s) (localCache s) (reconnectTimeouts s) (choiceTimeouts s)
    (sockets s) (timers s) n (now s) (outbox s).
Definition set_now (t : Z) (s : State) : State :=
  mkState (rooms s) (localCache s) (reconnectTimeouts s) (choiceTimeouts s)
    (sockets s) (timers s) (nextTimer s) t (outbox s).

(** ** The runtime: emitting, timers, references into [rooms] *)

Definition emit (e : Emit) (s : State) : State :=
  mkState (rooms s) (localCache s) (reconnectTimeouts s) (choiceTimeouts s)
    (sockets s) (timers s) (nextTimer s) (now s) (outbox s ++ [e]).

(** [setTimeout(action, delay)]: the new handle is [nextTimer] of the state
    the call started from. *)
Definition setTimeout (action : TimerAction) (delay : Z) (s : State) : State :=
  s ▷ set_timers <[nextTimer s := ((now s + delay)%Z, action)]>
    ▷ set_nextTimer (nextTimer s + 1).

(** [clearTimeout(handle)]; [clearTimeout(undefined)] does nothing. *)
Definition clearTimeout (handle : option TimerId) (s : State) : State :=
  match handle with
  | Some t => set_timers (delete t) s
  | None => s
  end.

(** A mutation through a reference [room = rooms[roomId]]. *)
Definition modRoom (roomId : jsstring) (f : Room → Room) (s : State) : State :=
  set_rooms (alter f roomId) s.

(** A mutation through a reference [player = room.players[nick]]. *)
Definition modPlayer (roomId nick : jsstring) (f : Player → Player)
    (s : State) : State :=
  modRoom roomId (setRoom_players (alter f nick)) s.

(** A mutation of [room.currentVote] in place. *)
Definition modVote (roomId : jsstring) (f : Vote → Vote) (s : State) : State :=
  modRoom roomId (λ r, setRoom_currentVote (f <$> currentVote r) r) s.

(** [Object.values(room.players)], as a list with the same entries; the
    runtime lists them in insertion order, [map_to_list] in an order of its
    own. *)
Definition playerList (r : Room) : list Player := (map_to_list (players r)).*2.

(** [!votes[nick]]: no entry, or an entry holding a falsy value. *)
Definition notVoted (v : Vote) (nick : jsstring) : bool :=
  match votes v !! nick with
  | Some x => negb (truthy x)
  | None => true
  end.

(** [arr.includes(x)] on an array of strings. *)
Definition contains (l : list jsstring) (x : jsstring) : bool :=
  bool_decide (x ∈ l).

(** [arr.shift()] as a statement. *)
Definition shift {A} (l : list A) : list A := tail l.

(** The default [Array.prototype.sort]: ascending by code units. *)
Fixpoint strLe (a b : jsstring) : bool :=
  match a, b with
  | [], _ => true
  | _ :: _, [] => false
  | x :: a', y :: b' => (x <? y) || ((x =? y) && strLe a' b')
  end.
Fixpoint insertSorted (x : jsstring) (l : list jsstring) : list jsstring :=
  match l with
  | [] => [x]
  | y :: l' => if strLe x y then x :: l else y :: insertSorted x l'
  end.
Definition sort (l : list jsstring) : list jsstring := foldr insertSorted [] l.

(** [arr.splice(arr.indexOf(x), 1)] for an [x] that occurs in [arr]. *)
Fixpoint removeFirst (x : jsstring) (l : list jsstring) : list jsstring :=
  match l with
  | [] => []
  | y :: l' => if decide (y = x) then l' else y :: removeFirst x l'
  end.

(** ** Presence and broadcast *)

Definition onlineCount (r : Room) : nat :=
  length (filter (λ p, online p) (playerList r)).

Definition getLobbyInfo (s : State) : list (jsstring * jsstring * nat) :=
  (λ '(roomId, r), (roomId, room_name r, onlineCount r)) <$> map_to_list (rooms s).

Definition broadcastRoomList (s : State) : State :=
  s ▷ emit (ToLobby (RoomListUpdate (getLobbyInfo s)))
    ▷ emit (ToAdmin AdminDataUpdate).

Definition getSerializableRoomState (roomId : jsstring) (s : State)
    : option Snapshot :=
  match rooms s !! roomId with
  | None => None
  | Some room =>
      let isPlayable := bool_decide (2 ≤ onlineCount room)%nat in
      let gameStateMessage :=
        match currentVote room, choiceTimeouts s !! roomId, validationQueue room with
        | Some _, _, _ => StVoting
        | None, Some c, _ =>
            StChoosing (if truthy (winnerNickname c) then winnerNickname c else SOMEONE)
        | None, None, head :: _ => StValidating (answer head)
        | None, None, [] => if isPlayable then StWaitingInput else StWaitingPlayers
        end in
      Some {|
        snap_players := (λ p, (nickname p, score p, online p)) <$> players room;
        snap_currentStartChar := currentStartChar room;
        snap_queue := validationQueue room;
        snap_currentVote :=
          (λ v, (submission v, voters v, votes v, endTime v)) <$> currentVote room;
        snap_choice :=
          (λ c, (winnerNickname c, choice_answer c, choice_endTime c))
            <$> choiceTimeouts s !! roomId;
        snap_playable := isPlayable;
        snap_isChoosingChar := bool_decide (is_Some (choiceTimeouts s !! roomId));
        snap_gameStateMessage := gameStateMessage;
        snap_messages := messages room;
      |}
  end.

Definition broadcastGameState (roomId : jsstring) (s : State) : State :=
  match getSerializableRoomState roomId s with
  | Some st => s ▷ emit (ToRoom roomId (GameStateUpdate st))
  | None => s
  end ▷ emit (ToAdmin AdminDataUpdate).

Definition sendPrivateMessage (sid : SocketId) (messageContent : Content)
    (s : State) : State :=
  s ▷ emit (ToSocket sid (NewMessage (mkMessage messageContent PrivateMessage (now s)))).

(** Every call site uses the default class ['game-message']. *)
Definition broadcastMessage (roomId : jsstring) (messageContent : Content)
    (s : State) : State :=
  match rooms s !! roomId with
  | None => s
  | Some room =>
      let message := mkMessage messageContent GameMessage (now s) in
      let pushed := messages room ++ [message] in
      s ▷ modRoom roomId
            (setRoom_messages
               (if bool_decide (50 < length pushed)%nat then shift pushed else pushed))
        ▷ emit (ToRoom roomId (NewMessage message))
  end.

(** ** Room registry *)

(** Returns [true] exactly when the room was destroyed. *)
Definition removePlayerFromRoom (roomId nick : jsstring) (s : State)
    : bool * State :=
  match rooms s !! roomId with
  | None => (false, s)
  | Some room =>
      match players room !! nick with
      | None => (false, s)
      | Some _ =>
          let s1 := s ▷ modRoom roomId (setRoom_players (delete nick))
                      ▷ set_reconnectTimeouts (delete nick) in
          if bool_decide (size (delete nick (players room)) = 0%nat)
             && negb (isPermanent room)
          then (true, s1 ▷ set_rooms (delete roomId))
          else (false, s1)
      end
  end.

Definition clearTimeouts (handles : list TimerId) (s : State) : State :=
  foldr (λ t, clearTimeout (Some t)) s handles.

Definition setSocket (sid : SocketId) (roomId nick : jsstring) (s : State) : State :=
  s ▷ set_sockets <[sid := mkSocket (Some roomId) (Some nick)]>.

(** The freshly allocated room of the [createRoom] handler. *)
Definition newRoom (roomId : jsstring) : Room :=
  {| room_id := roomId; room_name := roomId; players := ∅;
     isPermanent := false; currentStartChar := DEFAULT_START_CHAR;
     usedSentences := []; validationQueue := []; currentVote := None;
     messages := [] |}.

Section Engine.
Context {U : Unicode}.

Definition startNewRound (roomId newChar chooserId : jsstring) (s : State)
    : State :=
  match rooms s !! roomId with
  | None => s
  | Some _ =>
      s ▷ modRoom roomId (setRoom_currentStartChar newChar)
        ▷ broadcastMessage roomId (MsgNewRound chooserId newChar)
        ▷ broadcastGameState roomId
  end.

(** [handleCorrectAnswer], with its call back into
    [processValidationQueue] passed as [resume]. The record is looked up
    by own key: the [None] branch is what the code does for a nickname
    that is not [inherited]. *)
Definition handleCorrectAnswer_ (resume : jsstring → State → State)
    (roomId : jsstring) (sub : Submission) (s : State) : State :=
  match rooms s !! roomId with
  | None => s
  | Some room =>
      match players room !! sub_nickname sub with
      | None =>
          s ▷ modRoom roomId (setRoom_validationQueue [])
            ▷ broadcastGameState roomId
            ▷ resume roomId
      | Some winnerPlayer =>
          let normalizedAnswer := normalizeSentence (answer sub) in
          let pushed := usedSentences room ++ [normalizedAnswer] in
          let s1 :=
            s ▷ modPlayer roomId (sub_nickname sub)
                  (λ p, setPlayer_score (score p + 1)%Z p)
              ▷ modRoom roomId (setRoom_validationQueue [])
              ▷ modRoom roomId
                  (setRoom_usedSentences
                     (if bool_decide (50 < length pushed)%nat
                      then shift pushed else pushed)) in
          let choiceEndTime := (now s + CHOICE_DURATION_MS)%Z in
          s1 ▷ setTimeout (ChoiceWindow roomId (answer sub)) CHOICE_DURATION_MS
             ▷ set_choiceTimeouts
                 <[roomId := {| winnerNickname := nickname winnerPlayer;
                                choice_answer := answer sub;
                                choice_endTime := choiceEndTime;
                                timer := nextTimer s1 |}]>
             ▷ broadcastGameState roomId
      end
  end.

Definition startPlayerVote (roomId : jsstring) (sub : Submission)
    (s : State) : State :=
  match rooms s !! roomId with
  | None => s
  | Some room =>
      let onlinePlayers := filter (λ p, online p) (playerList room) in
      let voters :=
        nickname <$> filter (λ p, nickname p ≠ sub_nickname sub) onlinePlayers in
      let voteEndTime := (now s + VOTE_DURATION_MS)%Z in
      let started :=
        foldl (λ acc nick,
                 (<[nick := nextTimer acc.2]> acc.1,
                  setTimeout (VoteCountdown roomId nick) VOTE_DURATION_MS acc.2))
              (∅, s) voters in
      started.2
        ▷ modRoom roomId
            (setRoom_currentVote
               (Some {| submission := sub; votes := ∅; endTime := voteEndTime;
                        voters := voters; timeouts := started.1 |}))
        ▷ broadcastGameState roomId
  end.

Definition processValidationQueue_ (resume : jsstring → State → State)
    (roomId : jsstring) (s : State) : State :=
  match rooms s !! roomId with
  | None => s
  | Some room =>
      match currentVote room, validationQueue room with
      | Some _, _ => s
      | None, [] => s
      | None, sub :: _ =>
          let s1 :=
            s ▷ broadcastGameState roomId
              ▷ broadcastMessage roomId (MsgValidating (answer sub) (sub_nickname sub)) in
          let normalizedKey := normalizeSentence (answer sub) in
          if contains (localCache s) normalizedKey then
            s1 ▷ modRoom roomId (λ r, setRoom_validationQueue (shift (validationQueue r)) r)
               ▷ broadcastMessage roomId (MsgCacheHit (answer sub))
               ▷ handleCorrectAnswer_ resume roomId sub
          else
            s1 ▷ broadcastMessage roomId (MsgToVote (answer sub))
               ▷ startPlayerVote roomId sub
      end
  end.

(** [processValidationQueue] and [handleCorrectAnswer] call each other.
    The only call from [handleCorrectAnswer] comes right after it emptied
    the queue, so that nested call returns at its guard and the recursion
    is two deep at most; [processValidationQueue_eq] and
    [handleCorrectAnswer_eq] below show that these definitions satisfy the
    recursive equations of the source. *)
Definition processValidationQueue : jsstring → State → State :=
  processValidationQueue_ (processValidationQueue_ (λ _ s, s)).

Definition handleCorrectAnswer : jsstring → Submission → State → State :=
  handleCorrectAnswer_ processValidationQueue.

Definition validVotes (v : Vote) : nat :=
  length (filter (λ x, x = VALID) (map_to_list (votes v)).*2).

Definition addToCache (normalizedKey : jsstring) (s : State) : State :=
  if contains (localCache s) normalizedKey then s
  else s ▷ set_localCache (localCache s ++ [normalizedKey]).

Definition handleVoteEnd (roomId : jsstring) (s : State) : State :=
  match rooms s !! roomId with
  | None => s
  | Some room =>
      match currentVote room with
      | None => s
      | Some v =>
          let sub := submission v in
          let totalVoters := length (voters v) in
          let s1 :=
            s ▷ clearTimeouts (map_to_list (timeouts v)).*2
              ▷ modRoom roomId (setRoom_currentVote None)
              ▷ modRoom roomId (λ r, setRoom_validationQueue (shift (validationQueue r)) r) in
          let normalizedKey := normalizeSentence (answer sub) in
          if bool_decide (totalVoters = 0%nat) then
            s1 ▷ broadcastMessage roomId (MsgNobodyToVote (answer sub))
               ▷ addToCache normalizedKey
               ▷ handleCorrectAnswer roomId sub
          else
            let threshold := (totalVoters / 2 + 1)%nat in
            if bool_decide (threshold ≤ validVotes v)%nat then
              s1 ▷ broadcastMessage roomId (MsgVotePassed (answer sub))
                 ▷ addToCache normalizedKey
                 ▷ handleCorrectAnswer roomId sub
            else
              s1 ▷ broadcastMessage roomId (MsgVoteFailed (answer sub))
                 ▷ broadcastGameState roomId
                 ▷ processValidationQueue roomId
      end
  end.

(** [Object.keys(votes).length >= voters.length], then [handleVoteEnd]. *)
Definition endVoteIfComplete (roomId : jsstring) (s : State) : State :=
  match rooms s !! roomId ≫= currentVote with
  | Some v =>
      if bool_decide (length (voters v) ≤ size (votes v))%nat
      then handleVoteEnd roomId s else s
  | None => s
  end.

Definition handleVoteTimeout (roomId nick : jsstring) (s : State) : State :=
  match rooms s !! roomId ≫= currentVote with
  | None => s
  | Some v =>
      if negb (notVoted v nick) then s
      else
        s ▷ modVote roomId (λ v, setVote_votes (<[nick := VALID]> (votes v)) v)
          ▷ modVote roomId (λ v, setVote_timeouts (delete nick (timeouts v)) v)
          ▷ broadcastMessage roomId (MsgVoteTimedOut nick)
          ▷ broadcastGameState roomId
          ▷ endVoteIfComplete roomId
  end.

Definition handlePlayerVote (sid : SocketId) (roomId vote : jsstring)
    (s : State) : State :=
  match rooms s !! roomId, sockets s !! sid ≫= sock_nickname with
  | Some room, Some nick =>
      match currentVote room, players room !! nick with
      | Some v, Some _ =>
          if truthy nick && contains (voters v) nick && notVoted v nick then
            s ▷ clearTimeout (timeouts v !! nick)
              ▷ modVote roomId (λ v, setVote_timeouts (delete nick (timeouts v)) v)
              ▷ modVote roomId (λ v, setVote_votes (<[nick := vote]> (votes v)) v)
              ▷ broadcastMessage roomId (MsgVoted nick)
              ▷ broadcastGameState roomId
              ▷ endVoteIfComplete roomId
          else s
      | _, _ => s
      end
  | _, _ => s
  end.

Definition handleCharChoice (sid : SocketId) (roomId char : jsstring)
    (s : State) : State :=
  match rooms s !! roomId, choiceTimeouts s !! roomId with
  | Some _, Some roomChoiceTimeout =>
      if bool_decide (sockets s !! sid ≫= sock_nickname
                      = Some (winnerNickname roomChoiceTimeout)) then
        s ▷ clearTimeout (Some (timer roomChoiceTimeout))
          ▷ set_choiceTimeouts (delete roomId)
          ▷ startNewRound roomId char (winnerNickname roomChoiceTimeout)
      else s
  | _, _ => s
  end.

(** The callback scheduled by [handleCorrectAnswer]. *)
Definition choiceWindowExpired (roomId ans : jsstring) (s : State) : State :=
  match choiceTimeouts s !! roomId with
  | None => s
  | Some c =>
      let timeoutWinnerNickname := winnerNickname c in
      let randomChar :=
        match normalizeSentence ans with
        | c0 :: _ => [c0]
        | [] => FALLBACK_CHAR
        end in
      s ▷ set_choiceTimeouts (delete roomId)
        ▷ broadcastMessage roomId (MsgChoiceTimedOut timeoutWinnerNickname)
        ▷ startNewRound roomId randomChar SYSTEM
  end.

(** The callback scheduled by an ungraceful disconnect. The [player] it
    captured is the record that was stored under [nick]; its nickname is
    read here from the record stored there now. *)
Definition reconnectGraceExpired (roomId nick : jsstring) (s : State) : State :=
  match rooms s !! roomId ≫= (λ r, players r !! nick) with
  | Some p =>
      if online p then s
      else
        let removed := removePlayerFromRoom roomId nick s in
        (if removed.1 then removed.2
         else removed.2 ▷ broadcastMessage roomId (MsgDropped (nickname p))
                        ▷ broadcastGameState roomId)
          ▷ broadcastRoomList
  | None => s
  end.

Definition reconnectPlayer (sid : SocketId) (roomId nick : jsstring)
    (s : State) : State :=
  match rooms s !! roomId with
  | None => s ▷ emit (ToSocket sid (ReconnectError RoomGone))
  | Some room =>
      match players room !! nick with
      | Some playerData =>
          if online playerData then
            s ▷ emit (ToSocket sid (ReconnectError CannotReconnect))
          else
            let s1 :=
              s ▷ clearTimeout (reconnectTimeouts s !! nick)
                ▷ set_reconnectTimeouts (delete nick)
                ▷ modPlayer roomId nick
                    (λ p, p ▷ setPlayer_online true ▷ setPlayer_socketId sid
                            ▷ setPlayer_disconnectTime None)
                ▷ setSocket sid roomId nick
                ▷ emit (ToSocket sid (JoinSuccess roomId (room_name room)))
                ▷ broadcastMessage roomId (MsgReconnected nick) in
            match currentVote room with
            | Some v =>
                if contains (voters v) nick then
                  if notVoted v nick then
                    s1 ▷ clearTimeout (timeouts v !! nick)
                       ▷ setTimeout (VoteCountdown roomId nick) 15000
                       ▷ modVote roomId
                           (λ v, setVote_timeouts (<[nick := nextTimer s1]> (timeouts v)) v)
                  else s1
                else s1 ▷ emit (ToSocket sid (VoteInProgress (answer (submission v))))
            | None => s1
            end ▷ broadcastGameState roomId ▷ broadcastRoomList
      | None => s ▷ emit (ToSocket sid (ReconnectError CannotReconnect))
      end
  end.

Definition isTakenOnline (room : Room) (nick : jsstring) : bool :=
  bool_decide
    (Exists (λ p, toLowerCase (nickname p) = toLowerCase nick ∧ online p = true)
            (playerList room)).

(** Both callers have checked that the room exists. The record is looked
    up by own key: the last branch is what the code does for a nickname
    that is not [inherited]. *)
Definition joinRoom (sid : SocketId) (roomId nick : jsstring) (s : State)
    : State :=
  match rooms s !! roomId with
  | None => s
  | Some room =>
      if negb (truthy nick) || bool_decide (10 < length nick)%nat
         || bool_decide (length nick < 1)%nat then
        s ▷ emit (ToSocket sid (JoinError BadNickname))
      else if isTakenOnline room nick then
        s ▷ emit (ToSocket sid (JoinError NicknameTaken))
      else
        match players room !! nick with
        | Some offlinePlayer => reconnectPlayer sid roomId nick s
        | None =>
            s ▷ setSocket sid roomId nick
              ▷ modRoom roomId
                  (setRoom_players
                     <[nick := {| nickname := nick; score := 0; online := true;
                                  socketId := sid; disconnectTime := None |}]>)
              ▷ emit (ToSocket sid (JoinSuccess roomId (room_name room)))
              ▷ broadcastMessage roomId (MsgWelcome nick)
              ▷ (λ s', match currentVote room with
                       | Some v => s' ▷ emit (ToSocket sid (VoteInProgress (answer (submission v))))
                       | None => s'
                       end)
              ▷ broadcastGameState roomId
              ▷ broadcastRoomList
        end
  end.

(** The tail of [handlePlayerDisconnect], from [socket.leave(roomId)] on.
    [room] and [player] are the references the handler took at its start:
    the vote is read through [room] even when the room has just been
    removed from [rooms]. *)
Definition disconnectTail (roomId : jsstring) (room : Room) (player : Player)
    (s1 : State) : State :=
  match currentVote room with
  | Some v =>
      if contains (voters v) (nickname player)
         && notVoted v (nickname player) then
        let s2 :=
          s1 ▷ clearTimeout (timeouts v !! nickname player)
             ▷ modVote roomId
                 (λ v, setVote_timeouts (delete (nickname player) (timeouts v)) v)
             ▷ modVote roomId
                 (λ v, setVote_votes (<[nickname player := VALID]> (votes v)) v)
             ▷ broadcastMessage roomId
                 (MsgDisconnectCountedValid (nickname player)) in
        if bool_decide
             (length (voters v)
              ≤ size (<[nickname player := VALID]> (votes v)))%nat
        then handleVoteEnd roomId s2 else s2
      else s1
  | None => s1
  end
  ▷ (λ s2, match rooms s2 !! roomId with
           | Some _ => broadcastGameState roomId s2
           | None => s2
           end)
  ▷ broadcastRoomList.

Definition handlePlayerDisconnect (sid : SocketId) (graceful : bool)
    (s : State) : State :=
  match sockets s !! sid with
  | Some {| sock_roomId := Some roomId; sock_nickname := Some nick |} =>
      if negb (truthy roomId) || negb (truthy nick) then s
      else
        match rooms s !! roomId with
        | None => s
        | Some room =>
            match players room !! nick with
            | None => s
            | Some player =>
                let offline (p : Player) :=
                  p ▷ setPlayer_online false
                    ▷ setPlayer_disconnectTime (Some (now s)) in
                if graceful then
                  if isPermanent room then
                    s ▷ modPlayer roomId nick offline
                      ▷ broadcastMessage roomId (MsgLeft (nickname player))
                      ▷ disconnectTail roomId room player
                  else
                    (s ▷ broadcastMessage roomId (MsgLeft (nickname player))
                       ▷ removePlayerFromRoom roomId nick).2
                      ▷ disconnectTail roomId room player
                else
                  let s1 :=
                    s ▷ modPlayer roomId nick offline
                      ▷ broadcastMessage roomId (MsgDisconnected (nickname player)) in
                  if isPermanent room then s1 ▷ broadcastGameState roomId
                  else
                    s1 ▷ setTimeout (ReconnectGrace roomId nick) RECONNECT_TIMEOUT_MS
                       ▷ set_reconnectTimeouts <[nick := nextTimer s1]>
                       ▷ disconnectTail roomId room player
            end
        end
  | _ => s
  end.

(** The listener checks [socket.roomId] before it calls this. A missing
    room makes the first property access throw before anything changed. *)
Definition handlePlayerInput (sid : SocketId) (roomId ans : jsstring)
    (s : State) : State :=
  match rooms s !! roomId, sockets s !! sid ≫= sock_nickname with
  | Some room, Some nick =>
      if negb (truthy nick) || bool_decide (players room !! nick = None) then s
      else
        let alreadySubmitted :=
          bool_decide (Exists (λ q, sub_nickname q = nick) (validationQueue room)) in
        if alreadySubmitted then s ▷ sendPrivateMessage sid TipAlreadySubmitted
        else
          let trimmedAnswer := trim ans in
          if negb (truthy trimmedAnswer) then s
          else if illegalCharsRegex_test trimmedAnswer then
            s ▷ sendPrivateMessage sid TipIllegalChars
          else
            let normalizedAnswer := normalizeSentence trimmedAnswer in
            if contains (usedSentences room) normalizedAnswer then
              s ▷ sendPrivateMessage sid (TipRecentlyUsed trimmedAnswer)
            else if negb (includes trimmedAnswer (currentStartChar room)) then
              s ▷ sendPrivateMessage sid TipNoStartChar
            else
              s ▷ modRoom roomId
                    (λ r, setRoom_validationQueue
                            (validationQueue r ++ [mkSubmission trimmedAnswer nick]) r)
                ▷ broadcastGameState roomId
                ▷ processValidationQueue roomId
  | _, _ => s
  end.

(** The [withdrawAnswer] listener. *)
Definition withdrawAnswer (sid : SocketId) (s : State) : State :=
  match sockets s !! sid with
  | Some {| sock_roomId := Some roomId; sock_nickname := Some nick |} =>
      if negb (truthy roomId) || negb (truthy nick) then s
      else
        match rooms s !! roomId with
        | None => s
        | Some room =>
            let isVotingOnThis :=
              match currentVote room with
              | Some v => bool_decide (sub_nickname (submission v) = nick)
              | None => false
              end in
            let initialLength := length (validationQueue room) in
            let filtered :=
              filter (λ q, sub_nickname q ≠ nick) (validationQueue room) in
            let s1 := s ▷ modRoom roomId (setRoom_validationQueue filtered) in
            if bool_decide (length filtered < initialLength)%nat
               && bool_decide (is_Some (players room !! nick)) then
              s1 ▷ broadcastMessage roomId (MsgWithdrawn nick)
                 ▷ (λ s2, match currentVote room with
                          | Some v =>
                              if isVotingOnThis then
                                s2 ▷ clearTimeouts (map_to_list (timeouts v)).*2
                                   ▷ modRoom roomId (setRoom_currentVote None)
                                   ▷ broadcastMessage roomId MsgVoteInterrupted
                              else s2
                          | None => s2
                          end)
                 ▷ broadcastGameState roomId
                 ▷ processValidationQueue roomId
            else s1
        end
  | _ => s
  end.

(** The [createRoom] listener; [random] is the value drawn by
    [crypto.randomBytes(2).toString('hex').toUpperCase()]. The room is
    looked up by own key: the second branch is what the code does for an
    identifier that is not [inherited]. *)
Definition createRoom (sid : SocketId) (roomName random nick : jsstring)
    (s : State) : State :=
  let roomId := if truthy roomName then roomName else random in
  match rooms s !! roomId with
  | Some _ => s ▷ emit (ToSocket sid (JoinError RoomExists))
  | None => s ▷ set_rooms <[roomId := newRoom roomId]> ▷ joinRoom sid roomId nick
  end.

(** ** Admin endpoints *)

Definition adminTogglePermanent (roomId : jsstring) (s : State) : State :=
  s ▷ modRoom roomId (λ r, setRoom_isPermanent (negb (isPermanent r)) r).

(** The sockets of the room's players are disconnected 50 ms later; their
    [disconnect] events then arrive like any other. *)
Definition adminDeleteRoom (roomId : jsstring) (s : State) : State :=
  match rooms s !! roomId with
  | Some _ =>
      s ▷ emit (ToRoom roomId RoomClosed)
        ▷ set_rooms (delete roomId)
        ▷ broadcastRoomList
  | None => s
  end.

Definition adminCacheAdd (sentence : jsstring) (s : State) : State :=
  let normalized := normalizeSentence sentence in
  if truthy normalized && negb (contains (localCache s) normalized) then
    s ▷ set_localCache (sort (localCache s ++ [normalized]))
  else s.

Definition adminCacheDelete (sentence : jsstring) (s : State) : State :=
  let normalized := normalizeSentence sentence in
  if contains (localCache s) normalized then
    s ▷ set_localCache (removeFirst normalized (localCache s))
  else s.

Definition adminKickPlayer (roomId nick : jsstring) (s : State) : State :=
  match rooms s !! roomId ≫= (λ r, players r !! nick) with
  | Some player =>
      (if online player && bool_decide (is_Some (sockets s !! socketId player))
       then s ▷ emit (ToSocket (socketId player) Kicked) else s)
        ▷ (λ s1, (removePlayerFromRoom roomId nick s1).2)
        ▷ broadcastGameState roomId
        ▷ broadcastRoomList
  | None => s
  end.

(** ** The event loop *)

Inductive Event :=
  | Connect (sid : SocketId)
  | CreateRoom (sid : SocketId) (roomName random nick : jsstring)
  | JoinRoom (sid : SocketId) (roomId nick : jsstring)
  | ReconnectPlayer (sid : SocketId) (roomId nick : jsstring)
  | LeaveRoom (sid : SocketId)
  | Disconnect (sid : SocketId)
  | SubmitAnswer (sid : SocketId) (ans : jsstring)
  | WithdrawAnswer (sid : SocketId)
  | SubmitVote (sid : SocketId) (vote : jsstring)
  | ChooseNewChar (sid : SocketId) (char : jsstring)
  | AdminTogglePermanent (roomId : jsstring)
  | AdminDeleteRoom (roomId : jsstring)
  | AdminCacheAdd (sentence : jsstring)
  | AdminCacheDelete (sentence : jsstring)
  | AdminKickPlayer (roomId nick : jsstring)
  | TimerFires (t : TimerId)
  | ClockAdvances (ms : N).

(** The room a pending callback belongs to. *)
Definition timerRoom (a : TimerAction) : jsstring :=
  match a with
  | VoteCountdown roomId _ | ChoiceWindow roomId _ | ReconnectGrace roomId _ => roomId
  end.

Definition runTimer (a : TimerAction) (s : State) : State :=
  match a with
  | VoteCountdown roomId nick => handleVoteTimeout roomId nick s
  | ChoiceWindow roomId ans => choiceWindowExpired roomId ans s
  | ReconnectGrace roomId nick => reconnectGraceExpired roomId nick s
  end.

(** A listener runs only for a connected socket. *)
Definition onSocket (sid : SocketId) (h : State → State) (s : State) : State :=
  match sockets s !! sid with
  | Some _ => h s
  | None => s
  end.

(** The listener guard [if (socket.roomId) ...]. *)
Definition withRoomId (sid : SocketId) (h : jsstring → State → State)
    (s : State) : State :=
  match sockets s !! sid ≫= sock_roomId with
  | Some roomId => if truthy roomId then h roomId s else s
  | None => s
  end.

Definition step (e : Event) (s : State) : State :=
  match e with
  | Connect sid =>
      match sockets s !! sid with
      | Some _ => s
      | None => s ▷ set_sockets <[sid := mkSocket None None]>
      end
  | CreateRoom sid roomName random nick =>
      onSocket sid (createRoom sid roomName random nick) s
  | JoinRoom sid roomId nick =>
      onSocket sid
        (λ s, match rooms s !! roomId with
              | None => s ▷ emit (ToSocket sid (JoinError RoomMissing))
              | Some _ => joinRoom sid roomId nick s
              end) s
  | ReconnectPlayer sid roomId nick =>
      onSocket sid (reconnectPlayer sid roomId nick) s
  | LeaveRoom sid => onSocket sid (handlePlayerDisconnect sid true) s
  | Disconnect sid =>
      onSocket sid
        (λ s, s ▷ handlePlayerDisconnect sid false ▷ set_sockets (delete sid)) s
  | SubmitAnswer sid ans =>
      onSocket sid (withRoomId sid (λ roomId, handlePlayerInput sid roomId ans)) s
  | WithdrawAnswer sid => onSocket sid (withdrawAnswer sid) s
  | SubmitVote sid vote =>
      onSocket sid (withRoomId sid (λ roomId, handlePlayerVote sid roomId vote)) s
  | ChooseNewChar sid char =>
      onSocket sid (withRoomId sid (λ roomId, handleCharChoice sid roomId char)) s
  | AdminTogglePermanent roomId => adminTogglePermanent roomId s
  | AdminDeleteRoom roomId => adminDeleteRoom roomId s
  | AdminCacheAdd sentence => adminCacheAdd sentence s
  | AdminCacheDelete sentence => adminCacheDelete sentence s
  | AdminKickPlayer roomId nick => adminKickPlayer roomId nick s
  | TimerFires t =>
      match timers s !! t with
      | Some (due, a) =>
          if bool_decide (due ≤ now s)%Z then s ▷ set_timers (delete t) ▷ runTimer a
          else s
      | None => s
      end
  | ClockAdvances ms => s ▷ set_now (now s + Z.of_N ms)%Z
  end.

Definition run (es : list Event) (s : State) : State :=
  foldl (λ s e, step e s) s es.

(** The server right after start-up with an empty data directory. *)
Definition initial : State :=
  {| rooms := ∅; localCache := []; reconnectTimeouts := ∅;
     choiceTimeouts := ∅; sockets := ∅; timers := ∅; nextTimer := 0;
     now := 0; outbox := [] |}.

Inductive reachable : State → Prop :=
  | reachable_initial : reachable initial
  | reachable_step e s : reachable s → reachable (step e s).
End Engine.

(** * Vocabulary of the properties *)

(** What [broadcastMessage] does to the room's log. *)
Definition logMessage (m : Message) (r : Room) : Room :=
  let pushed := messages r ++ [m] in
  setRoom_messages
    (if bool_decide (50 < length pushed)%nat then shift pushed else pushed) r.

(** The recent-use ring after [normalizedAnswer] was pushed onto it. *)
Definition ringAfter (ring : list jsstring) (normalizedAnswer : jsstring)
    : list jsstring :=
  let pushed := ring ++ [normalizedAnswer] in
  if bool_decide (50 < length pushed)%nat then shift pushed else pushed.

(** The room once the vote is closed: no session, head popped. *)
Definition closeVote (room : Room) : Room :=
  room ▷ setRoom_currentVote None
       ▷ setRoom_validationQueue (tail (validationQueue room)).

(** A notice sent to one socket and nothing else. *)
Definition privately (sid : SocketId) (c : Content) (s : State) : State :=
  s ▷ emit (ToSocket sid (NewMessage (mkMessage c PrivateMessage (now s)))).

Definition enqueue (roomId : jsstring) (sub : Submission) (s : State) : State :=
  s ▷ modRoom roomId (λ r, setRoom_validationQueue (validationQueue r ++ [sub]) r).

(** The vote in progress in a room, if any. *)
Definition voteOf (roomId : jsstring) (s : State) : option Vote :=
  rooms s !! roomId ≫= currentVote.

(** No choice session is pending for the room. *)
Definition noChoice (rid : jsstring) (s : State) : Prop := choiceTimeouts s !! rid = None.


(** ** Invariants

    A property of the registry and of the cache is [Stable] when it survives
    the few elementary updates the handlers are made of. *)

Record Stable (P : State → Prop) : Prop := {
  stable_ext : ∀ s s',
    rooms s' = rooms s → localCache s' = localCache s → P s → P s';
  stable_shrink : ∀ roomId f s,
    (∀ r, rooms s !! roomId = Some r →
          sublist (validationQueue (f r)) (validationQueue r)) →
    P s → P (modRoom roomId f s);
  stable_push : ∀ roomId sub s room,
    rooms s !! roomId = Some room →
    ¬ Exists (λ q, sub_nickname q = sub_nickname sub) (validationQueue room) →
    P s →
    P (modRoom roomId (λ r, setRoom_validationQueue (validationQueue r ++ [sub]) r) s);
  stable_delete : ∀ roomId s, P s → P (set_rooms (delete roomId) s);
  stable_new : ∀ roomId s, P s → P (set_rooms <[roomId := newRoom roomId]> s);
  stable_cache : ∀ l s,
    (NoDup (localCache s) → NoDup l) → P s → P (set_localCache l s);
}.

(** The queue of a room holds each nickname at most once. *)
Definition queueNicknames (r : Room) : list jsstring :=
  sub_nickname <$> validationQueue r.

Definition QueueInv (s : State) : Prop :=
  ∀ roomId r, rooms s !! roomId = Some r → NoDup (queueNicknames r).

Definition CacheInv (s : State) : Prop := NoDup (localCache s).

(** ** Traces

    Small runs of the event loop, used to evaluate the engine. *)

Module Traces.
Definition R : jsstring := js "R".
Definition R2 : jsstring := js "R2".
Definition A : jsstring := js "A".
Definition B : jsstring := js "B".
Definition C : jsstring := js "C".
Definition Bob : jsstring := js "Bob".
Definition bob : jsstring := js "bob".
(** "月光" and "月X": both contain the default start character. *)
Definition moonlight : jsstring := [0x6708; 0x5149].
Definition moonX : jsstring := [0x6708; 88].

(** A creates room R, B joins. *)
Definition twoPlayers : list Event :=
  [Connect 1; Connect 2; CreateRoom 1 R [] A; JoinRoom 2 R B].
(** A then submits an answer that is not in the cache: B is asked to vote. *)
Definition voting : list Event := twoPlayers ++ [SubmitAnswer 1 moonX].
(** The same in a room the admin made permanent. *)
Definition permanentVoting : list Event :=
  twoPlayers ++ [AdminTogglePermanent R; SubmitAnswer 1 moonX].
(** A wins with a cached answer; while A's choice is pending B submits. *)
Definition overlap : list Event :=
  twoPlayers ++ [AdminCacheAdd moonlight; SubmitAnswer 1 moonlight;
                 SubmitAnswer 2 moonX].
(** A alone wins with a cached answer and leaves. *)
Definition winAndLeave : list Event :=
  [Connect 1; CreateRoom 1 R [] A; AdminCacheAdd moonlight;
   SubmitAnswer 1 moonlight; LeaveRoom 1].
(** A player named A drops out of R and another A drops out of R2; then
    the first one reconnects to R. *)
Definition twoRooms : list Event :=
  [Connect 1; Connect 2; Connect 3; Connect 4;
   CreateRoom 1 R [] A; JoinRoom 2 R B; CreateRoom 3 R2 [] A; JoinRoom 4 R2 C;
   Disconnect 1; Disconnect 3; Connect 5; ReconnectPlayer 5 R A].
(** It drops out again 20 s later; the timer of its first disconnect
    fires at 30 s, and it asks to reconnect right after. *)
Definition evictedEarly : list Event :=
  twoRooms ++ [ClockAdvances 20000; Disconnect 5; ClockAdvances 10000;
               TimerFires 0; Connect 6; ReconnectPlayer 6 R A].
(** Bob creates R and drops out; a second socket connects. *)
Definition bobOffline : list Event :=
  [Connect 1; CreateRoom 1 R [] Bob; Disconnect 1; Connect 2].
(** It joins as bob, scores a point and drops out too; a third socket
    connects. *)
Definition caseTwins : list Event :=
  bobOffline ++ [JoinRoom 2 R bob; AdminCacheAdd moonlight;
                 SubmitAnswer 2 moonlight; Disconnect 2; Connect 3].

Definition theRoom (s : State) : Room := default (newRoom R) (rooms s !! R).
Definition theVote (s : State) : Vote :=
  default (mkVote (mkSubmission [] []) ∅ 0 [] ∅) (currentVote (theRoom s)).
Definition thePlayer (nick : jsstring) (s : State) : Player :=
  default (mkPlayer [] 0 false 0 None) (players (theRoom s) !! nick).
End Traces.

(** * The data listing of the admin page *)

(** The body of the response to [GET /admin/api/data]: the rooms as
    [(id, playerCount, isPermanent)] and a sorted copy of the cache. *)
Definition adminData (s : State)
    : list (jsstring * nat * bool) * list jsstring :=
  ((λ r, (room_id r, onlineCount r, isPermanent r)) <$> (map_to_list (rooms s)).*2,
   sort (localCache s)).

(** * Vocabulary of the further properties *)

(** A string that does not start with white space. *)
Definition startsClean (l : jsstring) : Prop :=
  match l with x :: _ => isWhiteSpace x = false | [] => True end.

(** The order of the default [Array.prototype.sort] on strings. *)
Definition strLeP (a b : jsstring) : Prop := strLe a b = true.

(** The players asked to vote on a submission of [nick]: those online, the
    submitter apart. *)
Definition electorate (nick : jsstring) (r : Room) : list jsstring :=
  nickname <$> filter (λ p, nickname p ≠ nick) (filter (λ p, online p) (playerList r)).

(** What the handlers do to a player record: on a disconnect, on a
    reconnect, on an accepted answer; and the record of a newcomer. *)
Definition goOffline (t : Z) (p : Player) : Player :=
  p ▷ setPlayer_online false ▷ setPlayer_disconnectTime (Some t).
Definition comeBack (sid : SocketId) (p : Player) : Player :=
  p ▷ setPlayer_online true ▷ setPlayer_socketId sid ▷ setPlayer_disconnectTime None.
Definition scorePoint (p : Player) : Player := setPlayer_score (score p + 1)%Z p.
Definition freshPlayer (nick : jsstring) (sid : SocketId) : Player :=
  {| nickname := nick; score := 0; online := true; socketId := sid;
     disconnectTime := None |}.

Section Updates.
Context {U : Unicode}.

(** The elementary updates that the game handlers make to a room they hold
    a reference to. *)
Inductive update : Room → Room → Prop :=
  | update_log m r : update r (logMessage m r)
  | update_join nick sid r :
      nick ≠ [] → (length nick ≤ 10)%nat → players r !! nick = None →
      update r (setRoom_players <[nick := freshPlayer nick sid]> r)
  | update_remove nick r : update r (setRoom_players (delete nick) r)
  | update_offline nick t r :
      update r (setRoom_players (alter (goOffline t) nick) r)
  | update_online nick sid r :
      update r (setRoom_players (alter (comeBack sid) nick) r)
  | update_score nick r :
      update r (setRoom_players (alter scorePoint nick) r)
  | update_shrink q r :
      sublist q (validationQueue r) → update r (setRoom_validationQueue q r)
  | update_push ans nick r :
      nick ≠ [] → is_Some (players r !! nick) →
      ¬ Exists (λ q, sub_nickname q = nick) (validationQueue r) →
      ans ≠ [] → illegalCharsRegex_test ans = false →
      normalizeSentence ans ∉ usedSentences r →
      includes ans (currentStartChar r) = true →
      update r (setRoom_validationQueue
                  (validationQueue r ++ [mkSubmission ans nick]) r)
  | update_ring key r :
      update r (setRoom_usedSentences (ringAfter (usedSentences r) key) r)
  | update_startChar c r : update r (setRoom_currentStartChar c r)
  | update_vote_open sub t handles r :
      update r (setRoom_currentVote
                  (Some (mkVote sub ∅ t (electorate (sub_nickname sub) r) handles)) r)
  | update_vote_map f r :
      (∀ v, submission (f v) = submission v ∧ voters (f v) = voters v) →
      update r (setRoom_currentVote (f <$> currentVote r) r)
  | update_vote_close r : update r (setRoom_currentVote None r).
End Updates.

(** A property of the registry that survives these updates, the creation
    of a room and the removal of a room that is not permanent. *)
Record Evolving {U : Unicode} (P : State → Prop) : Prop := {
  evolving_ext : ∀ s s', rooms s' = rooms s → P s → P s';
  evolving_mod : ∀ roomId f s,
    (∀ r, rooms s !! roomId = Some r → update r (f r)) →
    P s → P (modRoom roomId f s);
  evolving_drop : ∀ roomId s,
    (∀ r, rooms s !! roomId = Some r → isPermanent r = false) →
    P s → P (set_rooms (delete roomId) s);
  evolving_new : ∀ roomId s,
    rooms s !! roomId = None → P s → P (set_rooms <[roomId := newRoom roomId]> s);
}.

(** A property of every room of the registry, under the key it has. *)
Definition AllRooms (I : jsstring → Room → Prop) (s : State) : Prop :=
  ∀ roomId r, rooms s !! roomId = Some r → I roomId r.

(** The events of the game, as opposed to the two admin requests that act
    on a room as a whole. *)
Definition gameEvent (e : Event) : bool :=
  match e with
  | AdminTogglePermanent _ | AdminDeleteRoom _ => false
  | _ => true
  end.

(** Invariants of a room: the bounds of its log and of its recent-use ring,
    its names, its player records, its queue entries and its voters. *)
Definition boundedLog (r : Room) : Prop := (length (messages r) ≤ 50)%nat.
Definition boundedRing (r : Room) : Prop := (length (usedSentences r) ≤ 50)%nat.
Definition selfNamed (roomId : jsstring) (r : Room) : Prop :=
  room_id r = roomId ∧ room_name r = roomId.
Definition playersWellFormed (r : Room) : Prop :=
  ∀ nick p, players r !! nick = Some p →
    nickname p = nick ∧ (1 ≤ length nick ≤ 10)%nat ∧ (0 ≤ score p)%Z.
Definition queueWellFormed {U : Unicode} (r : Room) : Prop :=
  ∀ q, q ∈ validationQueue r →
    sub_nickname q ≠ [] ∧ answer q ≠ []
    ∧ illegalCharsRegex_test (answer q) = false
    ∧ normalizeSentence (answer q) = answer q.
Definition electorateWellFormed (r : Room) : Prop :=
  ∀ v, currentVote r = Some v →
    NoDup (voters v) ∧ sub_nickname (submission v) ∉ voters v.
(** What a game event may do to the permanence of the room [r] was. *)
Definition permanenceKept (r : Room) (after : option Room) : Prop :=
  match after with
  | Some r' => isPermanent r' = isPermanent r
  | None => isPermanent r = false
  end.

(** The countdowns [startPlayerVote] starts, one voter after the other. *)
Definition startCountdowns (roomId : jsstring) (l : list jsstring)
    (acc : gmap jsstring TimerId * State) : gmap jsstring TimerId * State :=
  foldl (λ acc nick,
           (<[nick := nextTimer acc.2]> acc.1,
            setTimeout (VoteCountdown roomId nick) VOTE_DURATION_MS acc.2))
        acc l.

(** ** Further traces *)

Module Scenes.
Import Traces.
(** A, B and C are in room R; A's answer is under vote and B has approved. *)
Definition threeVoting : list Event :=
  twoPlayers ++ [Connect 3; JoinRoom 3 R C; SubmitAnswer 1 moonX;
                 SubmitVote 2 VALID].
(** A has won with a cached answer and is asked to choose. *)
Definition choosing : list Event :=
  twoPlayers ++ [AdminCacheAdd moonlight; SubmitAnswer 1 moonlight].
(** In a permanent room B drops out during the vote on A's answer; a third
    socket connects. *)
Definition voterOffline : list Event :=
  permanentVoting ++ [Disconnect 2; Connect 3].
(** The room made permanent, with both players in it. *)
Definition permanentRoom : list Event := twoPlayers ++ [AdminTogglePermanent R].
(** "月Y". *)
Definition moonY : jsstring := [0x6708; 89].
Definition INVALID : jsstring := js "invalid".
(** A, B and C are in room R. *)
Definition threePlayers : list Event :=
  twoPlayers ++ [Connect 3; JoinRoom 3 R C].
(** A's answer is under vote by B and C; the admin removes A and C, so
    that B is the last player of R. *)
Definition lastVoter : list Event :=
  threePlayers ++ [SubmitAnswer 1 moonX; AdminKickPlayer R A;
                   AdminKickPlayer R C].
(** A is alone in R and submits an answer that is not in the cache. *)
Definition soloVote : list Event :=
  [Connect 1; CreateRoom 1 R [] A; SubmitAnswer 1 moonX].
(** During the vote on A's answer B submits as well; A leaves the room
    and then withdraws. *)
Definition strayEntry : list Event :=
  threePlayers ++ [SubmitAnswer 1 moonX; SubmitAnswer 2 moonY; LeaveRoom 1;
                   WithdrawAnswer 1].
(** The admin deletes R during the vote of [voting]; C creates a room of
    the same name and submits, alone in it; 15 s have passed since the
    first vote opened. *)
Definition recreated : list Event :=
  voting ++ [AdminDeleteRoom R; Connect 3; CreateRoom 3 R [] C;
             SubmitAnswer 3 moonY; ClockAdvances 15000].
End Scenes.

(** * Properties *)

(** ** How the primitives act on the registry *)

Lemma alter_absent {A} (f : A → A) (k : jsstring) (m : gmap jsstring A) :
  m !! k = None → alter f k m = m.
Proof.
  intros H. apply map_eq. intros j. rewrite lookup_alter.
  case_decide; subst; by rewrite ?H.
Qed.

Lemma alter_agree {A} (f g : A → A) (k : jsstring) (m : gmap jsstring A) x :
  m !! k = Some x → f x = g x → alter f k m = alter g k m.
Proof.
  intros H E. apply map_eq. intros j. rewrite !lookup_alter.
  case_decide; subst; [rewrite H; simpl; by rewrite E|done].
Qed.

Lemma alter_present {A} (f : A → A) (k : jsstring) (m : gmap jsstring A) x :
  m !! k = Some x → alter f k m = <[k := f x]> m.
Proof.
  intros H. apply map_eq. intros j. rewrite lookup_alter, lookup_insert.
  case_decide; subst; by rewrite ?H.
Qed.

Lemma sublist_tail {A} (l : list A) : sublist (tail l) l.
Proof. destruct l; [done|]. by apply sublist_cons. Qed.

Lemma rooms_broadcastMessage roomId c s :
  rooms (broadcastMessage roomId c s)
  = alter (logMessage (mkMessage c GameMessage (now s))) roomId (rooms s).
Proof.
  unfold broadcastMessage. destruct (rooms s !! roomId) as [room|] eqn:E; simpl.
  - by apply alter_agree with room.
  - by rewrite alter_absent.
Qed.

Lemma rooms_broadcastGameState roomId s :
  rooms (broadcastGameState roomId s) = rooms s.
Proof. unfold broadcastGameState. by case_match. Qed.

Lemma rooms_clearTimeout h s : rooms (clearTimeout h s) = rooms s.
Proof. by destruct h. Qed.

Lemma rooms_clearTimeouts l s : rooms (clearTimeouts l s) = rooms s.
Proof. induction l; simpl; [done|]. by rewrite <- IHl. Qed.

Section Facts.
Context {U : Unicode}.

(** ** The recursion between queue processing and acceptance *)

Lemma processValidationQueue_idle k roomId s :
  (∀ r, rooms s !! roomId = Some r → validationQueue r = []) →
  processValidationQueue_ k roomId s = s.
Proof.
  intros H. unfold processValidationQueue_.
  destruct (rooms s !! roomId) as [room|]; [|done].
  rewrite (H room eq_refl). by destruct (currentVote room).
Qed.

Lemma handleCorrectAnswer_resume k roomId sub s :
  handleCorrectAnswer_ (processValidationQueue_ k) roomId sub s
  = handleCorrectAnswer_ (λ _ s, s) roomId sub s.
Proof.
  unfold handleCorrectAnswer_.
  destruct (rooms s !! roomId) as [room|] eqn:E; [|done].
  destruct (players room !! sub_nickname sub); [done|].
  apply processValidationQueue_idle. intros r.
  rewrite rooms_broadcastGameState. unfold modRoom; simpl.
  rewrite lookup_alter_eq, E. by intros [= <-].
Qed.

Lemma processValidationQueue_resume k roomId s :
  processValidationQueue_ (processValidationQueue_ k) roomId s
  = processValidationQueue_ (λ _ s, s) roomId s.
Proof.
  unfold processValidationQueue_ at 1 3.
  repeat case_match; try done. apply handleCorrectAnswer_resume.
Qed.


Lemma handleCorrectAnswer_eq roomId sub s :
  handleCorrectAnswer roomId sub s
  = handleCorrectAnswer_ processValidationQueue roomId sub s.
Proof. done. Qed.


Lemma processValidationQueue_flat roomId s :
  processValidationQueue roomId s = processValidationQueue_ (λ _ s, s) roomId s.
Proof. apply processValidationQueue_resume. Qed.

Lemma processValidationQueue_empty roomId s :
  (∀ r, rooms s !! roomId = Some r → validationQueue r = []) →
  processValidationQueue roomId s = s.
Proof. apply processValidationQueue_idle. Qed.
End Facts.

Section Acceptance.
Context {U : Unicode}.

Lemma ringAfter_below ring x :
  (length ring < 50)%nat → ringAfter ring x = ring ++ [x].
Proof.
  intros H. unfold ringAfter. rewrite length_app. simpl.
  case_bool_decide; [lia|done].
Qed.

Lemma ringAfter_full ring x :
  (50 ≤ length ring)%nat → ringAfter ring x = tail ring ++ [x].
Proof.
  intros H. unfold ringAfter. rewrite length_app. simpl.
  case_bool_decide; [|lia]. destruct ring; simpl in *; [lia|done].
Qed.

(** C3. [handleCorrectAnswer] on a room that still holds the submitter's
    record: the record stored under the submitter's nickname has its score
    raised by one and is otherwise as it was, and no other record changes;
    the queue is empty; the normalized answer is the last entry of the
    recent-use ring, the oldest entry being evicted exactly when the ring
    already held 50; nothing else in the room changes; a choice session for
    that player is registered with an end time, and a timer, 15000 ms from
    now. Without the record, for a nickname that once had one (it is not
    the name of an inherited member): the queue is emptied, no record,
    ring, timer or choice session changes, and queue processing is
    resumed. *)
Theorem handleCorrectAnswer_accepts roomId sub s room :
  rooms s !! roomId = Some room →
  let s' := handleCorrectAnswer roomId sub s in
  let ring := usedSentences room in
  let normalizedAnswer := normalizeSentence (answer sub) in
  match players room !! sub_nickname sub with
  | Some winner =>
      (∃ room',
         rooms s' = <[roomId := room']> (rooms s)
         ∧ players room'
           = <[sub_nickname sub :=
                 {| nickname := nickname winner; score := (score winner + 1)%Z;
                    online := online winner; socketId := socketId winner;
                    disconnectTime := disconnectTime winner |}]> (players room)
         ∧ validationQueue room' = []
         ∧ ((length ring < 50)%nat →
            usedSentences room' = ring ++ [normalizedAnswer])
         ∧ ((50 ≤ length ring)%nat →
            usedSentences room' = tail ring ++ [normalizedAnswer])
         ∧ (room_id room', room_name room', isPermanent room',
            currentStartChar room', currentVote room', messages room')
           = (room_id room, room_name room, isPermanent room,
              currentStartChar room, currentVote room, messages room))
      ∧ choiceTimeouts s'
        = <[roomId := {| winnerNickname := nickname winner;
                         choice_answer := answer sub;
                         choice_endTime := (now s + 15000)%Z;
                         timer := nextTimer s |}]> (choiceTimeouts s)
      ∧ timers s'
        = <[nextTimer s := ((now s + 15000)%Z, ChoiceWindow roomId (answer sub))]>
            (timers s)
      ∧ localCache s' = localCache s
  | None =>
      inherited (sub_nickname sub) = false →
      (∃ room',
         rooms s' = <[roomId := room']> (rooms s)
         ∧ players room' = players room
         ∧ validationQueue room' = []
         ∧ usedSentences room' = ring
         ∧ (room_id room', room_name room', isPermanent room',
            currentStartChar room', currentVote room', messages room')
           = (room_id room, room_name room, isPermanent room,
              currentStartChar room, currentVote room, messages room))
      ∧ choiceTimeouts s' = choiceTimeouts s
      ∧ timers s' = timers s
      ∧ localCache s' = localCache s
      ∧ s' = processValidationQueue roomId
               (s ▷ modRoom roomId (setRoom_validationQueue [])
                  ▷ broadcastGameState roomId)
  end.
Proof.
  intros Hroom s' ring normalizedAnswer. subst s'.
  rewrite handleCorrectAnswer_eq. unfold handleCorrectAnswer_. rewrite Hroom.
  destruct (players room !! sub_nickname sub) as [winner|] eqn:Hp.
  - split; [|unfold broadcastGameState; by case_match].
    eexists. split.
    + rewrite rooms_broadcastGameState. unfold modPlayer, modRoom; simpl.
      rewrite !alter_alter_eq. by rewrite (alter_present _ _ _ _ Hroom).
    + simpl. split; [by rewrite (alter_present _ _ _ _ Hp)|].
      split; [done|]. fold ring normalizedAnswer.
      split; [|split; [|done]].
      * intros Hlen. apply (ringAfter_below ring normalizedAnswer Hlen).
      * intros Hlen. apply (ringAfter_full ring normalizedAnswer Hlen).
  - intros _.
    set (cleared := s ▷ modRoom roomId (setRoom_validationQueue [])
                      ▷ broadcastGameState roomId).
    assert (E : processValidationQueue roomId cleared = cleared).
    { apply processValidationQueue_empty. intros r. subst cleared.
      rewrite rooms_broadcastGameState. unfold modRoom; simpl.
      rewrite lookup_alter_eq, Hroom. by intros [= <-]. }
    rewrite E. subst cleared. split.
    + eexists. split.
      * rewrite rooms_broadcastGameState. unfold modRoom; simpl.
        by rewrite (alter_present _ _ _ _ Hroom).
      * by simpl.
    + repeat split; unfold broadcastGameState; by case_match.
Qed.
End Acceptance.

Section VoteEnd.
Context {U : Unicode}.

Lemma localCache_broadcastMessage roomId c s :
  localCache (broadcastMessage roomId c s) = localCache s.
Proof. unfold broadcastMessage. by case_match. Qed.

Lemma localCache_broadcastGameState roomId s :
  localCache (broadcastGameState roomId s) = localCache s.
Proof. unfold broadcastGameState. by case_match. Qed.

Lemma localCache_clearTimeouts l s :
  localCache (clearTimeouts l s) = localCache s.
Proof.
  induction l as [|t l IH]; simpl; [done|]. by rewrite <- IH.
Qed.

Lemma choiceTimeouts_broadcastMessage roomId c s :
  choiceTimeouts (broadcastMessage roomId c s) = choiceTimeouts s.
Proof. unfold broadcastMessage. by case_match. Qed.

Lemma choiceTimeouts_broadcastGameState roomId s :
  choiceTimeouts (broadcastGameState roomId s) = choiceTimeouts s.
Proof. unfold broadcastGameState. by case_match. Qed.

Lemma choiceTimeouts_clearTimeouts l s :
  choiceTimeouts (clearTimeouts l s) = choiceTimeouts s.
Proof.
  induction l as [|t l IH]; simpl; [done|]. by rewrite <- IH.
Qed.

Lemma addToCache_fields key s :
  rooms (addToCache key s) = rooms s
  ∧ choiceTimeouts (addToCache key s) = choiceTimeouts s
  ∧ key ∈ localCache (addToCache key s)
  ∧ (key ∈ localCache s → localCache (addToCache key s) = localCache s)
  ∧ (key ∉ localCache s → localCache (addToCache key s) = localCache s ++ [key]).
Proof.
  unfold addToCache, contains. case_bool_decide; simpl.
  - repeat split; done.
  - repeat split; try done. apply elem_of_app. right. by left.
Qed.

Lemma rooms_announce roomId c s room :
  rooms s !! roomId = Some room →
  rooms (s ▷ modRoom roomId (setRoom_currentVote None)
           ▷ modRoom roomId (λ r, setRoom_validationQueue (shift (validationQueue r)) r)
           ▷ broadcastMessage roomId c)
  = <[roomId := logMessage (mkMessage c GameMessage (now s)) (closeVote room)]>
      (rooms s).
Proof.
  intros H. rewrite rooms_broadcastMessage. unfold modRoom; simpl.
  rewrite !alter_alter_eq. by rewrite (alter_present _ _ _ _ H).
Qed.

Lemma validVotes_recorded v :
  validVotes v
  = length (filter (λ kv : jsstring * jsstring, kv.2 = VALID) (map_to_list (votes v))).
Proof.
  unfold validVotes. induction (map_to_list (votes v)) as [|kv l IH]; [done|].
  rewrite fmap_cons, !filter_cons. simpl. case_decide; simpl; by rewrite IH.
Qed.

(** [handleVoteEnd], once it is called on a room with a vote in progress.
    The session is removed, the head of the queue is popped and one verdict
    is announced in the room; no record, hence no score, has changed at
    that point. With an empty voter set the verdict is the automatic pass.
    Otherwise the verdict is "passed" if and only if the entries of
    [votes] that hold ['valid'] are at least [floor(N/2)+1]. On a pass
    (automatic or voted) the normalized answer is in the cache afterwards,
    appended only if it was not there, and the submission goes to
    [handleCorrectAnswer]. On a failure the cache is unchanged and
    [processValidationQueue] runs on what is left of the queue. *)
Lemma handleVoteEnd_majority roomId s room v :
  rooms s !! roomId = Some room →
  currentVote room = Some v →
  let sub := submission v in
  let N := length (voters v) in
  let key := normalizeSentence (answer sub) in
  ∃ verdict s1,
    rooms s1
    = <[roomId := logMessage (mkMessage verdict GameMessage (now s)) (closeVote room)]>
        (rooms s)
    ∧ choiceTimeouts s1 = choiceTimeouts s
    ∧ (N = 0%nat → verdict = MsgNobodyToVote (answer sub))
    ∧ (N ≠ 0%nat →
       (verdict = MsgVotePassed (answer sub) ∨ verdict = MsgVoteFailed (answer sub))
       ∧ (verdict = MsgVotePassed (answer sub) ↔
          (N / 2 + 1
           ≤ length (filter (λ kv : jsstring * jsstring, kv.2 = VALID)
                       (map_to_list (votes v))))%nat))
    ∧ (verdict ≠ MsgVoteFailed (answer sub) →
       key ∈ localCache s1
       ∧ (key ∈ localCache s → localCache s1 = localCache s)
       ∧ (key ∉ localCache s → localCache s1 = localCache s ++ [key])
       ∧ handleVoteEnd roomId s = handleCorrectAnswer roomId sub s1)
    ∧ (verdict = MsgVoteFailed (answer sub) →
       localCache s1 = localCache s
       ∧ handleVoteEnd roomId s = processValidationQueue roomId s1).
Proof.
  intros Hroom Hvote sub N key.
  assert (Hrooms : ∀ c,
    rooms (s ▷ clearTimeouts (map_to_list (timeouts v)).*2
             ▷ modRoom roomId (setRoom_currentVote None)
             ▷ modRoom roomId (λ r, setRoom_validationQueue (shift (validationQueue r)) r)
             ▷ broadcastMessage roomId c)
    = <[roomId := logMessage (mkMessage c GameMessage (now s)) (closeVote room)]>
        (rooms s)).
  { intros c.
    pose proof (rooms_announce roomId c (clearTimeouts (map_to_list (timeouts v)).*2 s) room) as E.
    rewrite rooms_clearTimeouts in E. rewrite (E Hroom). do 3 f_equal.
    clear. induction (map_to_list (timeouts v)).*2 as [|t l IH]; simpl; [done|].
    by rewrite <- IH. }
  unfold handleVoteEnd. rewrite Hroom, Hvote. fold sub N key.
  rewrite validVotes_recorded.
  set (s0 := s ▷ clearTimeouts (map_to_list (timeouts v)).*2
               ▷ modRoom roomId (setRoom_currentVote None)
               ▷ modRoom roomId (λ r, setRoom_validationQueue (shift (validationQueue r)) r)).
  assert (Hc0 : localCache s0 = localCache s)
    by (subst s0; simpl; apply localCache_clearTimeouts).
  assert (Ht0 : choiceTimeouts s0 = choiceTimeouts s)
    by (subst s0; simpl; apply choiceTimeouts_clearTimeouts).
  assert (Hpass : ∀ c,
    let s1 := s0 ▷ broadcastMessage roomId c ▷ addToCache key in
    rooms s1 = <[roomId := logMessage (mkMessage c GameMessage (now s)) (closeVote room)]> (rooms s)
    ∧ choiceTimeouts s1 = choiceTimeouts s
    ∧ key ∈ localCache s1
    ∧ (key ∈ localCache s → localCache s1 = localCache s)
    ∧ (key ∉ localCache s → localCache s1 = localCache s ++ [key])).
  { intros c s1. subst s1.
    destruct (addToCache_fields key (broadcastMessage roomId c s0))
      as (-> & -> & Hin & Hold & Hnew).
    rewrite localCache_broadcastMessage, Hc0 in Hold, Hnew.
    rewrite choiceTimeouts_broadcastMessage, Ht0.
    repeat split; done. }
  case_bool_decide as HN.
  - exists (MsgNobodyToVote (answer sub)), (s0 ▷ broadcastMessage roomId (MsgNobodyToVote (answer sub)) ▷ addToCache key).
    destruct (Hpass (MsgNobodyToVote (answer sub))) as (? & ? & ? & ? & ?).
    repeat split; try done.
  - case_bool_decide as Hmaj.
    + exists (MsgVotePassed (answer sub)), (s0 ▷ broadcastMessage roomId (MsgVotePassed (answer sub)) ▷ addToCache key).
      destruct (Hpass (MsgVotePassed (answer sub))) as (? & ? & ? & ? & ?).
      repeat split; try done. by left.
    + exists (MsgVoteFailed (answer sub)), (s0 ▷ broadcastMessage roomId (MsgVoteFailed (answer sub)) ▷ broadcastGameState roomId).
      rewrite rooms_broadcastGameState, choiceTimeouts_broadcastGameState,
        choiceTimeouts_broadcastMessage, localCache_broadcastGameState,
        localCache_broadcastMessage, Hc0, Ht0.
      repeat split; try done. by right.
Qed.
End VoteEnd.

Section Intake.
Context {U : Unicode}.

Lemma rooms_enqueue roomId sub s room :
  rooms s !! roomId = Some room →
  rooms (enqueue roomId sub s)
  = <[roomId := setRoom_validationQueue (validationQueue room ++ [sub]) room]>
      (rooms s).
Proof.
  intros H. unfold enqueue, modRoom; simpl. by rewrite (alter_present _ _ _ _ H).
Qed.

(** C2, amended. [handlePlayerInput] for a socket whose nickname has a
    record in the room runs five checks in this order: a submission of the
    nickname is already queued; the text is empty once trimmed; the trimmed
    text has a white-space or punctuation character; its normalized form is
    in the recent-use ring; the trimmed text does not contain the start
    character. The first check that fires rejects the call. The rejection
    for an empty text changes nothing and emits nothing; each of the four
    others changes nothing but the outgoing log, to which it adds one
    notice addressed to the calling socket. When no check fires the
    submission [{trimmed, nickname}] is appended to the queue, the state is
    broadcast and [processValidationQueue] runs. *)
Theorem handlePlayerInput_intake sid roomId ans s room nick :
  rooms s !! roomId = Some room →
  sockets s !! sid ≫= sock_nickname = Some nick →
  nick ≠ [] →
  is_Some (players room !! nick) →
  let trimmed := trim ans in
  let queued := Exists (λ q, sub_nickname q = nick) (validationQueue room) in
  let illegal := illegalCharsRegex_test trimmed = true in
  let used := normalizeSentence trimmed ∈ usedSentences room in
  let offTopic := includes trimmed (currentStartChar room) = false in
  let s' := handlePlayerInput sid roomId ans s in
  (queued → s' = privately sid TipAlreadySubmitted s)
  ∧ (¬ queued → trimmed = [] → s' = s)
  ∧ (¬ queued → trimmed ≠ [] → illegal → s' = privately sid TipIllegalChars s)
  ∧ (¬ queued → trimmed ≠ [] → ¬ illegal → used →
     s' = privately sid (TipRecentlyUsed trimmed) s)
  ∧ (¬ queued → trimmed ≠ [] → ¬ illegal → ¬ used → offTopic →
     s' = privately sid TipNoStartChar s)
  ∧ (¬ queued → trimmed ≠ [] → ¬ illegal → ¬ used → ¬ offTopic →
     rooms (enqueue roomId (mkSubmission trimmed nick) s)
     = <[roomId := setRoom_validationQueue
                     (validationQueue room ++ [mkSubmission trimmed nick]) room]>
         (rooms s)
     ∧ s' = s ▷ enqueue roomId (mkSubmission trimmed nick)
              ▷ broadcastGameState roomId
              ▷ processValidationQueue roomId).
Proof.
  intros Hroom Hsock Hnick [p Hp] trimmed queued illegal used offTopic s'.
  subst s'. unfold handlePlayerInput. rewrite Hroom, Hsock, Hp.
  destruct nick as [|c nick]; [congruence|]. simpl negb. simpl orb.
  fold trimmed. clearbody trimmed.
  subst queued illegal used offTopic. unfold contains, sendPrivateMessage, privately.
  assert (Hfalsy : truthy (@nil N) = false) by done.
  assert (Htruthy : ∀ t : jsstring, t ≠ [] → truthy t = true)
    by (by intros [|? ?]).
  repeat split; intros;
    repeat match goal with
           | H : Exists _ _ |- _ => rewrite (bool_decide_eq_true_2 _ H); clear H
           | H : ¬ Exists _ _ |- _ => rewrite (bool_decide_eq_false_2 _ H); clear H
           | H : _ ∈ _ |- _ => rewrite (bool_decide_eq_true_2 _ H); clear H
           | H : _ ∉ _ |- _ => rewrite (bool_decide_eq_false_2 _ H); clear H
           | H : trimmed = [] |- _ => rewrite H, Hfalsy; clear H
           | H : trimmed ≠ [] |- _ => rewrite (Htruthy _ H); clear H
           | H : _ = true |- _ => rewrite H; clear H
           | H : _ ≠ true |- _ => rewrite (not_true_is_false _ H); clear H
           | H : _ = false |- _ => rewrite H; clear H
           | H : _ ≠ false |- _ => rewrite (not_false_is_true _ H); clear H
           end; try done.
  - by apply rooms_enqueue.
Qed.
End Intake.

(** ** Invariants of the event loop

    A property of the registry and of the cache that survives the few
    elementary updates the handlers are made of survives every handler,
    hence every event. The queue invariant and the cache invariant below are
    both instances. *)

Lemma insertSorted_Permutation x l : insertSorted x l ≡ₚ x :: l.
Proof.
  induction l as [|y l IH]; simpl; [done|]. case_match; [done|].
  rewrite IH. apply Permutation_swap.
Qed.

Lemma sort_Permutation l : sort l ≡ₚ l.
Proof.
  induction l as [|x l IH]; simpl; [done|].
  rewrite insertSorted_Permutation. by rewrite IH.
Qed.

Lemma removeFirst_sublist x l : sublist (removeFirst x l) l.
Proof.
  induction l as [|y l IH]; simpl; [done|]. case_decide.
  - by apply sublist_cons.
  - by apply sublist_skip.
Qed.

Section Preservation.
Context {U : Unicode}.
Variable P : State → Prop.
Hypothesis HP : Stable P.

Lemma P_ext s s' :
  rooms s' = rooms s → localCache s' = localCache s → P s → P s'.
Proof. apply (stable_ext P HP). Qed.
Lemma P_shrink roomId f s :
  (∀ r, rooms s !! roomId = Some r →
        sublist (validationQueue (f r)) (validationQueue r)) →
  P s → P (modRoom roomId f s).
Proof. apply (stable_shrink P HP). Qed.
Lemma P_delete roomId s : P s → P (set_rooms (delete roomId) s).
Proof. apply (stable_delete P HP). Qed.
Lemma P_new roomId s : P s → P (set_rooms <[roomId := newRoom roomId]> s).
Proof. apply (stable_new P HP). Qed.

Lemma P_emit e s : P s → P (emit e s).
Proof. by apply P_ext. Qed.
Lemma P_set_timers f s : P s → P (set_timers f s).
Proof. by apply P_ext. Qed.
Lemma P_set_nextTimer n s : P s → P (set_nextTimer n s).
Proof. by apply P_ext. Qed.
Lemma P_set_sockets f s : P s → P (set_sockets f s).
Proof. by apply P_ext. Qed.
Lemma P_set_reconnectTimeouts f s : P s → P (set_reconnectTimeouts f s).
Proof. by apply P_ext. Qed.
Lemma P_set_choiceTimeouts f s : P s → P (set_choiceTimeouts f s).
Proof. by apply P_ext. Qed.
Lemma P_set_now t s : P s → P (set_now t s).
Proof. by apply P_ext. Qed.
Lemma P_setTimeout a d s : P s → P (setTimeout a d s).
Proof. by apply P_ext. Qed.
Lemma P_clearTimeout h s : P s → P (clearTimeout h s).
Proof. destruct h; by apply P_ext. Qed.
Lemma P_clearTimeouts l s : P s → P (clearTimeouts l s).
Proof.
  intros H. induction l as [|t l IH]; simpl; [done|]. by apply P_set_timers.
Qed.
Lemma P_setSocket sid roomId nick s : P s → P (setSocket sid roomId nick s).
Proof. by apply P_ext. Qed.

Lemma P_modRoom_same roomId f s :
  (∀ r, validationQueue (f r) = validationQueue r) → P s → P (modRoom roomId f s).
Proof. intros E. apply P_shrink. intros r _. by rewrite E. Qed.

Lemma P_modPlayer roomId nick f s : P s → P (modPlayer roomId nick f s).
Proof. by apply P_modRoom_same. Qed.
Lemma P_modVote roomId f s : P s → P (modVote roomId f s).
Proof. by apply P_modRoom_same. Qed.

Create HintDb pres discriminated.
Hint Resolve P_emit P_set_timers P_set_nextTimer P_set_sockets
  P_set_reconnectTimeouts P_set_choiceTimeouts P_set_now P_setTimeout
  P_clearTimeout P_clearTimeouts P_setSocket P_modPlayer P_modVote
  P_delete P_new : pres.
Hint Extern 2 (P (modRoom _ _ _)) =>
  (apply P_modRoom_same; [by intros|]) : pres.
Hint Extern 3 (P (modRoom _ _ _)) =>
  (apply P_shrink; [intros ? ?; simpl; solve [apply sublist_nil_l | apply sublist_tail]|]) : pres.

Ltac pres := lazy beta zeta; repeat case_match; lazy beta zeta; eauto 30 with pres.

Lemma P_broadcastRoomList s : P s → P (broadcastRoomList s).
Proof. intros. unfold broadcastRoomList. pres. Qed.
Lemma P_broadcastGameState roomId s : P s → P (broadcastGameState roomId s).
Proof. intros. unfold broadcastGameState. pres. Qed.
Lemma P_sendPrivateMessage sid c s : P s → P (sendPrivateMessage sid c s).
Proof. intros. unfold sendPrivateMessage. pres. Qed.
Lemma P_broadcastMessage roomId c s : P s → P (broadcastMessage roomId c s).
Proof. intros. unfold broadcastMessage. pres. Qed.
Hint Resolve P_broadcastRoomList P_broadcastGameState P_sendPrivateMessage
  P_broadcastMessage : pres.

Lemma P_removePlayerFromRoom roomId nick s :
  P s → P (removePlayerFromRoom roomId nick s).2.
Proof. intros. unfold removePlayerFromRoom. pres. Qed.
Hint Resolve P_removePlayerFromRoom : pres.

Lemma P_startNewRound roomId c who s : P s → P (startNewRound roomId c who s).
Proof. intros. unfold startNewRound. pres. Qed.
Hint Resolve P_startNewRound : pres.

Lemma P_handleCorrectAnswer_ resume roomId sub s :
  (∀ r s, P s → P (resume r s)) →
  P s → P (handleCorrectAnswer_ resume roomId sub s).
Proof. intros Hr ?. unfold handleCorrectAnswer_. pres. Qed.

Lemma P_startPlayerVote roomId sub s : P s → P (startPlayerVote roomId sub s).
Proof.
  intros H. unfold startPlayerVote. case_match; [|done].
  apply P_broadcastGameState, P_modRoom_same; [done|].
  match goal with |- P (foldl ?f ?a ?l).2 =>
    assert (G : ∀ acc, P acc.2 → P (foldl f acc l).2); [|by apply G] end.
  induction (nickname <$> _) as [|x l IH]; intros acc Hacc; simpl; [done|].
  apply IH. simpl. by apply P_setTimeout.
Qed.
Hint Resolve P_startPlayerVote : pres.

Lemma P_processValidationQueue_ resume roomId s :
  (∀ r s, P s → P (resume r s)) →
  P s → P (processValidationQueue_ resume roomId s).
Proof.
  intros Hr ?. unfold processValidationQueue_. pres.
  apply P_handleCorrectAnswer_; [done|]. pres.
Qed.

Lemma P_processValidationQueue roomId s :
  P s → P (processValidationQueue roomId s).
Proof.
  intros. unfold processValidationQueue.
  apply P_processValidationQueue_; [|done].
  intros. by apply P_processValidationQueue_.
Qed.
Hint Resolve P_processValidationQueue : pres.

Lemma P_handleCorrectAnswer roomId sub s :
  P s → P (handleCorrectAnswer roomId sub s).
Proof.
  intros. apply P_handleCorrectAnswer_; [|done].
  intros. by apply P_processValidationQueue.
Qed.
Hint Resolve P_handleCorrectAnswer : pres.

Lemma P_addToCache key s : P s → P (addToCache key s).
Proof.
  intros H. unfold addToCache, contains. case_bool_decide as Hin; [done|].
  apply (stable_cache P HP); [|done]. intros Hnd. apply NoDup_app.
  split; [done|]. split; [|apply NoDup_singleton].
  intros x Hx ->%list_elem_of_singleton. done.
Qed.
Hint Resolve P_addToCache : pres.

Lemma P_handleVoteEnd roomId s : P s → P (handleVoteEnd roomId s).
Proof. intros. unfold handleVoteEnd. pres. Qed.
Hint Resolve P_handleVoteEnd : pres.

Lemma P_endVoteIfComplete roomId s : P s → P (endVoteIfComplete roomId s).
Proof. intros. unfold endVoteIfComplete. pres. Qed.
Hint Resolve P_endVoteIfComplete : pres.

Lemma P_handleVoteTimeout roomId nick s : P s → P (handleVoteTimeout roomId nick s).
Proof. intros. unfold handleVoteTimeout. pres. Qed.

Lemma P_handlePlayerVote sid roomId vote s :
  P s → P (handlePlayerVote sid roomId vote s).
Proof. intros. unfold handlePlayerVote. pres. Qed.

Lemma P_handleCharChoice sid roomId c s : P s → P (handleCharChoice sid roomId c s).
Proof. intros. unfold handleCharChoice. pres. Qed.

Lemma P_choiceWindowExpired roomId ans s :
  P s → P (choiceWindowExpired roomId ans s).
Proof. intros. unfold choiceWindowExpired. pres. Qed.

Lemma P_reconnectGraceExpired roomId nick s :
  P s → P (reconnectGraceExpired roomId nick s).
Proof. intros. unfold reconnectGraceExpired. pres. Qed.

Lemma P_reconnectPlayer sid roomId nick s :
  P s → P (reconnectPlayer sid roomId nick s).
Proof. intros. unfold reconnectPlayer. pres. Qed.
Hint Resolve P_reconnectPlayer : pres.

Lemma P_joinRoom sid roomId nick s : P s → P (joinRoom sid roomId nick s).
Proof. intros. unfold joinRoom. pres. Qed.
Hint Resolve P_joinRoom : pres.

Lemma P_disconnectTail roomId room player s :
  P s → P (disconnectTail roomId room player s).
Proof. intros. unfold disconnectTail. pres. Qed.
Hint Resolve P_disconnectTail : pres.

Lemma P_handlePlayerDisconnect sid graceful s :
  P s → P (handlePlayerDisconnect sid graceful s).
Proof. intros. unfold handlePlayerDisconnect. pres. Qed.

Lemma P_handlePlayerInput sid roomId ans s :
  P s → P (handlePlayerInput sid roomId ans s).
Proof.
  intros. unfold handlePlayerInput. pres.
  apply P_processValidationQueue, P_broadcastGameState.
  match goal with
  | |- P (modRoom _ (λ r, setRoom_validationQueue (_ ++ [?q]) r) _) =>
      eapply (stable_push P HP _ q); [eassumption| |done]
  end.
  simpl. by eapply bool_decide_eq_false_1.
Qed.

Lemma P_withdrawAnswer sid s : P s → P (withdrawAnswer sid s).
Proof.
  intros H. unfold withdrawAnswer.
  assert (Hf : ∀ roomId room nick,
    rooms s !! roomId = Some room →
    P (modRoom roomId
         (setRoom_validationQueue
            (filter (λ q, sub_nickname q ≠ nick) (validationQueue room))) s)).
  { intros roomId room nick Hr. apply P_shrink; [|done].
    intros r. rewrite Hr. intros [= <-]. simpl. apply sublist_filter. }
  pres.
Qed.

Lemma P_createRoom sid roomName random nick s :
  P s → P (createRoom sid roomName random nick s).
Proof. intros. unfold createRoom. pres. Qed.

Lemma P_adminTogglePermanent roomId s : P s → P (adminTogglePermanent roomId s).
Proof. intros. unfold adminTogglePermanent. pres. Qed.

Lemma P_adminDeleteRoom roomId s : P s → P (adminDeleteRoom roomId s).
Proof. intros. unfold adminDeleteRoom. pres. Qed.

Lemma P_adminCacheAdd sentence s : P s → P (adminCacheAdd sentence s).
Proof.
  intros H. unfold adminCacheAdd, contains. case_match; [|done].
  apply (stable_cache P HP); [|done]. intros Hnd.
  rewrite sort_Permutation. apply NoDup_app.
  split; [done|]. split; [|apply NoDup_singleton].
  intros x Hx ->%list_elem_of_singleton.
  match goal with
  | H : _ && negb (bool_decide _) = true |- _ =>
      apply andb_prop in H as [_ H]; apply negb_true_iff in H;
      by eapply bool_decide_eq_false_1 in H
  end.
Qed.

Lemma P_adminCacheDelete sentence s : P s → P (adminCacheDelete sentence s).
Proof.
  intros H. unfold adminCacheDelete. case_match; [|done].
  apply (stable_cache P HP); [|done].
  intros Hnd. eapply sublist_NoDup; [done|apply removeFirst_sublist].
Qed.

Lemma P_adminKickPlayer roomId nick s : P s → P (adminKickPlayer roomId nick s).
Proof. intros. unfold adminKickPlayer. pres. Qed.

Lemma P_runTimer a s : P s → P (runTimer a s).
Proof.
  intros. destruct a; simpl;
    auto using P_handleVoteTimeout, P_choiceWindowExpired, P_reconnectGraceExpired.
Qed.

(** Every event preserves a stable property. *)
Lemma P_step e s : P s → P (step e s).
Proof.
  intros H. destruct e; simpl; unfold onSocket, withRoomId;
    repeat case_match;
    eauto using P_createRoom, P_joinRoom, P_reconnectPlayer,
      P_handlePlayerDisconnect, P_handlePlayerInput, P_withdrawAnswer,
      P_handlePlayerVote, P_handleCharChoice, P_adminTogglePermanent,
      P_adminDeleteRoom, P_adminCacheAdd, P_adminCacheDelete,
      P_adminKickPlayer, P_runTimer, P_set_sockets, P_emit, P_set_timers,
      P_set_now.
Qed.

Lemma P_reachable s : P initial → reachable s → P s.
Proof. intros H0. induction 1; [done|]. by apply P_step. Qed.
End Preservation.

(** *** The two instances *)

Lemma QueueInv_stable : Stable QueueInv.
Proof.
  split; unfold QueueInv, queueNicknames.
  - intros s s' -> _. done.
  - intros roomId f s Hf H k r. unfold modRoom; simpl.
    rewrite lookup_alter. case_decide as E; [subst k|by apply H].
    destruct (rooms s !! roomId) as [r0|] eqn:E0; [|done]. intros [= <-].
    eapply sublist_NoDup; [by eapply H|]. by apply fmap_sublist, Hf.
  - intros roomId sub s room Hr Hnew H k r. unfold modRoom; simpl.
    rewrite lookup_alter. case_decide as E; [subst k|by apply H].
    rewrite Hr. intros [= <-]. simpl. rewrite fmap_app. apply NoDup_app.
    split; [by eapply H|]. split; [|apply NoDup_singleton].
    intros x Hx ->%list_elem_of_singleton. apply Hnew.
    apply list_elem_of_fmap in Hx as (q & Hq & Hin).
    apply Exists_exists. by exists q.
  - intros roomId s H k r. simpl. rewrite lookup_delete_Some. intros [_ ?]. eauto.
  - intros roomId s H k r. simpl. rewrite lookup_insert_Some.
    intros [[_ <-]|[_ ?]]; [apply NoDup_nil_2|eauto].
  - done.
Qed.

Lemma CacheInv_stable : Stable CacheInv.
Proof.
  split; unfold CacheInv; simpl; try done.
  - by intros s s' _ ->.
Qed.

Section Invariants.
Context {U : Unicode}.

Lemma reachable_run es s : reachable s → reachable (run es s).
Proof.
  revert s. induction es as [|e es IH]; intros s H; simpl; [done|].
  apply IH. by constructor.
Qed.

(** C8. In every state the server can reach from start-up, no room's
    validation queue holds two entries with the same nickname; and every
    single event keeps it that way from any state in which it holds. *)
Theorem queue_one_entry_per_nickname :
  (∀ s, reachable s →
     ∀ roomId r, rooms s !! roomId = Some r →
       NoDup (sub_nickname <$> validationQueue r))
  ∧ (∀ e s, QueueInv s → QueueInv (step e s)).
Proof.
  split.
  - intros s H. apply (P_reachable QueueInv QueueInv_stable); [|done].
    intros roomId r. simpl. by rewrite lookup_empty.
  - intros e s. apply P_step, QueueInv_stable.
Qed.

(** C10. The approved-sentence cache never holds two equal entries: it is
    duplicate-free in every reachable state, and every single event keeps
    a duplicate-free cache duplicate-free. *)
Theorem cache_has_no_duplicates :
  (∀ s, reachable s → NoDup (localCache s))
  ∧ (∀ e s, NoDup (localCache s) → NoDup (localCache (step e s))).
Proof.
  split.
  - intros s H. apply (P_reachable CacheInv CacheInv_stable); [|done].
    apply NoDup_nil_2.
  - intros e s. apply (P_step CacheInv CacheInv_stable).
Qed.
End Invariants.

(** ** Votes and choice sessions *)

Section Exclusion.
Context {U : Unicode}.
Variable rid : jsstring.

#[local] Arguments broadcastGameState : simpl never.
#[local] Arguments broadcastMessage : simpl never.
#[local] Arguments broadcastRoomList : simpl never.
#[local] Arguments removePlayerFromRoom : simpl never.
#[local] Arguments startPlayerVote : simpl never.
#[local] Arguments startNewRound : simpl never.
#[local] Arguments reconnectPlayer : simpl never.
#[local] Arguments joinRoom : simpl never.
#[local] Arguments clearTimeout : simpl never.
#[local] Arguments clearTimeouts : simpl never.
#[local] Arguments addToCache : simpl never.

Lemma choiceTimeouts_broadcastRoomList s :
  choiceTimeouts (broadcastRoomList s) = choiceTimeouts s.
Proof. done. Qed.

Lemma choiceTimeouts_clearTimeout h s :
  choiceTimeouts (clearTimeout h s) = choiceTimeouts s.
Proof. by destruct h. Qed.

Lemma choiceTimeouts_removePlayerFromRoom roomId nick s :
  choiceTimeouts (removePlayerFromRoom roomId nick s).2 = choiceTimeouts s.
Proof. unfold removePlayerFromRoom. by repeat case_match. Qed.

Lemma choiceTimeouts_startPlayerVote roomId sub s :
  choiceTimeouts (startPlayerVote roomId sub s) = choiceTimeouts s.
Proof.
  unfold startPlayerVote. case_match; [|done].
  rewrite choiceTimeouts_broadcastGameState. simpl.
  match goal with |- choiceTimeouts (foldl ?f ?a ?l).2 = _ =>
    assert (G : ∀ acc, choiceTimeouts (foldl f acc l).2 = choiceTimeouts acc.2);
      [|by rewrite G] end.
  induction (nickname <$> _) as [|x l IH]; intros acc; simpl; [done|].
  by rewrite IH.
Qed.

Create Rewrite HintDb choice.
Hint Rewrite choiceTimeouts_broadcastMessage choiceTimeouts_broadcastGameState
  choiceTimeouts_broadcastRoomList
  choiceTimeouts_clearTimeouts choiceTimeouts_clearTimeout
  choiceTimeouts_removePlayerFromRoom choiceTimeouts_startPlayerVote : choice.

Ltac frame :=
  unfold noChoice in *; lazy beta zeta;
  repeat (progress (autorewrite with choice; simpl)); try done.

Lemma choiceTimeouts_startNewRound roomId c who s :
  choiceTimeouts (startNewRound roomId c who s) = choiceTimeouts s.
Proof. unfold startNewRound. case_match; frame. Qed.

Lemma choiceTimeouts_reconnectPlayer sid roomId nick s :
  choiceTimeouts (reconnectPlayer sid roomId nick s) = choiceTimeouts s.
Proof. unfold reconnectPlayer. repeat case_match; frame. Qed.

Lemma choiceTimeouts_joinRoom sid roomId nick s :
  choiceTimeouts (joinRoom sid roomId nick s) = choiceTimeouts s.
Proof.
  unfold joinRoom. repeat case_match; frame;
    by rewrite ?choiceTimeouts_reconnectPlayer.
Qed.

Hint Rewrite choiceTimeouts_startNewRound choiceTimeouts_reconnectPlayer
  choiceTimeouts_joinRoom : choice.

(** *** The vote of a room under the elementary updates *)


















End Exclusion.

(** ** Destroying a room *)

Section Destruction.
Context {U : Unicode}.

Lemma timers_broadcastRoomList s : timers (broadcastRoomList s) = timers s.
Proof. done. Qed.

Lemma broadcastMessage_absent roomId c s :
  rooms s !! roomId = None → broadcastMessage roomId c s = s.
Proof. intros H. unfold broadcastMessage. by rewrite H. Qed.

Lemma startNewRound_absent roomId c who s :
  rooms s !! roomId = None → startNewRound roomId c who s = s.
Proof. intros H. unfold startNewRound. by rewrite H. Qed.

Lemma timers_broadcastMessage roomId c s :
  timers (broadcastMessage roomId c s) = timers s.
Proof. unfold broadcastMessage. by case_match. Qed.

Lemma timers_broadcastGameState roomId s :
  timers (broadcastGameState roomId s) = timers s.
Proof. unfold broadcastGameState. by case_match. Qed.

Lemma handleVoteEnd_absent roomId s :
  rooms s !! roomId = None → handleVoteEnd roomId s = s.
Proof. intros H. unfold handleVoteEnd. by rewrite H. Qed.

Lemma modVote_absent roomId f s :
  rooms s !! roomId = None → modVote roomId f s = s.
Proof.
  intros H. unfold modVote, modRoom, set_rooms.
  rewrite (alter_absent _ _ _ H). by destruct s.
Qed.

(** The tail of [handlePlayerDisconnect] once the room is gone: the only
    timer it can cancel is the vote countdown of the player who left, and
    it does cancel it when that player is a voter with no vote on
    record. *)
Lemma disconnectTail_gone roomId room player s1 :
  rooms s1 !! roomId = None →
  let s' := disconnectTail roomId room player s1 in
  rooms s' = rooms s1
  ∧ (∀ t, (∀ v, currentVote room = Some v →
                timeouts v !! nickname player ≠ Some t) →
          timers s' !! t = timers s1 !! t)
  ∧ (∀ v t, currentVote room = Some v →
            nickname player ∈ voters v →
            notVoted v (nickname player) = true →
            timeouts v !! nickname player = Some t →
            timers s' !! t = None).
Proof.
  intros Hgone s'. subst s'. unfold disconnectTail.
  destruct (currentVote room) as [v|] eqn:Hv.
  - destruct (contains (voters v) (nickname player)
              && notVoted v (nickname player)) eqn:Hopen.
    + set (h := timeouts v !! nickname player).
      assert (Hc : rooms (clearTimeout h s1) !! roomId = None)
        by (by rewrite rooms_clearTimeout).
      rewrite !(modVote_absent _ _ _ Hc), (broadcastMessage_absent _ _ _ Hc).
      rewrite (handleVoteEnd_absent _ _ Hc).
      assert (E : ∀ b : bool,
        (if b then clearTimeout h s1 else clearTimeout h s1) = clearTimeout h s1)
        by (by intros []).
      rewrite E, Hc. split; [by destruct h|]. split.
      * intros t Ht. rewrite timers_broadcastRoomList.
        specialize (Ht v eq_refl). fold h in Ht.
        destruct h as [t'|]; simpl; [|done]. apply lookup_delete_ne. congruence.
      * intros v' t [= <-] _ _ Ht. rewrite timers_broadcastRoomList.
        subst h. rewrite Ht. simpl. apply lookup_delete_eq.
    + rewrite Hgone. split; [done|]. split; [done|].
      intros v' t [= <-] Hin Hnot _. exfalso.
      unfold contains in Hopen. rewrite (bool_decide_eq_true_2 _ Hin), Hnot in Hopen.
      discriminate.
  - rewrite Hgone. split; [done|]. split; [done|]. intros v' t [=].
Qed.

(** C6, amended. Destroying a room does not cancel its timers. The admin's
    delete cancels none, and neither does any removal of a record by
    [removePlayerFromRoom], by the admin's kick or at the end of a grace
    period. When the last player leaves a room that is not permanent, the
    room is removed and the only timer that can be cancelled is the vote
    countdown of that player, which is cancelled when a vote is open in
    which that player (the nickname not being the name of an inherited
    member) is a voter with no vote on record: every other pending timer
    stays pending.
    Each callback starts with a guard: one that fires while no room is
    registered under its room id (an id that is not the name of an
    inherited member) changes nothing, except that the choice callback
    drops the stale [choiceTimeouts] entry of that room. *)
Theorem destroyed_room_timers_stay_pending :
  (∀ roomId s, timers (adminDeleteRoom roomId s) = timers s)
  ∧ (∀ roomId nick s, timers (removePlayerFromRoom roomId nick s).2 = timers s)
  ∧ (∀ roomId nick s, timers (adminKickPlayer roomId nick s) = timers s)
  ∧ (∀ roomId nick s, timers (reconnectGraceExpired roomId nick s) = timers s)
  ∧ (∀ sid roomId nick s room p,
       sockets s !! sid = Some (mkSocket (Some roomId) (Some nick)) →
       roomId ≠ [] → nick ≠ [] →
       rooms s !! roomId = Some room →
       players room = {[nick := p]} →
       isPermanent room = false →
       let s' := handlePlayerDisconnect sid true s in
       rooms s' !! roomId = None
       ∧ (∀ t, (∀ v, currentVote room = Some v →
                     timeouts v !! nickname p ≠ Some t) →
               timers s' !! t = timers s !! t)
       ∧ (inherited (nickname p) = false →
          ∀ v t, currentVote room = Some v →
                 nickname p ∈ voters v →
                 notVoted v (nickname p) = true →
                 timeouts v !! nickname p = Some t →
                 timers s' !! t = None))
  ∧ (∀ a s, rooms s !! timerRoom a = None → inherited (timerRoom a) = false →
       runTimer a s = s
       ∨ (∃ ans, a = ChoiceWindow (timerRoom a) ans)
         ∧ runTimer a s = set_choiceTimeouts (delete (timerRoom a)) s).
Proof.
  assert (Hremove : ∀ roomId nick s,
    timers (removePlayerFromRoom roomId nick s).2 = timers s).
  { intros roomId nick s. unfold removePlayerFromRoom. by repeat case_match. }
  split; [|split; [exact Hremove|split; [|split; [|split]]]].
  - intros roomId s. unfold adminDeleteRoom. case_match; [|done].
    by rewrite timers_broadcastRoomList.
  - intros roomId nick s. unfold adminKickPlayer. case_match; [|done].
    rewrite timers_broadcastRoomList, timers_broadcastGameState. lazy beta.
    rewrite Hremove. by case_match.
  - intros roomId nick s. unfold reconnectGraceExpired.
    case_match; [|done]. case_match; [done|].
    rewrite timers_broadcastRoomList. lazy zeta.
    case_match; [by rewrite Hremove|].
    by rewrite timers_broadcastGameState, timers_broadcastMessage, Hremove.
  - intros sid roomId nick s room p Hs Hrid Hn Hr Hp Hperm s'. subst s'.
    unfold handlePlayerDisconnect. rewrite Hs.
    destruct roomId as [|r0 roomId]; [done|]. destruct nick as [|c0 nick]; [done|].
    simpl negb. simpl orb. cbv iota. rewrite Hr, Hp, lookup_singleton_eq, Hperm.
    lazy zeta. cbv iota.
    set (s0 := broadcastMessage (r0 :: roomId) (MsgLeft (nickname p)) s).
    assert (H0 : rooms s0 !! (r0 :: roomId)
                 = Some (logMessage (mkMessage (MsgLeft (nickname p)) GameMessage (now s))
                           room)).
    { subst s0. by rewrite rooms_broadcastMessage, lookup_alter_eq, Hr. }
    assert (Ht0 : timers s0 = timers s) by (subst s0; apply timers_broadcastMessage).
    clearbody s0.
    set (s1 := (removePlayerFromRoom (r0 :: roomId) (c0 :: nick) s0).2).
    assert (H1 : rooms s1 !! (r0 :: roomId) = None).
    { subst s1. unfold removePlayerFromRoom. rewrite H0.
      cbn [players isPermanent logMessage setRoom_messages].
      rewrite Hp, lookup_singleton_eq, delete_singleton_eq, Hperm. lazy zeta.
      rewrite bool_decide_eq_true_2 by apply map_size_empty. simpl.
      apply lookup_delete_eq. }
    assert (Ht1 : timers s1 = timers s) by (subst s1; by rewrite Hremove).
    clearbody s1.
    destruct (disconnectTail_gone (r0 :: roomId) room p s1 H1) as (G1 & G2 & G3).
    split; [by rewrite G1|]. split; [|intros _; exact G3].
    intros t Ht. rewrite (G2 t Ht). by rewrite Ht1.
  - intros [roomId nick|roomId ans|roomId nick] s H _; simpl in *.
    + left. unfold handleVoteTimeout. rewrite H. done.
    + unfold choiceWindowExpired. destruct (choiceTimeouts s !! roomId); [|by left].
      right. split; [by eexists|].
      rewrite startNewRound_absent; rewrite broadcastMessage_absent; done.
    + left. unfold reconnectGraceExpired. rewrite H. done.
Qed.
End Destruction.

(** ** Joining under a nickname that differs in case *)

Section Joining.
Context {U : Unicode}.

Lemma rooms_broadcastRoomList s : rooms (broadcastRoomList s) = rooms s.
Proof. done. Qed.

(** C9, amended. A join request with a nickname of 1 to 10 code units
    that is not the name of an inherited member, under which the room
    stores no record, which no online player holds case-insensitively, and
    which differs only in letter case from the nickname of an offline
    record, is not routed to [reconnectPlayer]: a
    new record with score 0, online, bound to the joining socket, is
    stored under the requested nickname, the welcome message is logged,
    and every other record, the offline one included, is left as it
    was. *)
Theorem joinRoom_case_variant sid roomId nick s room old p :
  rooms s !! roomId = Some room →
  (1 ≤ length nick ≤ 10)%nat →
  players room !! old = Some p →
  online p = false →
  old ≠ nick →
  toLowerCase old = toLowerCase nick →
  isTakenOnline room nick = false →
  players room !! nick = None →
  inherited nick = false →
  let s' := joinRoom sid roomId nick s in
  let fresh := {| nickname := nick; score := 0; online := true;
                  socketId := sid; disconnectTime := None |} in
  rooms s'
  = <[roomId := logMessage (mkMessage (MsgWelcome nick) GameMessage (now s))
                  (setRoom_players <[nick := fresh]> room)]> (rooms s)
  ∧ (∃ room', rooms s' !! roomId = Some room'
       ∧ players room' !! nick = Some fresh
       ∧ players room' !! old = Some p
       ∧ ∀ k, k ≠ nick → players room' !! k = players room !! k)
  ∧ ToSocket sid (JoinSuccess roomId (room_name room)) ∈ outbox s'.
Proof.
  intros Hroom [Hlo Hhi] Hold Hoff Hne Hcase Htaken Hnone _ s' fresh. subst s'.
  unfold joinRoom. rewrite Hroom, Htaken, Hnone.
  destruct nick as [|c nick]; [simpl in Hlo; lia|]. simpl truthy. simpl negb.
  rewrite !bool_decide_eq_false_2 by lia. simpl orb. cbv iota.
  assert (Hrooms : ∀ s0,
    rooms s0 = rooms (broadcastMessage roomId (MsgWelcome (c :: nick))
        (emit (ToSocket sid (JoinSuccess roomId (room_name room)))
          (modRoom roomId (setRoom_players <[c :: nick := fresh]>)
            (setSocket sid roomId (c :: nick) s)))) →
    rooms (broadcastRoomList (broadcastGameState roomId s0))
    = <[roomId := logMessage (mkMessage (MsgWelcome (c :: nick)) GameMessage (now s))
                    (setRoom_players <[c :: nick := fresh]> room)]> (rooms s)).
  { intros s0 E. rewrite rooms_broadcastRoomList, rooms_broadcastGameState, E.
    rewrite rooms_broadcastMessage. simpl. rewrite alter_alter_eq.
    by rewrite (alter_present _ _ _ _ Hroom). }
  assert (Hout : ∀ s0 : State,
    ToSocket sid (JoinSuccess roomId (room_name room)) ∈ outbox s0 →
    ToSocket sid (JoinSuccess roomId (room_name room))
      ∈ outbox (broadcastRoomList (broadcastGameState roomId s0))).
  { intros s0 H0. unfold broadcastRoomList, broadcastGameState.
    case_match; simpl; rewrite !elem_of_app; tauto. }
  assert (Hmsg :
    ToSocket sid (JoinSuccess roomId (room_name room))
      ∈ outbox (broadcastMessage roomId (MsgWelcome (c :: nick))
        (emit (ToSocket sid (JoinSuccess roomId (room_name room)))
          (modRoom roomId (setRoom_players <[c :: nick := fresh]>)
            (setSocket sid roomId (c :: nick) s))))).
  { unfold broadcastMessage. case_match; simpl; rewrite !elem_of_app;
      rewrite ?list_elem_of_singleton; tauto. }
  destruct (currentVote room) eqn:Ev; lazy beta.
  all: rewrite Hrooms by done.
  all: split; [done|]; split; [|apply Hout; simpl; rewrite ?elem_of_app; tauto].
  all: eexists; (split; [apply lookup_insert_eq|]); simpl.
  all: split; [apply lookup_insert_eq|].
  all: split; [by rewrite lookup_insert_ne|].
  all: intros k Hk; by rewrite lookup_insert_ne.
Qed.
End Joining.

(** ** Disconnecting and reconnecting *)

Section Presence.
Context {U : Unicode}.

#[local] Arguments broadcastGameState : simpl never.
#[local] Arguments broadcastMessage : simpl never.

Lemma sockets_broadcastGameState roomId s :
  sockets (broadcastGameState roomId s) = sockets s.
Proof. unfold broadcastGameState. by case_match. Qed.

Lemma reconnectTimeouts_broadcastGameState roomId s :
  reconnectTimeouts (broadcastGameState roomId s) = reconnectTimeouts s.
Proof. unfold broadcastGameState. by case_match. Qed.

Lemma sockets_broadcastRoomList s : sockets (broadcastRoomList s) = sockets s.
Proof. done. Qed.

Lemma reconnectTimeouts_broadcastRoomList s :
  reconnectTimeouts (broadcastRoomList s) = reconnectTimeouts s.
Proof. done. Qed.

(** An ungraceful disconnect in a permanent room stops before the vote:
    whatever the vote and whoever the player, the session and the pending
    timers are left as they were. *)
Lemma handlePlayerDisconnect_permanent_ungraceful sid roomId nick s room player :
  sockets s !! sid = Some (mkSocket (Some roomId) (Some nick)) →
  roomId ≠ [] → nick ≠ [] →
  rooms s !! roomId = Some room →
  players room !! nick = Some player →
  isPermanent room = true →
  let s' := handlePlayerDisconnect sid false s in
  voteOf roomId s' = currentVote room
  ∧ timers s' = timers s
  ∧ (rooms s' !! roomId ≫= λ r, online <$> players r !! nick) = Some false.
Proof.
  intros Hs Hr Hn Hroom Hp Hperm s'. subst s'.
  unfold handlePlayerDisconnect. rewrite Hs.
  destruct roomId as [|c0 roomId]; [done|]. destruct nick as [|c1 nick]; [done|].
  simpl negb. simpl orb. cbv iota. rewrite Hroom, Hp, Hperm.
  unfold voteOf.
  rewrite rooms_broadcastGameState, rooms_broadcastMessage,
    timers_broadcastGameState, timers_broadcastMessage.
  unfold modPlayer, modRoom; simpl.
  rewrite alter_alter_eq, lookup_alter_eq, Hroom. simpl.
  rewrite lookup_alter_eq, Hp. done.
Qed.

(** X10. On the paths that reach the tail of [handlePlayerDisconnect] (a
    graceful leave, or any disconnect in a room that is not permanent) with
    the room still registered: the vote of a voter who had not voted is
    recorded as ['valid'], the voter's countdown is cancelled, and
    [handleVoteEnd] runs as soon as the votes are as many as the voters. *)
Lemma disconnectTail_records_vote roomId room player s1 v :
  currentVote room = Some v →
  voteOf roomId s1 = Some v →
  nickname player ∈ voters v →
  notVoted v (nickname player) = true →
  let nick := nickname player in
  let v' := v ▷ setVote_timeouts (delete nick (timeouts v))
              ▷ setVote_votes (<[nick := VALID]> (votes v)) in
  ∃ recorded,
    voteOf roomId recorded = Some v'
    ∧ (∀ t, timeouts v !! nick = Some t → timers recorded !! t = None)
    ∧ disconnectTail roomId room player s1
      = (if bool_decide (length (voters v') ≤ size (votes v'))%nat
         then handleVoteEnd roomId recorded else recorded)
          ▷ (λ s2, match rooms s2 !! roomId with
                   | Some _ => broadcastGameState roomId s2
                   | None => s2
                   end)
          ▷ broadcastRoomList.
Proof.
  intros Hv H1 Hin Hnv nick v'. unfold disconnectTail.
  rewrite Hv, Hnv. unfold contains. rewrite (bool_decide_eq_true_2 _ Hin).
  simpl andb. cbv iota.
  eexists. split; [|split; [|reflexivity]].
  - unfold voteOf in *. rewrite rooms_broadcastMessage, lookup_alter_eq.
    unfold modVote, modRoom; simpl.
    rewrite alter_alter_eq, lookup_alter_eq, rooms_clearTimeout.
    destruct (rooms s1 !! roomId) as [r1|]; simpl in *; [|done].
    by rewrite H1.
  - intros t Ht. fold nick. rewrite Ht, timers_broadcastMessage. simpl.
    apply lookup_delete_eq.
Qed.

(** [reconnectPlayer] is refused unless the room holds an offline record
    under exactly that nickname; a refusal only notifies the socket. *)
Lemma reconnectPlayer_refused sid roomId nick s :
  (∀ room p, rooms s !! roomId = Some room → players room !! nick = Some p →
             online p = true) →
  ∃ reason, reconnectPlayer sid roomId nick s
            = emit (ToSocket sid (ReconnectError reason)) s.
Proof.
  intros H. unfold reconnectPlayer.
  destruct (rooms s !! roomId) as [room|] eqn:Hroom; [|by eexists].
  destruct (players room !! nick) as [p|] eqn:Hp; [|by eexists].
  rewrite (H room p eq_refl Hp). by eexists.
Qed.

(** X25. [reconnectPlayer] on an offline record: the record keeps its
    nickname and score and is online again under the new socket; no other
    record changes; the socket is bound to the room and the nickname; the
    handle registered under the nickname in [reconnectTimeouts] is
    dropped. *)
Lemma reconnectPlayer_restores sid roomId nick s room p :
  rooms s !! roomId = Some room →
  players room !! nick = Some p →
  online p = false →
  let s' := reconnectPlayer sid roomId nick s in
  let restored := {| nickname := nickname p; score := score p; online := true;
                     socketId := sid; disconnectTime := None |} in
  (∃ room', rooms s' !! roomId = Some room'
            ∧ players room' = <[nick := restored]> (players room))
  ∧ sockets s' !! sid = Some (mkSocket (Some roomId) (Some nick))
  ∧ reconnectTimeouts s' = delete nick (reconnectTimeouts s)
  ∧ ToSocket sid (JoinSuccess roomId (room_name room)) ∈ outbox s'.
Proof.
  intros Hroom Hp Hoff s' restored. subst s'.
  unfold reconnectPlayer. rewrite Hroom, Hp, Hoff.
  set (s1 := broadcastMessage roomId (MsgReconnected nick) _).
  assert (H1 : ∃ room', rooms s1 !! roomId = Some room'
                        ∧ players room' = <[nick := restored]> (players room)).
  { subst s1. rewrite rooms_broadcastMessage. simpl.
    rewrite rooms_clearTimeout. unfold modPlayer, modRoom; simpl.
    rewrite alter_alter_eq, lookup_alter_eq, Hroom. simpl.
    eexists. split; [done|]. simpl. by rewrite (alter_present _ _ _ _ Hp). }
  assert (H2 : sockets s1 !! sid = Some (mkSocket (Some roomId) (Some nick))).
  { subst s1. unfold broadcastMessage. case_match; simpl; apply lookup_insert_eq. }
  assert (H3 : reconnectTimeouts s1 = delete nick (reconnectTimeouts s)).
  { subst s1. unfold broadcastMessage.
    case_match; simpl; by destruct (reconnectTimeouts s !! nick). }
  assert (H4 : ToSocket sid (JoinSuccess roomId (room_name room)) ∈ outbox s1).
  { subst s1. unfold broadcastMessage.
    case_match; simpl; rewrite ?elem_of_app, ?list_elem_of_singleton; tauto. }
  assert (Hout : ∀ s0 : State,
    ToSocket sid (JoinSuccess roomId (room_name room)) ∈ outbox s0 →
    ToSocket sid (JoinSuccess roomId (room_name room))
      ∈ outbox (broadcastRoomList (broadcastGameState roomId s0))).
  { intros s0 H0. unfold broadcastRoomList, broadcastGameState.
    case_match; simpl; rewrite !elem_of_app; tauto. }
  clearbody s1.
  destruct H1 as (room1 & Hr1 & Hp1).
  repeat case_match; (split; [|split; [|split; [|apply Hout]]]);
    rewrite ?rooms_broadcastRoomList, ?sockets_broadcastRoomList,
      ?reconnectTimeouts_broadcastRoomList, ?rooms_broadcastGameState,
      ?sockets_broadcastGameState, ?reconnectTimeouts_broadcastGameState; simpl;
    try (destruct (timeouts _ !! nick)); simpl; try done; eauto.
  all: try (rewrite ?elem_of_app; tauto).
  all: unfold modRoom; simpl; rewrite lookup_alter_eq, Hr1; simpl; eauto.
Qed.

(** X26. [reconnectPlayer] on an offline record while a vote is running
    in which the player is a voter who has not voted: a fresh countdown of
    15000 ms from now replaces the old one; the session is otherwise
    unchanged. *)
Lemma reconnectPlayer_restarts_countdown sid roomId nick s room p v :
  rooms s !! roomId = Some room →
  players room !! nick = Some p →
  online p = false →
  currentVote room = Some v →
  nick ∈ voters v →
  notVoted v nick = true →
  let s' := reconnectPlayer sid roomId nick s in
  timers s' !! nextTimer s = Some ((now s + 15000)%Z, VoteCountdown roomId nick)
  ∧ voteOf roomId s'
    = Some (setVote_timeouts (<[nick := nextTimer s]> (timeouts v)) v).
Proof.
  intros Hroom Hp Hoff Hv Hin Hnv s'. subst s'.
  unfold reconnectPlayer. rewrite Hroom, Hp, Hoff, Hv, Hnv.
  unfold contains. rewrite (bool_decide_eq_true_2 _ Hin).
  set (s1 := broadcastMessage roomId (MsgReconnected nick) _).
  assert (Hn : nextTimer s1 = nextTimer s).
  { subst s1. unfold broadcastMessage.
    case_match; simpl; by destruct (reconnectTimeouts s !! nick). }
  assert (Hnow : now s1 = now s).
  { subst s1. unfold broadcastMessage.
    case_match; simpl; by destruct (reconnectTimeouts s !! nick). }
  assert (H1 : voteOf roomId s1 = Some v).
  { subst s1. unfold voteOf. rewrite rooms_broadcastMessage. simpl.
    rewrite rooms_clearTimeout. unfold modPlayer, modRoom; simpl.
    rewrite alter_alter_eq, lookup_alter_eq, Hroom. done. }
  clearbody s1. unfold voteOf in *.
  rewrite timers_broadcastRoomList, timers_broadcastGameState,
    rooms_broadcastRoomList, rooms_broadcastGameState.
  split.
  - destruct (timeouts v !! nick); simpl; rewrite Hn, Hnow; apply lookup_insert_eq.
  - unfold modVote, modRoom; simpl. rewrite rooms_clearTimeout, lookup_alter_eq.
    destruct (rooms s1 !! roomId) as [r1|]; simpl in *; [|done].
    rewrite H1. simpl. by rewrite Hn.
Qed.
End Presence.

(** * Further properties of the engine *)

(** ** Normalising and trimming *)

Section Text.
Context {U : Unicode}.

(** Induction that follows the code points of a string: one unit, or a
    surrogate pair, at a time. *)
Lemma codePoints_ind (P : jsstring → Prop) :
  P [] → (∀ h, P [h]) →
  (∀ h l rest, P rest → P (l :: rest) → P (h :: l :: rest)) →
  ∀ s, P s.
Proof.
  intros H0 H1 H2 s.
  enough (P s ∧ ∀ h, P (h :: s)) as [? _] by done.
  induction s as [|a s [IH1 IH2]]; [by split|].
  split; [apply IH2|]. intros h. by apply H2.
Qed.

Lemma normalizeSentence_sublist s : sublist (normalizeSentence s) s.
Proof.
  induction s as [|h|h l rest IH1 IH2] using codePoints_ind.
  - constructor.
  - simpl. destruct (illegalChar h); repeat constructor.
  - change (normalizeSentence (h :: l :: rest)) with
      (if isHighSurrogate h && isLowSurrogate l then
         if illegalChar (codePoint h l) then normalizeSentence rest
         else h :: l :: normalizeSentence rest
       else if illegalChar h then normalizeSentence (l :: rest)
            else h :: normalizeSentence (l :: rest)).
    repeat case_match; repeat (constructor; try done).
Qed.

Lemma normalizeSentence_clean s :
  illegalCharsRegex_test s = false → normalizeSentence s = s.
Proof.
  induction s as [|h|h l rest IH1 IH2] using codePoints_ind; [done|..].
  - simpl. by intros ->.
  - change (illegalCharsRegex_test (h :: l :: rest)) with
      (if isHighSurrogate h && isLowSurrogate l then
         illegalChar (codePoint h l) || illegalCharsRegex_test rest
       else illegalChar h || illegalCharsRegex_test (l :: rest)).
    change (normalizeSentence (h :: l :: rest)) with
      (if isHighSurrogate h && isLowSurrogate l then
         if illegalChar (codePoint h l) then normalizeSentence rest
         else h :: l :: normalizeSentence rest
       else if illegalChar h then normalizeSentence (l :: rest)
            else h :: normalizeSentence (l :: rest)).
    destruct (isHighSurrogate h && isLowSurrogate l).
    + intros [-> ?]%orb_false_iff. by rewrite IH1.
    + intros [-> ?]%orb_false_iff. by rewrite IH2.
Qed.

Lemma normalizeSentence_shorter s :
  illegalCharsRegex_test s = true →
  (length (normalizeSentence s) < length s)%nat.
Proof.
  induction s as [|h|h l rest IH1 IH2] using codePoints_ind; [done|..].
  - simpl. intros ->. simpl. lia.
  - change (illegalCharsRegex_test (h :: l :: rest)) with
      (if isHighSurrogate h && isLowSurrogate l then
         illegalChar (codePoint h l) || illegalCharsRegex_test rest
       else illegalChar h || illegalCharsRegex_test (l :: rest)).
    change (normalizeSentence (h :: l :: rest)) with
      (if isHighSurrogate h && isLowSurrogate l then
         if illegalChar (codePoint h l) then normalizeSentence rest
         else h :: l :: normalizeSentence rest
       else if illegalChar h then normalizeSentence (l :: rest)
            else h :: normalizeSentence (l :: rest)).
    pose proof (sublist_length _ _ (normalizeSentence_sublist rest)).
    pose proof (sublist_length _ _ (normalizeSentence_sublist (l :: rest))).
    cbn [length] in *.
    destruct (isHighSurrogate h && isLowSurrogate l).
    + destruct (illegalChar (codePoint h l)); cbn [orb length]; [lia|].
      intros ?%IH1. lia.
    + destruct (illegalChar h); cbn [orb length]; [lia|].
      intros ?%IH2. cbn [length] in *. lia.
Qed.

(** X1. Normalisation only deletes, and it is the identity exactly on the
    strings the intake check lets through. *)
Theorem normalizeSentence_only_deletes s :
  sublist (normalizeSentence s) s
  ∧ (normalizeSentence s = s ↔ illegalCharsRegex_test s = false).
Proof.
  split; [apply normalizeSentence_sublist|]. split.
  - intros Heq. destruct (illegalCharsRegex_test s) eqn:E; [|done].
    apply normalizeSentence_shorter in E. rewrite Heq in E. lia.
  - apply normalizeSentence_clean.
Qed.

Lemma dropWhile_startsClean l : startsClean (dropWhile isWhiteSpace l).
Proof.
  induction l as [|x l IH]; [done|]. simpl.
  destruct (isWhiteSpace x) eqn:E; [done|]. done.
Qed.

Lemma dropWhile_clean l : startsClean l → dropWhile isWhiteSpace l = l.
Proof. destruct l as [|x l]; [done|]. simpl. by intros ->. Qed.

Lemma dropWhile_suffix {A} (p : A → bool) l : dropWhile p l `suffix_of` l.
Proof.
  induction l as [|x l IH]; [done|]. simpl.
  destruct (p x); [by apply suffix_cons_r|done].
Qed.

Lemma trim_startsClean s : startsClean (trim s).
Proof.
  unfold trim.
  set (a := dropWhile isWhiteSpace s).
  pose proof (dropWhile_startsClean s) as Ha. fold a in Ha.
  destruct (dropWhile_suffix isWhiteSpace (reverse a)) as [pre Hpre].
  set (b := dropWhile isWhiteSpace (reverse a)) in *.
  destruct b as [|y b _] using rev_ind; [done|].
  rewrite reverse_snoc. simpl.
  rewrite app_assoc in Hpre.
  apply (f_equal reverse) in Hpre.
  rewrite reverse_involutive, reverse_snoc in Hpre.
  rewrite Hpre in Ha. exact Ha.
Qed.

Lemma trim_endsClean s : startsClean (reverse (trim s)).
Proof.
  unfold trim. rewrite reverse_involutive. apply dropWhile_startsClean.
Qed.

Lemma trim_idempotent s : trim (trim s) = trim s.
Proof.
  pose proof (trim_startsClean s) as H1.
  pose proof (trim_endsClean s) as H2.
  unfold trim at 1.
  rewrite (dropWhile_clean (trim s)) by done.
  rewrite (dropWhile_clean (reverse (trim s))) by done.
  apply reverse_involutive.
Qed.

(** X2. The intake trims before anything else: white space around an answer
    never makes a difference. *)
Theorem handlePlayerInput_ignores_outer_space sid roomId ans s :
  handlePlayerInput sid roomId (trim ans) s = handlePlayerInput sid roomId ans s.
Proof. unfold handlePlayerInput. by rewrite trim_idempotent. Qed.

End Text.

(** ** Properties that survive every game event

    A property of the registry that survives the elementary updates of a
    room, the creation of a room and the removal of a room that is not
    permanent survives every handler of the game. The invariants of a room
    below and the permanence of rooms are instances. *)

Section Evolution.
Context {U : Unicode}.
Variable P : State → Prop.
Hypothesis HP : Evolving P.

Lemma E_ext s s' : rooms s' = rooms s → P s → P s'.
Proof. apply (evolving_ext P HP). Qed.
Lemma E_mod roomId f s :
  (∀ r, rooms s !! roomId = Some r → update r (f r)) →
  P s → P (modRoom roomId f s).
Proof. apply (evolving_mod P HP). Qed.
Lemma E_drop roomId s :
  (∀ r, rooms s !! roomId = Some r → isPermanent r = false) →
  P s → P (set_rooms (delete roomId) s).
Proof. apply (evolving_drop P HP). Qed.
Lemma E_new roomId s :
  rooms s !! roomId = None → P s → P (set_rooms <[roomId := newRoom roomId]> s).
Proof. apply (evolving_new P HP). Qed.

Lemma E_emit e s : P s → P (emit e s).
Proof. by apply E_ext. Qed.
Lemma E_set_timers f s : P s → P (set_timers f s).
Proof. by apply E_ext. Qed.
Lemma E_set_nextTimer n s : P s → P (set_nextTimer n s).
Proof. by apply E_ext. Qed.
Lemma E_set_sockets f s : P s → P (set_sockets f s).
Proof. by apply E_ext. Qed.
Lemma E_set_reconnectTimeouts f s : P s → P (set_reconnectTimeouts f s).
Proof. by apply E_ext. Qed.
Lemma E_set_choiceTimeouts f s : P s → P (set_choiceTimeouts f s).
Proof. by apply E_ext. Qed.
Lemma E_set_localCache l s : P s → P (set_localCache l s).
Proof. by apply E_ext. Qed.
Lemma E_set_now t s : P s → P (set_now t s).
Proof. by apply E_ext. Qed.
Lemma E_setTimeout a d s : P s → P (setTimeout a d s).
Proof. by apply E_ext. Qed.
Lemma E_clearTimeout h s : P s → P (clearTimeout h s).
Proof. destruct h; by apply E_ext. Qed.
Lemma E_clearTimeouts l s : P s → P (clearTimeouts l s).
Proof.
  intros H. induction l as [|t l IH]; simpl; [done|]. by apply E_set_timers.
Qed.
Lemma E_setSocket sid roomId nick s : P s → P (setSocket sid roomId nick s).
Proof. by apply E_ext. Qed.

Lemma E_modVote roomId f s :
  (∀ v, submission (f v) = submission v ∧ voters (f v) = voters v) →
  P s → P (modVote roomId f s).
Proof.
  intros Hf. apply E_mod. intros r _. by apply (update_vote_map f).
Qed.

Create HintDb evol discriminated.
Hint Resolve E_emit E_set_timers E_set_nextTimer E_set_sockets
  E_set_reconnectTimeouts E_set_choiceTimeouts E_set_localCache E_set_now
  E_setTimeout E_clearTimeout E_clearTimeouts E_setSocket : evol.
Hint Extern 2 (P (modVote _ _ _)) => (apply E_modVote; [done|]) : evol.
Hint Extern 2 (P (modPlayer _ _ _ _)) =>
  (apply E_mod; [intros ? _; solve [apply update_offline | apply update_online
                                   | apply update_score]|]) : evol.
Hint Extern 2 (P (modRoom _ _ _)) =>
  (apply E_mod;
     [intros ? _;
      solve [ apply update_remove | apply update_startChar
            | apply update_vote_close
            | apply update_shrink; simpl;
              solve [apply sublist_nil_l | apply sublist_tail] ]|]) : evol.

Ltac evol := lazy beta zeta; repeat case_match; lazy beta zeta; eauto 30 with evol.

Lemma E_broadcastRoomList s : P s → P (broadcastRoomList s).
Proof. intros. unfold broadcastRoomList. evol. Qed.
Lemma E_broadcastGameState roomId s : P s → P (broadcastGameState roomId s).
Proof. intros. unfold broadcastGameState. evol. Qed.
Lemma E_sendPrivateMessage sid c s : P s → P (sendPrivateMessage sid c s).
Proof. intros. unfold sendPrivateMessage. evol. Qed.
Lemma E_broadcastMessage roomId c s : P s → P (broadcastMessage roomId c s).
Proof.
  intros H. unfold broadcastMessage.
  destruct (rooms s !! roomId) as [room|] eqn:E; [|done].
  apply E_emit, E_mod; [|done]. intros r. rewrite E. intros [= <-].
  apply (update_log (mkMessage c GameMessage (now s)) room).
Qed.
Hint Resolve E_broadcastRoomList E_broadcastGameState E_sendPrivateMessage
  E_broadcastMessage : evol.

Lemma E_removePlayerFromRoom roomId nick s :
  P s → P (removePlayerFromRoom roomId nick s).2.
Proof.
  intros H. unfold removePlayerFromRoom.
  destruct (rooms s !! roomId) as [room|] eqn:E; [|done].
  destruct (players room !! nick); [|done].
  lazy zeta. case_match eqn:Hlast; simpl; [|evol].
  apply E_drop; [|evol]. intros r. simpl.
  rewrite lookup_alter_eq, E. intros [= <-]. simpl.
  apply andb_prop in Hlast as [_ Hp]. by apply negb_true_iff in Hp.
Qed.
Hint Resolve E_removePlayerFromRoom : evol.

Lemma E_startNewRound roomId c who s : P s → P (startNewRound roomId c who s).
Proof. intros. unfold startNewRound. evol. Qed.
Hint Resolve E_startNewRound : evol.

Lemma E_handleCorrectAnswer_ resume roomId sub s :
  (∀ r s, P s → P (resume r s)) →
  P s → P (handleCorrectAnswer_ resume roomId sub s).
Proof.
  intros Hr H. unfold handleCorrectAnswer_.
  destruct (rooms s !! roomId) as [room|] eqn:E; [|done].
  destruct (players room !! sub_nickname sub) as [winner|]; [|evol].
  lazy zeta. apply E_broadcastGameState, E_set_choiceTimeouts, E_setTimeout.
  apply E_mod; [|evol]. intros r. unfold modPlayer, modRoom. simpl.
  rewrite !lookup_alter_eq, E. intros [= <-].
  match goal with
  | |- update ?r _ => exact (update_ring (normalizeSentence (answer sub)) r)
  end.
Qed.

Lemma rooms_startTimers roomId (l : list jsstring) acc :
  rooms (foldl (λ (acc : gmap jsstring TimerId * State) nick,
                  (<[nick := nextTimer acc.2]> acc.1,
                   setTimeout (VoteCountdown roomId nick) VOTE_DURATION_MS acc.2))
               acc l).2 = rooms acc.2.
Proof.
  revert acc. induction l as [|x l IH]; intros acc; simpl; [done|].
  by rewrite IH.
Qed.

Lemma E_startPlayerVote roomId sub s : P s → P (startPlayerVote roomId sub s).
Proof.
  intros H. unfold startPlayerVote.
  destruct (rooms s !! roomId) as [room|] eqn:E; [|done].
  lazy zeta. apply E_broadcastGameState.
  apply E_mod.
  - intros r. rewrite rooms_startTimers. simpl. rewrite E. intros [= <-].
    apply update_vote_open.
  - eapply E_ext; [|exact H]. by rewrite rooms_startTimers.
Qed.
Hint Resolve E_startPlayerVote : evol.

Lemma E_processValidationQueue_ resume roomId s :
  (∀ r s, P s → P (resume r s)) →
  P s → P (processValidationQueue_ resume roomId s).
Proof.
  intros Hr ?. unfold processValidationQueue_. evol.
  apply E_handleCorrectAnswer_; [done|]. evol.
Qed.

Lemma E_processValidationQueue roomId s :
  P s → P (processValidationQueue roomId s).
Proof.
  intros. unfold processValidationQueue.
  apply E_processValidationQueue_; [|done].
  intros. by apply E_processValidationQueue_.
Qed.
Hint Resolve E_processValidationQueue : evol.

Lemma E_handleCorrectAnswer roomId sub s :
  P s → P (handleCorrectAnswer roomId sub s).
Proof.
  intros. apply E_handleCorrectAnswer_; [|done].
  intros. by apply E_processValidationQueue.
Qed.
Hint Resolve E_handleCorrectAnswer : evol.

Lemma E_addToCache key s : P s → P (addToCache key s).
Proof. intros H. unfold addToCache. evol. Qed.
Hint Resolve E_addToCache : evol.

Lemma E_handleVoteEnd roomId s : P s → P (handleVoteEnd roomId s).
Proof. intros. unfold handleVoteEnd. evol. Qed.
Hint Resolve E_handleVoteEnd : evol.

Lemma E_endVoteIfComplete roomId s : P s → P (endVoteIfComplete roomId s).
Proof. intros. unfold endVoteIfComplete. evol. Qed.
Hint Resolve E_endVoteIfComplete : evol.

Lemma E_handleVoteTimeout roomId nick s : P s → P (handleVoteTimeout roomId nick s).
Proof. intros. unfold handleVoteTimeout. evol. Qed.

Lemma E_handlePlayerVote sid roomId vote s :
  P s → P (handlePlayerVote sid roomId vote s).
Proof. intros. unfold handlePlayerVote. evol. Qed.

Lemma E_handleCharChoice sid roomId c s : P s → P (handleCharChoice sid roomId c s).
Proof. intros. unfold handleCharChoice. evol. Qed.

Lemma E_choiceWindowExpired roomId ans s :
  P s → P (choiceWindowExpired roomId ans s).
Proof. intros. unfold choiceWindowExpired. evol. Qed.

Lemma E_reconnectGraceExpired roomId nick s :
  P s → P (reconnectGraceExpired roomId nick s).
Proof. intros. unfold reconnectGraceExpired. evol. Qed.

Lemma E_reconnectPlayer sid roomId nick s :
  P s → P (reconnectPlayer sid roomId nick s).
Proof. intros. unfold reconnectPlayer. evol. Qed.
Hint Resolve E_reconnectPlayer : evol.

Lemma E_joinRoom sid roomId nick s : P s → P (joinRoom sid roomId nick s).
Proof.
  intros H. unfold joinRoom.
  destruct (rooms s !! roomId) as [room|] eqn:E; [|done].
  case_match eqn:Hbad; [evol|]. case_match; [evol|].
  destruct (players room !! nick) eqn:Hp; [evol|].
  assert (P (modRoom roomId (setRoom_players <[nick := freshPlayer nick sid]>)
               (setSocket sid roomId nick s))); [|evol].
  apply E_mod; [|evol]. intros r. simpl. rewrite E. intros [= <-].
  apply orb_false_iff in Hbad as [[Ht Hlong]%orb_false_iff _].
  apply update_join; [by destruct nick| |done].
  apply bool_decide_eq_false_1 in Hlong. lia.
Qed.
Hint Resolve E_joinRoom : evol.

Lemma E_disconnectTail roomId room player s :
  P s → P (disconnectTail roomId room player s).
Proof. intros. unfold disconnectTail. evol. Qed.
Hint Resolve E_disconnectTail : evol.

Lemma E_handlePlayerDisconnect sid graceful s :
  P s → P (handlePlayerDisconnect sid graceful s).
Proof. intros. unfold handlePlayerDisconnect. evol. Qed.

Lemma E_handlePlayerInput sid roomId ans s :
  P s → P (handlePlayerInput sid roomId ans s).
Proof.
  intros H. unfold handlePlayerInput.
  destruct (rooms s !! roomId) as [room|] eqn:E; [|done].
  destruct (sockets s !! sid ≫= sock_nickname) as [nick|]; [|done].
  case_match eqn:Hnick; [done|]. lazy zeta.
  destruct (bool_decide (Exists _ (validationQueue room))) eqn:Hdup; [evol|].
  apply bool_decide_eq_false_1 in Hdup.
  case_match eqn:Hempty; [done|].
  case_match eqn:Hclean; [evol|].
  case_match eqn:Hused; [evol|].
  case_match eqn:Hstart; [evol|].
  apply E_processValidationQueue, E_broadcastGameState, E_mod; [|done].
  intros r. rewrite E. intros [= <-].
  apply orb_false_iff in Hnick as [Hn Hpl].
  apply update_push; try done.
  - by destruct nick.
  - apply bool_decide_eq_false_1 in Hpl. by destruct (players room !! nick).
  - by destruct (trim ans).
  - by apply bool_decide_eq_false_1 in Hused.
  - by apply negb_false_iff in Hstart.
Qed.

Lemma E_withdrawAnswer sid s : P s → P (withdrawAnswer sid s).
Proof.
  intros H. unfold withdrawAnswer.
  assert (Hf : ∀ roomId room nick,
    rooms s !! roomId = Some room →
    P (modRoom roomId
         (setRoom_validationQueue
            (filter (λ q, sub_nickname q ≠ nick) (validationQueue room))) s)).
  { intros roomId room nick Hr. apply E_mod; [|done].
    intros r. rewrite Hr. intros [= <-]. apply update_shrink, sublist_filter. }
  evol.
Qed.

Lemma E_createRoom sid roomName random nick s :
  P s → P (createRoom sid roomName random nick s).
Proof.
  intros H. unfold createRoom. lazy zeta.
  case_match eqn:E; [evol|]. by apply E_joinRoom, E_new.
Qed.

Lemma E_adminCacheAdd sentence s : P s → P (adminCacheAdd sentence s).
Proof. intros H. unfold adminCacheAdd. evol. Qed.

Lemma E_adminCacheDelete sentence s : P s → P (adminCacheDelete sentence s).
Proof. intros H. unfold adminCacheDelete. evol. Qed.

Lemma E_adminKickPlayer roomId nick s : P s → P (adminKickPlayer roomId nick s).
Proof. intros. unfold adminKickPlayer. evol. Qed.

Lemma E_runTimer a s : P s → P (runTimer a s).
Proof.
  intros. destruct a; simpl;
    auto using E_handleVoteTimeout, E_choiceWindowExpired, E_reconnectGraceExpired.
Qed.

(** Every event of the game preserves an evolving property. *)
Lemma E_step e s : gameEvent e = true → P s → P (step e s).
Proof.
  intros He H. destruct e; try discriminate He; simpl; unfold onSocket, withRoomId;
    repeat case_match;
    eauto using E_createRoom, E_joinRoom, E_reconnectPlayer,
      E_handlePlayerDisconnect, E_handlePlayerInput, E_withdrawAnswer,
      E_handlePlayerVote, E_handleCharChoice, E_adminCacheAdd, E_adminCacheDelete,
      E_adminKickPlayer, E_runTimer, E_set_sockets, E_emit, E_set_timers,
      E_set_now.
Qed.
End Evolution.

(** ** Invariants of a room *)

Section Instances.
Context {U : Unicode}.

Lemma AllRooms_evolving (I : jsstring → Room → Prop) :
  (∀ k, I k (newRoom k)) →
  (∀ k r r', update r r' → I k r → I k r') →
  Evolving (AllRooms I).
Proof.
  intros Hnew Hupd. split; unfold AllRooms.
  - by intros s s' ->.
  - intros roomId f s Hf H k r. unfold modRoom; simpl.
    rewrite lookup_alter. case_decide as E; [subst k|by apply H].
    destruct (rooms s !! roomId) as [r0|] eqn:E0; [|done]. intros [= <-].
    apply Hupd with r0; [by apply Hf|by apply H].
  - intros roomId s _ H k r. simpl. rewrite lookup_delete_Some. intros [_ ?]. eauto.
  - intros roomId s _ H k r. simpl. rewrite lookup_insert_Some.
    intros [[<- <-]|[_ ?]]; [apply Hnew|eauto].
Qed.

Lemma AllRooms_step (I : jsstring → Room → Prop) :
  (∀ k, I k (newRoom k)) →
  (∀ k r r', update r r' → I k r → I k r') →
  (∀ k r b, I k r → I k (setRoom_isPermanent b r)) →
  ∀ e s, AllRooms I s → AllRooms I (step e s).
Proof.
  intros Hnew Hupd Hperm e s H.
  destruct (gameEvent e) eqn:He.
  { by apply (E_step _ (AllRooms_evolving I Hnew Hupd)). }
  destruct e; try discriminate He; simpl; intros k r.
  - unfold adminTogglePermanent, modRoom; simpl.
    rewrite lookup_alter. case_decide as E; [subst k|by apply H].
    destruct (rooms s !! roomId) as [r0|] eqn:E0; [|done]. intros [= <-].
    by apply Hperm, H.
  - unfold adminDeleteRoom. destruct (rooms s !! roomId); [|by apply H].
    simpl. rewrite lookup_delete_Some. intros [_ ?]. by apply H.
Qed.

Lemma AllRooms_reachable (I : jsstring → Room → Prop) :
  (∀ k, I k (newRoom k)) →
  (∀ k r r', update r r' → I k r → I k r') →
  (∀ k r b, I k r → I k (setRoom_isPermanent b r)) →
  ∀ s, reachable s → AllRooms I s.
Proof.
  intros Hnew Hupd Hperm s. induction 1 as [|e s _ IH].
  - intros k r. simpl. by rewrite lookup_empty.
  - by apply AllRooms_step.
Qed.

Lemma ringAfter_length ring key :
  (length ring ≤ 50 → length (ringAfter ring key) ≤ 50)%nat.
Proof.
  intros H. unfold ringAfter. case_bool_decide as E.
  - destruct ring; simpl in *; rewrite ?length_app in *; simpl in *; lia.
  - lia.
Qed.

Lemma logMessage_length m r :
  (length (messages r) ≤ 50 → length (messages (logMessage m r)) ≤ 50)%nat.
Proof.
  intros H. unfold logMessage. simpl. case_bool_decide as E.
  - destruct (messages r); simpl in *; rewrite ?length_app in *; simpl in *; lia.
  - lia.
Qed.

(** X16. The message log of a room never holds more than 50 messages: not
    in any state the server can reach from start-up, and every single event
    keeps the bound from any state in which it holds. *)
Theorem message_log_is_bounded :
  (∀ s, reachable s → ∀ roomId r, rooms s !! roomId = Some r →
     (length (messages r) ≤ 50)%nat)
  ∧ (∀ e s, AllRooms (λ _, boundedLog) s → AllRooms (λ _, boundedLog) (step e s)).
Proof.
  assert (Hupd : ∀ r r', update r r' → boundedLog r → boundedLog r').
  { unfold boundedLog. intros r r' []; simpl; try done. apply logMessage_length. }
  split.
  - intros s Hs. by apply (AllRooms_reachable (λ _, boundedLog)); [simpl; unfold boundedLog; simpl; lia|..].
  - by apply AllRooms_step; [simpl; unfold boundedLog; simpl; lia|..].
Qed.

(** X15. The recent-use ring of a room never holds more than 50 sentences:
    not in any state the server can reach from start-up, and every single
    event keeps the bound from any state in which it holds. *)
Theorem recent_ring_is_bounded :
  (∀ s, reachable s → ∀ roomId r, rooms s !! roomId = Some r →
     (length (usedSentences r) ≤ 50)%nat)
  ∧ (∀ e s, AllRooms (λ _, boundedRing) s → AllRooms (λ _, boundedRing) (step e s)).
Proof.
  assert (Hupd : ∀ r r', update r r' → boundedRing r → boundedRing r').
  { unfold boundedRing. intros r r' []; simpl; try done. apply ringAfter_length. }
  split.
  - intros s Hs. by apply (AllRooms_reachable (λ _, boundedRing)); [simpl; unfold boundedRing; simpl; lia|..].
  - by apply AllRooms_step; [simpl; unfold boundedRing; simpl; lia|..].
Qed.

(** X21. A room keeps the identifier it was created under, as its id and as
    its name: in every state the server can reach from start-up both equal
    the key of the room in the registry, and every single event keeps it
    that way. *)
Theorem rooms_are_self_named :
  (∀ s, reachable s → ∀ roomId r, rooms s !! roomId = Some r →
     room_id r = roomId ∧ room_name r = roomId)
  ∧ (∀ e s, AllRooms selfNamed s → AllRooms selfNamed (step e s)).
Proof.
  assert (Hupd : ∀ k r r', update r r' → selfNamed k r → selfNamed k r').
  { unfold selfNamed. by intros k r r' []. }
  split.
  - intros s Hs. by apply (AllRooms_reachable selfNamed).
  - by apply AllRooms_step.
Qed.

Lemma playersWellFormed_update r r' :
  update r r' → playersWellFormed r → playersWellFormed r'.
Proof.
  unfold playersWellFormed. intros Hu H n p.
  destruct Hu; simpl; try apply H.
  - rewrite lookup_insert_Some. intros [[<- <-]|[_ ?]]; [|by apply H].
    simpl. repeat split; try lia. destruct nick; [done|simpl; lia].
  - rewrite lookup_delete_Some. intros [_ ?]. by apply H.
  - rewrite lookup_alter_Some. intros [(_ & p0 & Hp & ->)|[_ ?]]; [|by apply H].
    by apply H in Hp.
  - rewrite lookup_alter_Some. intros [(_ & p0 & Hp & ->)|[_ ?]]; [|by apply H].
    by apply H in Hp.
  - rewrite lookup_alter_Some. intros [(_ & p0 & Hp & ->)|[_ ?]]; [|by apply H].
    apply H in Hp as (? & ? & ?). simpl. repeat split; try done; lia.
Qed.

(** X20. Every player record is filed under its own nickname, which has 1 to
    10 code units, and its score is never negative: in every state the
    server can reach from start-up, and every single event keeps it that
    way. *)
Theorem players_are_well_formed :
  (∀ s, reachable s → ∀ roomId r nick p,
     rooms s !! roomId = Some r → players r !! nick = Some p →
     nickname p = nick ∧ (1 ≤ length nick ≤ 10)%nat ∧ (0 ≤ score p)%Z)
  ∧ (∀ e s, AllRooms (λ _, playersWellFormed) s →
            AllRooms (λ _, playersWellFormed) (step e s)).
Proof.
  split.
  - intros s Hs roomId r nick p Hr.
    revert nick p. change (playersWellFormed r).
    revert roomId r Hr. change (AllRooms (λ _, playersWellFormed) s).
    apply AllRooms_reachable; try done.
    intros k r r'. apply playersWellFormed_update.
  - apply AllRooms_step; try done.
    intros k r r'. apply playersWellFormed_update.
Qed.

Lemma queueWellFormed_update r r' :
  update r r' → queueWellFormed r → queueWellFormed r'.
Proof.
  unfold queueWellFormed. intros Hu H q. destruct Hu; simpl; try apply H.
  - intros Hq. apply H. by eapply elem_of_sublist.
  - rewrite elem_of_app, list_elem_of_singleton. intros [?| ->]; [by apply H|].
    simpl. repeat split; try done. by apply normalizeSentence_clean.
Qed.

(** X3. Every queued submission carries a non-empty nickname and a
    non-empty answer without white space or punctuation, so that the
    answer is its own cache key: in every state the server can reach from
    start-up, and every single event keeps it that way. *)
Theorem queued_answers_are_clean :
  (∀ s, reachable s → ∀ roomId r q,
     rooms s !! roomId = Some r → q ∈ validationQueue r →
     sub_nickname q ≠ [] ∧ answer q ≠ []
     ∧ illegalCharsRegex_test (answer q) = false
     ∧ normalizeSentence (answer q) = answer q)
  ∧ (∀ e s, AllRooms (λ _, queueWellFormed) s →
            AllRooms (λ _, queueWellFormed) (step e s)).
Proof.
  split.
  - intros s Hs roomId r q Hr.
    revert q. change (queueWellFormed r).
    revert roomId r Hr. change (AllRooms (λ _, queueWellFormed) s).
    apply AllRooms_reachable; try done.
    + intros k q. simpl. by intros ?%elem_of_nil.
    + intros k r r'. apply queueWellFormed_update.
  - apply AllRooms_step; try done.
    + intros k q. simpl. by intros ?%elem_of_nil.
    + intros k r r'. apply queueWellFormed_update.
Qed.

Lemma electorate_NoDup nick r :
  playersWellFormed r → NoDup (electorate nick r).
Proof.
  intros H. unfold electorate, playerList.
  eapply sublist_NoDup; [|apply fmap_sublist; etrans; apply sublist_filter].
  replace (nickname <$> (map_to_list (players r)).*2)
    with ((map_to_list (players r)).*1); [apply NoDup_fst_map_to_list|].
  rewrite <- list_fmap_compose. apply list_fmap_ext.
  intros i [k p] Hi%list_elem_of_lookup_2%elem_of_map_to_list. simpl.
  by apply H in Hi as [-> _].
Qed.

Lemma electorate_excludes nick r : nick ∉ electorate nick r.
Proof.
  unfold electorate. intros (p & -> & Hp%list_elem_of_filter)%list_elem_of_fmap.
  by destruct Hp.
Qed.

Lemma electorateWellFormed_update r r' :
  update r r' → playersWellFormed r ∧ electorateWellFormed r →
  playersWellFormed r' ∧ electorateWellFormed r'.
Proof.
  intros Hu [Hp Hv]. split; [by eapply playersWellFormed_update|].
  unfold electorateWellFormed in *. intros v.
  destruct Hu; simpl; try apply Hv; try done.
  - intros [= <-]. simpl. split; [by apply electorate_NoDup|apply electorate_excludes].
  - destruct (currentVote r) as [v0|]; [|done]. simpl. intros [= <-].
    destruct (H v0) as [-> ->]. by apply Hv.
Qed.

(** X6. The voters of a vote are distinct nicknames and never include the
    player whose submission is voted on: in every state the server can
    reach from start-up; and every single event keeps this, together with
    the well-formedness of the player records it rests on. *)
Theorem voters_are_distinct_and_exclude_the_submitter :
  (∀ s, reachable s → ∀ roomId r v,
     rooms s !! roomId = Some r → currentVote r = Some v →
     NoDup (voters v) ∧ sub_nickname (submission v) ∉ voters v)
  ∧ (∀ e s,
       AllRooms (λ _ r, playersWellFormed r ∧ electorateWellFormed r) s →
       AllRooms (λ _ r, playersWellFormed r ∧ electorateWellFormed r) (step e s)).
Proof.
  split.
  - intros s Hs roomId r v Hr.
    revert v. apply (AllRooms_reachable
      (λ _ r, playersWellFormed r ∧ electorateWellFormed r)) with s roomId; try done.
    intros k r0 r'. apply electorateWellFormed_update.
  - apply AllRooms_step; try done.
    intros k r r'. apply electorateWellFormed_update.
Qed.

(** *** Permanence *)

Lemma permanence_evolving s0 :
  Evolving (λ s, ∀ k r, rooms s0 !! k = Some r → permanenceKept r (rooms s !! k)).
Proof.
  split.
  - by intros s s' ->.
  - intros roomId f s Hf H k r Hr. specialize (H k r Hr). unfold modRoom; simpl.
    rewrite lookup_alter. case_decide as E; [subst k|done].
    destruct (rooms s !! roomId) as [r1|] eqn:E1; [|done]. simpl in *.
    rewrite <- H. by destruct (Hf r1 eq_refl).
  - intros roomId s Hnp H k r Hr. specialize (H k r Hr). simpl.
    destruct (decide (k = roomId)) as [->|Hne].
    + rewrite lookup_delete_eq. simpl.
      destruct (rooms s !! roomId) as [r1|] eqn:E1; [|done]. simpl in H.
      rewrite <- H. by apply Hnp.
    + by rewrite lookup_delete_ne.
  - intros roomId s Hfresh H k r Hr. specialize (H k r Hr). simpl.
    destruct (decide (k = roomId)) as [->|Hne].
    + rewrite lookup_insert_eq. simpl. by rewrite Hfresh in H.
    + by rewrite lookup_insert_ne.
Qed.

(** X23. No event of the game changes whether a room is permanent, and none
    removes a permanent room: a room that is gone afterwards was not
    permanent. *)
Theorem game_events_keep_permanence e s roomId r :
  gameEvent e = true → rooms s !! roomId = Some r →
  match rooms (step e s) !! roomId with
  | Some r' => isPermanent r' = isPermanent r
  | None => isPermanent r = false
  end.
Proof.
  intros He Hr.
  apply (E_step _ (permanence_evolving s) e s He); [|done].
  intros k r0 Hr0. by rewrite Hr0.
Qed.
End Instances.

(** ** Removing a player *)

Section Registry.
Context {U : Unicode}.

Lemma sole_record (m : gmap jsstring Player) nick p :
  m !! nick = Some p → size (delete nick m) = 0%nat ↔ m = {[nick := p]}.
Proof.
  intros Hp. rewrite map_size_empty_iff. split.
  - intros He. rewrite <- (insert_delete_id m nick p Hp), He. done.
  - intros ->. apply delete_singleton_eq.
Qed.

(** [removePlayerFromRoom] on a record that exists: what is left of the
    registry, and when the room goes. *)
Lemma removePlayerFromRoom_present roomId nick s room p :
  rooms s !! roomId = Some room → players room !! nick = Some p →
  let result := removePlayerFromRoom roomId nick s in
  (result.1 = true ↔ players room = {[nick := p]} ∧ isPermanent room = false)
  ∧ rooms result.2
    = (if result.1 then delete roomId (rooms s)
       else <[roomId := setRoom_players (delete nick) room]> (rooms s)).
Proof.
  intros Hr Hp result. subst result.
  unfold removePlayerFromRoom. rewrite Hr, Hp. lazy zeta.
  pose proof (sole_record _ _ _ Hp) as Hsole.
  case_bool_decide as Hsize; destruct (isPermanent room); simpl;
    (split; [split; [try done|intros [? ?]; try done; tauto]|]);
    try tauto.
  all: try by apply alter_present.
  apply map_eq. intros k. destruct (decide (k = roomId)) as [->|Hne].
  - by rewrite !lookup_delete_eq.
  - rewrite !lookup_delete_ne by done. by rewrite lookup_alter_ne.
Qed.

(** X22. [removePlayerFromRoom] on a record that exists: the room is
    destroyed, and [true] returned, exactly when the record was the only one
    and the room is not permanent; otherwise the room stays, without the
    record. The entry of [reconnectTimeouts] under the nickname is
    forgotten, and no timer is cancelled. *)
Theorem removePlayerFromRoom_outcome roomId nick s room p :
  rooms s !! roomId = Some room → players room !! nick = Some p →
  let result := removePlayerFromRoom roomId nick s in
  (result.1 = true ↔ players room = {[nick := p]} ∧ isPermanent room = false)
  ∧ rooms result.2
    = (if result.1 then delete roomId (rooms s)
       else <[roomId := setRoom_players (delete nick) room]> (rooms s))
  ∧ reconnectTimeouts result.2 = delete nick (reconnectTimeouts s)
  ∧ timers result.2 = timers s.
Proof.
  intros Hr Hp result.
  destruct (removePlayerFromRoom_present roomId nick s room p Hr Hp) as [H1 H2].
  split; [exact H1|]. split; [exact H2|]. clear H1 H2.
  subst result. unfold removePlayerFromRoom. rewrite Hr, Hp. lazy zeta.
  by destruct (_ && _).
Qed.
End Registry.

(** ** The choice of the next start character *)

Section Choosing.
Context {U : Unicode}.

Lemma includes_unit (s : jsstring) x : x ∈ s → includes s [x] = true.
Proof.
  induction s as [|y s IH]; [by intros ?%elem_of_nil|].
  intros [->|Hin]%elem_of_cons.
  - simpl. rewrite N.eqb_refl. by destruct s.
  - change (includes (y :: s) [x]) with (startsWith (y :: s) [x] || includes s [x]).
    rewrite IH by done. apply orb_true_r.
Qed.

Lemma rooms_startNewRound roomId c who s room :
  rooms s !! roomId = Some room →
  rooms (startNewRound roomId c who s)
  = <[roomId := logMessage (mkMessage (MsgNewRound who c) GameMessage (now s))
                  (setRoom_currentStartChar c room)]> (rooms s).
Proof.
  intros Hr. unfold startNewRound. rewrite Hr.
  rewrite rooms_broadcastGameState, rooms_broadcastMessage. unfold modRoom; simpl.
  rewrite alter_alter_eq. by rewrite (alter_present _ _ _ _ Hr).
Qed.

Lemma timers_startNewRound roomId c who s :
  timers (startNewRound roomId c who s) = timers s.
Proof.
  unfold startNewRound. case_match; [|done].
  by rewrite timers_broadcastGameState, timers_broadcastMessage.
Qed.

(** X13. [handleCharChoice] while a choice is pending: the winner's request
    cancels the choice timer, closes the session and makes the string it
    sent the start character, whatever that string is; anybody else's
    request changes nothing. *)
Theorem handleCharChoice_outcome sid roomId char s room c :
  rooms s !! roomId = Some room → choiceTimeouts s !! roomId = Some c →
  let s' := handleCharChoice sid roomId char s in
  if bool_decide (sockets s !! sid ≫= sock_nickname = Some (winnerNickname c)) then
    rooms s'
    = <[roomId := logMessage
                    (mkMessage (MsgNewRound (winnerNickname c) char) GameMessage (now s))
                    (setRoom_currentStartChar char room)]> (rooms s)
    ∧ choiceTimeouts s' = delete roomId (choiceTimeouts s)
    ∧ timers s' = delete (timer c) (timers s)
  else s' = s.
Proof.
  intros Hr Hc s'. subst s'. unfold handleCharChoice. rewrite Hr, Hc.
  case_bool_decide; [|done]. split; [|split].
  - by rewrite (rooms_startNewRound _ _ _ _ room).
  - by rewrite choiceTimeouts_startNewRound.
  - by rewrite timers_startNewRound.
Qed.

(** X14. When the choice window runs out on a pending choice, the session
    is closed and the start character becomes one code unit: the first of
    the normalised winning answer, which occurs in that answer, or the
    fallback character when nothing is left of the answer. The players, the
    queue and the vote of the room are not touched. *)
Theorem choiceWindowExpired_outcome roomId ans s c room :
  choiceTimeouts s !! roomId = Some c → rooms s !! roomId = Some room →
  let s' := choiceWindowExpired roomId ans s in
  choiceTimeouts s' = delete roomId (choiceTimeouts s)
  ∧ ∃ char room',
      rooms s' !! roomId = Some room'
      ∧ currentStartChar room' = char
      ∧ length char = 1%nat
      ∧ (char = FALLBACK_CHAR ∧ normalizeSentence ans = []
         ∨ includes ans char = true ∧ head char = head (normalizeSentence ans))
      ∧ players room' = players room
      ∧ validationQueue room' = validationQueue room
      ∧ currentVote room' = currentVote room.
Proof.
  intros Hc Hr s'. subst s'. unfold choiceWindowExpired.
  rewrite Hc. lazy zeta. split.
  - by rewrite choiceTimeouts_startNewRound, choiceTimeouts_broadcastMessage.
  - set (char := match normalizeSentence ans with c0 :: _ => [c0] | [] => FALLBACK_CHAR end).
    set (s1 := broadcastMessage roomId _ _).
    assert (H1 : ∃ r1, rooms s1 !! roomId = Some r1 ∧ players r1 = players room
                       ∧ validationQueue r1 = validationQueue room
                       ∧ currentVote r1 = currentVote room).
    { subst s1. rewrite rooms_broadcastMessage. simpl. rewrite lookup_alter_eq, Hr.
      simpl. eauto. }
    destruct H1 as (r1 & Hr1 & ? & ? & ?).
    exists char. eexists. rewrite (rooms_startNewRound _ _ _ _ r1 Hr1).
    rewrite lookup_insert_eq. split; [done|]. simpl.
    split; [done|]. split; [subst char; by case_match|].
    split; [|done].
    subst char. pose proof (normalizeSentence_sublist ans) as Hs.
    destruct (normalizeSentence ans) as [|c0 rest]; [by left|right].
    split; [|done]. apply includes_unit.
    apply (elem_of_sublist (c0 :: rest)); [by left|done].
Qed.
End Choosing.

(** ** Votes on record *)

Section Voting.
Context {U : Unicode}.

(** X9. A request to vote is ignored unless it comes from a voter who has no
    vote on record, and a countdown that runs out for a nickname that has a
    vote on record changes nothing: a recorded vote is final. *)
Theorem recorded_vote_is_final roomId nick s v :
  voteOf roomId s = Some v →
  (notVoted v nick = false → handleVoteTimeout roomId nick s = s)
  ∧ (nick ∉ voters v ∨ notVoted v nick = false →
     ∀ sid vote, sockets s !! sid ≫= sock_nickname = Some nick →
       handlePlayerVote sid roomId vote s = s).
Proof.
  unfold voteOf. intros Hv. split.
  - intros Hn. unfold handleVoteTimeout. by rewrite Hv, Hn.
  - intros Hor sid vote Hs. unfold handlePlayerVote. rewrite Hs.
    destruct (rooms s !! roomId) as [room|]; [|done]. simpl in Hv. rewrite Hv.
    destruct (players room !! nick); [|done].
    destruct Hor as [Hout| ->].
    + unfold contains. rewrite (bool_decide_eq_false_2 _ Hout).
      by rewrite andb_false_r.
    + by rewrite andb_false_r.
Qed.
End Voting.

(** ** Opening a vote *)

Section Opening.
Context {U : Unicode}.

Lemma startCountdowns_frame roomId l acc :
  let res := startCountdowns roomId l acc in
  rooms res.2 = rooms acc.2 ∧ now res.2 = now acc.2
  ∧ localCache res.2 = localCache acc.2
  ∧ choiceTimeouts res.2 = choiceTimeouts acc.2
  ∧ (nextTimer acc.2 ≤ nextTimer res.2)
  ∧ (∀ t, t < nextTimer acc.2 → timers res.2 !! t = timers acc.2 !! t)
  ∧ (∀ nick, nick ∉ l → res.1 !! nick = acc.1 !! nick).
Proof.
  revert acc. induction l as [|x l IH]; intros acc; simpl.
  { repeat split; try done; lia. }
  destruct (IH (<[x := nextTimer acc.2]> acc.1,
                setTimeout (VoteCountdown roomId x) VOTE_DURATION_MS acc.2))
    as (H1 & H2 & H3 & H4 & H5 & H6 & H7).
  simpl in *. repeat split; try done.
  - lia.
  - intros t Ht. rewrite H6 by lia. apply lookup_insert_ne. lia.
  - intros nick [Hx Hl]%not_elem_of_cons. rewrite H7 by done.
    by apply lookup_insert_ne.
Qed.

Lemma startCountdowns_pending roomId l acc nick :
  nick ∈ l →
  let res := startCountdowns roomId l acc in
  ∃ t, res.1 !! nick = Some t
       ∧ timers res.2 !! t
         = Some ((now acc.2 + VOTE_DURATION_MS)%Z, VoteCountdown roomId nick).
Proof.
  revert acc. induction l as [|x l IH]; intros acc; [by intros ?%elem_of_nil|].
  intros Hin. simpl.
  set (acc' := (<[x := nextTimer acc.2]> acc.1,
                setTimeout (VoteCountdown roomId x) VOTE_DURATION_MS acc.2)).
  destruct (decide (nick ∈ l)) as [Hl|Hl].
  - destruct (IH acc' Hl) as (t & ? & ?). by exists t.
  - apply elem_of_cons in Hin as [->|?]; [|done].
    destruct (startCountdowns_frame roomId l acc') as (_ & _ & _ & _ & _ & H6 & H7).
    exists (nextTimer acc.2). split.
    + change (foldl _ acc' l) with (startCountdowns roomId l acc').
      rewrite H7 by done. simpl. apply lookup_insert_eq.
    + change (foldl _ acc' l) with (startCountdowns roomId l acc').
      rewrite H6 by (simpl; lia). simpl. apply lookup_insert_eq.
Qed.

(** X5. A queue head that is not in the cache opens a vote. The voters are,
    in some order, the players online at that moment, the submitter apart; no vote is on
    record; each voter has a countdown pending that is due 15000 ms from
    now, and nobody else has one; the head stays in the queue. *)
Theorem processValidationQueue_opens_vote roomId s room sub rest :
  rooms s !! roomId = Some room →
  currentVote room = None →
  validationQueue room = sub :: rest →
  normalizeSentence (answer sub) ∉ localCache s →
  let s' := processValidationQueue roomId s in
  ∃ room' v,
    rooms s' !! roomId = Some room'
    ∧ currentVote room' = Some v
    ∧ validationQueue room' = sub :: rest
    ∧ submission v = sub
    ∧ votes v = ∅
    ∧ voters v ≡ₚ electorate (sub_nickname sub) room
    ∧ endTime v = (now s + 15000)%Z
    ∧ (∀ nick, nick ∈ voters v →
         ∃ t, timeouts v !! nick = Some t
              ∧ timers s' !! t = Some ((now s + 15000)%Z, VoteCountdown roomId nick))
    ∧ (∀ nick, nick ∉ voters v → timeouts v !! nick = None)
    ∧ localCache s' = localCache s
    ∧ choiceTimeouts s' = choiceTimeouts s.
Proof.
  intros Hr Hv Hq Hmiss s'. subst s'.
  rewrite processValidationQueue_flat. unfold processValidationQueue_.
  rewrite Hr, Hv, Hq. unfold contains. rewrite (bool_decide_eq_false_2 _ Hmiss).
  set (s1 := broadcastMessage roomId (MsgToVote _) _).
  assert (H1 : ∃ r1, rooms s1 !! roomId = Some r1
                     ∧ players r1 = players room
                     ∧ validationQueue r1 = sub :: rest).
  { subst s1. rewrite !rooms_broadcastMessage, !lookup_alter_eq,
      rooms_broadcastGameState, Hr. simpl. eauto. }
  assert (Hnow : now s1 = now s).
  { subst s1. unfold broadcastMessage, broadcastGameState.
    repeat case_match; done. }
  assert (Hcache : localCache s1 = localCache s).
  { subst s1. by rewrite !localCache_broadcastMessage, localCache_broadcastGameState. }
  assert (Hchoice : choiceTimeouts s1 = choiceTimeouts s).
  { subst s1. by rewrite !choiceTimeouts_broadcastMessage,
      choiceTimeouts_broadcastGameState. }
  clearbody s1. destruct H1 as (r1 & Hr1 & Hp1 & Hq1).
  unfold startPlayerVote. rewrite Hr1. lazy zeta.
  match goal with
  | |- context [foldl ?f (∅, s1) ?l] =>
      change (foldl f (∅, s1) l) with (startCountdowns roomId l (∅, s1));
      set (l0 := l)
  end.
  assert (Hl0 : l0 = electorate (sub_nickname sub) room).
  { subst l0. unfold electorate, playerList. by rewrite Hp1. }
  destruct (startCountdowns_frame roomId l0 (∅, s1))
    as (F1 & F2 & F3 & F4 & _ & _ & F7).
  simpl in F1, F2, F3, F4, F7.
  set (v := {| submission := sub; votes := ∅;
               endTime := (now s1 + VOTE_DURATION_MS)%Z; voters := l0;
               timeouts := (startCountdowns roomId l0 (∅, s1)).1 |}).
  set (s2 := modRoom roomId (setRoom_currentVote (Some v)) _).
  assert (G1 : rooms (broadcastGameState roomId s2) !! roomId
               = Some (setRoom_currentVote (Some v) r1)).
  { rewrite rooms_broadcastGameState. subst s2. unfold modRoom; simpl.
    by rewrite lookup_alter_eq, F1, Hr1. }
  assert (G2 : timers (broadcastGameState roomId s2)
               = timers (startCountdowns roomId l0 (∅, s1)).2).
  { by rewrite timers_broadcastGameState. }
  assert (G3 : localCache (broadcastGameState roomId s2) = localCache s).
  { rewrite localCache_broadcastGameState. subst s2. simpl. by rewrite F3. }
  assert (G4 : choiceTimeouts (broadcastGameState roomId s2) = choiceTimeouts s).
  { rewrite choiceTimeouts_broadcastGameState. subst s2. simpl. by rewrite F4. }
  clearbody s2.
  exists (setRoom_currentVote (Some v) r1), v.
  split; [done|]. split; [done|]. split; [done|]. split; [done|].
  split; [done|]. split; [by rewrite <- Hl0|].
  split; [subst v; simpl; by rewrite Hnow|].
  split; [|split; [|done]].
  - intros nick Hin. rewrite G2.
    destruct (startCountdowns_pending roomId l0 (∅, s1) nick Hin) as (t & ? & Ht).
    exists t. split; [done|]. simpl in Ht. by rewrite Hnow in Ht.
  - intros nick Hout. subst v. simpl. by rewrite F7.
Qed.
End Opening.

(** ** Creating and joining a room *)

Section Entering.
Context {U : Unicode}.

#[local] Arguments broadcastGameState : simpl never.
#[local] Arguments broadcastMessage : simpl never.
#[local] Arguments broadcastRoomList : simpl never.

Lemma isTakenOnline_empty roomId nick : isTakenOnline (newRoom roomId) nick = false.
Proof.
  unfold isTakenOnline, playerList. simpl players. rewrite map_to_list_empty.
  apply bool_decide_eq_false_2. by intros ?%Exists_nil.
Qed.

(** X18. [createRoom] takes the name as the identifier, or the random one
    when the name is empty. An identifier in use is refused and nothing
    changes. An identifier that is free, and not the name of an inherited
    member, is registered before the nickname is looked at: with a
    nickname that is empty or longer than 10 code units the request is
    refused and the new room stays behind, empty; with any other nickname
    that is not the name of an inherited member the creator is its only
    player, online, with no score. *)
Theorem createRoom_outcome sid roomName random nick s :
  let roomId := if truthy roomName then roomName else random in
  let s' := createRoom sid roomName random nick s in
  (is_Some (rooms s !! roomId) →
     s' = s ▷ emit (ToSocket sid (JoinError RoomExists)))
  ∧ (rooms s !! roomId = None → inherited roomId = false →
     nick = [] ∨ (10 < length nick)%nat →
     s' = s ▷ set_rooms <[roomId := newRoom roomId]>
            ▷ emit (ToSocket sid (JoinError BadNickname)))
  ∧ (rooms s !! roomId = None → inherited roomId = false →
     nick ≠ [] → (length nick ≤ 10)%nat → inherited nick = false →
     ∃ room', rooms s' !! roomId = Some room'
              ∧ players room' = {[nick := freshPlayer nick sid]}
              ∧ currentStartChar room' = DEFAULT_START_CHAR
              ∧ isPermanent room' = false
              ∧ sockets s' !! sid = Some (mkSocket (Some roomId) (Some nick))).
Proof.
  intros roomId s'. subst s'. unfold createRoom. fold roomId.
  split; [|split].
  - intros [r ->]. done.
  - intros -> _ Hbad. unfold joinRoom. cbn [rooms set_rooms].
    rewrite lookup_insert_eq.
    destruct Hbad as [->|Hlong]; [done|].
    rewrite (bool_decide_eq_true_2 (10 < length nick)%nat) by done.
    by rewrite orb_true_r.
  - intros -> _ Hn Hlen _. unfold joinRoom. cbn [rooms set_rooms].
    rewrite lookup_insert_eq.
    destruct nick as [|c0 nick]; [done|]. simpl negb. simpl orb.
    rewrite bool_decide_eq_false_2 by (simpl in *; lia). simpl orb. cbv iota.
    rewrite isTakenOnline_empty.
    change (players (newRoom roomId)) with (∅ : gmap jsstring Player).
    rewrite lookup_empty.
    change (currentVote (newRoom roomId)) with (@None Vote). cbv iota beta.
    rewrite rooms_broadcastRoomList, rooms_broadcastGameState,
      rooms_broadcastMessage, sockets_broadcastRoomList,
      sockets_broadcastGameState.
    unfold modRoom; simpl. rewrite !lookup_alter_eq, lookup_insert_eq. simpl.
    eexists. split; [done|]. simpl. repeat split; try done.
    unfold broadcastMessage. case_match; simpl; apply lookup_insert_eq.
Qed.

(** X19. A player who joins while a vote is running, under a nickname the
    room has no record of and that is not the name of an inherited
    member, gets a record, is told of the vote and is not a voter: the
    session is left exactly as it was. *)
Theorem joinRoom_during_vote sid roomId nick s room v :
  rooms s !! roomId = Some room → currentVote room = Some v →
  players room !! nick = None → inherited nick = false →
  nick ≠ [] → (length nick ≤ 10)%nat → isTakenOnline room nick = false →
  let s' := joinRoom sid roomId nick s in
  voteOf roomId s' = Some v
  ∧ timers s' = timers s
  ∧ ToSocket sid (VoteInProgress (answer (submission v))) ∈ outbox s'
  ∧ (∃ room', rooms s' !! roomId = Some room'
              ∧ players room' = <[nick := freshPlayer nick sid]> (players room)).
Proof.
  intros Hr Hv Hp _ Hn Hlen Hfree s'. subst s'. unfold joinRoom.
  rewrite Hr, Hfree, Hp, Hv.
  destruct nick as [|c0 nick]; [done|]. simpl negb. simpl orb.
  rewrite bool_decide_eq_false_2 by (simpl in *; lia). simpl orb. cbv iota.
  unfold voteOf.
  rewrite rooms_broadcastRoomList, rooms_broadcastGameState,
    timers_broadcastRoomList, timers_broadcastGameState.
  set (s1 := broadcastMessage roomId _ _).
  assert (H1 : rooms s1 !! roomId
               = Some (logMessage (mkMessage (MsgWelcome (c0 :: nick)) GameMessage (now s))
                         (setRoom_players <[c0 :: nick := freshPlayer (c0 :: nick) sid]> room))).
  { subst s1. rewrite rooms_broadcastMessage. unfold modRoom; simpl.
    by rewrite !lookup_alter_eq, Hr. }
  assert (H2 : timers s1 = timers s).
  { subst s1. by rewrite timers_broadcastMessage. }
  clearbody s1. simpl. rewrite H1. simpl. repeat split; try done.
  - unfold broadcastRoomList, broadcastGameState.
    case_match; simpl; rewrite !elem_of_app, ?list_elem_of_singleton; tauto.
  - eauto.
Qed.
End Entering.

(** ** The end of the grace period *)

Section Eviction.
Context {U : Unicode}.

(** X27. The grace timer of a player who is back online does nothing. The
    grace timer of a player still offline removes the record, so that a
    later request to reconnect under that nickname is refused. *)
Theorem reconnectGraceExpired_outcome roomId nick s room p :
  rooms s !! roomId = Some room → players room !! nick = Some p →
  let s' := reconnectGraceExpired roomId nick s in
  if online p then s' = s
  else (∀ room', rooms s' !! roomId = Some room' → players room' !! nick = None)
       ∧ (rooms s' !! roomId = None ↔
          players room = {[nick := p]} ∧ isPermanent room = false)
       ∧ ∀ sid, ∃ reason,
           reconnectPlayer sid roomId nick s'
           = s' ▷ emit (ToSocket sid (ReconnectError reason)).
Proof.
  intros Hr Hp s'. subst s'. unfold reconnectGraceExpired. rewrite Hr. simpl.
  rewrite Hp. destruct (online p) eqn:Hon; [done|].
  destruct (removePlayerFromRoom_present roomId nick s room p Hr Hp)
    as (Hd & Hrooms).
  set (res := removePlayerFromRoom roomId nick s) in *.
  assert (G : ∀ room', rooms (
    (if res.1 then res.2
     else res.2 ▷ broadcastMessage roomId (MsgDropped (nickname p))
                ▷ broadcastGameState roomId) ▷ broadcastRoomList) !! roomId = Some room' →
    players room' !! nick = None).
  { intros room'. rewrite rooms_broadcastRoomList. destruct res.1.
    - by rewrite Hrooms, lookup_delete_eq.
    - rewrite rooms_broadcastGameState, rooms_broadcastMessage, lookup_alter_eq,
        Hrooms, lookup_insert_eq. simpl. intros [= <-]. simpl. apply lookup_delete_eq. }
  split; [exact G|]. split.
  - rewrite <- Hd. rewrite rooms_broadcastRoomList. destruct res.1.
    + by rewrite Hrooms, lookup_delete_eq.
    + rewrite rooms_broadcastGameState, rooms_broadcastMessage, lookup_alter_eq,
        Hrooms, lookup_insert_eq. simpl. split; done.
  - intros sid. apply reconnectPlayer_refused. intros room' p' Hr' Hp'.
    apply G in Hr'. congruence.
Qed.
End Eviction.

(** ** Withdrawing an answer *)

Section Withdrawing.
Context {U : Unicode}.

Lemma rooms_modRoom roomId f s :
  rooms (modRoom roomId f s) = alter f roomId (rooms s).
Proof. done. Qed.

Lemma timers_modRoom roomId f s : timers (modRoom roomId f s) = timers s.
Proof. done. Qed.

Lemma modRoom_id roomId f s :
  (∀ r, rooms s !! roomId = Some r → f r = r) → modRoom roomId f s = s.
Proof.
  intros H. unfold modRoom, set_rooms. destruct s as [rs ? ? ? ? ? ? ? ?]; simpl in *.
  f_equal. apply map_eq. intros k. rewrite lookup_alter.
  case_decide as E; [subst k|done].
  destruct (rs !! roomId) as [r|] eqn:Hr; [|done]. simpl. by rewrite H.
Qed.

Lemma filter_all {A} (P : A → Prop) `{∀ x, Decision (P x)} (l : list A) :
  Forall P l → filter P l = l.
Proof.
  induction 1 as [|x l Hx _ IH]; [done|].
  rewrite filter_cons, decide_True by done. by rewrite IH.
Qed.

(** X11. Withdrawing when the player has nothing in the queue changes
    nothing. *)
Theorem withdrawAnswer_nothing_queued sid s roomId nick room :
  sockets s !! sid = Some (mkSocket (Some roomId) (Some nick)) →
  rooms s !! roomId = Some room →
  ¬ Exists (λ q, sub_nickname q = nick) (validationQueue room) →
  withdrawAnswer sid s = s.
Proof.
  intros Hs Hr Hnone. unfold withdrawAnswer. rewrite Hs.
  case_match; [done|]. rewrite Hr. lazy zeta.
  assert (Hf : filter (λ q, sub_nickname q ≠ nick) (validationQueue room)
               = validationQueue room).
  { apply filter_all. by apply Forall_Exists_neg. }
  rewrite Hf.
  rewrite bool_decide_eq_false_2 by lia. simpl.
  apply modRoom_id. intros r. rewrite Hr. intros [= <-]. by destruct room.
Qed.

(** X12. Withdrawing the answer that is being voted on ends the vote without
    a verdict: the session is closed, every pending countdown of it is
    cancelled, the player's entries leave the queue, nobody scores and the
    cache is untouched; the queue is then processed from that state. *)
Theorem withdrawAnswer_aborts_vote sid s roomId nick room v p :
  sockets s !! sid = Some (mkSocket (Some roomId) (Some nick)) →
  roomId ≠ [] → nick ≠ [] →
  rooms s !! roomId = Some room →
  currentVote room = Some v →
  sub_nickname (submission v) = nick →
  players room !! nick = Some p →
  Exists (λ q, sub_nickname q = nick) (validationQueue room) →
  ∃ aborted room',
    withdrawAnswer sid s = processValidationQueue roomId aborted
    ∧ rooms aborted !! roomId = Some room'
    ∧ currentVote room' = None
    ∧ validationQueue room'
      = filter (λ q, sub_nickname q ≠ nick) (validationQueue room)
    ∧ players room' = players room
    ∧ usedSentences room' = usedSentences room
    ∧ (∀ voter t, timeouts v !! voter = Some t → timers aborted !! t = None)
    ∧ localCache aborted = localCache s
    ∧ choiceTimeouts aborted = choiceTimeouts s.
Proof.
  intros Hs Hrid Hn Hr Hv Hsub Hp Hex. unfold withdrawAnswer. rewrite Hs.
  destruct roomId as [|r0 roomId]; [done|]. destruct nick as [|c0 nick]; [done|].
  simpl negb. simpl orb. cbv iota. rewrite Hr, Hv, Hp. lazy zeta.
  rewrite (bool_decide_eq_true_2 _ Hsub).
  rewrite (bool_decide_eq_true_2 (is_Some (Some p))) by eauto.
  rewrite bool_decide_eq_true_2; cycle 1.
  { clear -Hex. induction Hex as [q l Hq|q l _ IH].
    - rewrite filter_cons, decide_False by (by intros ?). simpl.
      pose proof (length_filter (λ q, sub_nickname q ≠ c0 :: nick) l). lia.
    - rewrite filter_cons. case_decide; simpl; lia. }
  simpl andb. cbv iota.
  match goal with
  | |- ∃ _ _, processValidationQueue _ ?x = _ ∧ _ => set (ab := x)
  end.
  assert (G1 : ∃ room', rooms ab !! (r0 :: roomId) = Some room'
    ∧ currentVote room' = None
    ∧ validationQueue room'
      = filter (λ q, sub_nickname q ≠ c0 :: nick) (validationQueue room)
    ∧ players room' = players room
    ∧ usedSentences room' = usedSentences room).
  { subst ab. rewrite rooms_broadcastGameState, rooms_broadcastMessage,
      lookup_alter_eq, rooms_modRoom, lookup_alter_eq, rooms_clearTimeouts,
      rooms_broadcastMessage, lookup_alter_eq, rooms_modRoom, lookup_alter_eq, Hr.
    eexists. split; [reflexivity|]. done. }
  assert (G2 : timers ab = foldr delete (timers s) (map_to_list (timeouts v)).*2).
  { subst ab. rewrite timers_broadcastGameState, timers_broadcastMessage,
      timers_modRoom.
    generalize ((map_to_list (timeouts v)).*2). intros l.
    induction l as [|x l IH]; simpl; [by rewrite timers_broadcastMessage|].
    by rewrite IH. }
  assert (G3 : localCache ab = localCache s).
  { subst ab. rewrite localCache_broadcastGameState, localCache_broadcastMessage.
    change (localCache (modRoom ?a ?b ?c)) with (localCache c).
    by rewrite localCache_clearTimeouts, localCache_broadcastMessage. }
  assert (G4 : choiceTimeouts ab = choiceTimeouts s).
  { subst ab. rewrite choiceTimeouts_broadcastGameState, choiceTimeouts_broadcastMessage.
    change (choiceTimeouts (modRoom ?a ?b ?c)) with (choiceTimeouts c).
    by rewrite choiceTimeouts_clearTimeouts, choiceTimeouts_broadcastMessage. }
  clearbody ab. destruct G1 as (room' & G1 & ? & ? & ? & ?).
  exists ab, room'. repeat split; try done.
  intros voter t Ht. rewrite G2.
  assert (Hin : t ∈ (map_to_list (timeouts v)).*2).
  { apply list_elem_of_fmap. exists (voter, t). split; [done|].
    by apply elem_of_map_to_list. }
  revert Hin. generalize ((map_to_list (timeouts v)).*2). intros l Hin.
  induction l as [|x l IH]; [by apply elem_of_nil in Hin|]. simpl.
  destruct (decide (t = x)) as [->|Hne]; [apply lookup_delete_eq|].
  rewrite lookup_delete_ne by done. apply IH.
  apply elem_of_cons in Hin as [?|?]; done.
Qed.
End Withdrawing.

(** ** The cache under the admin requests *)

Section Cache.
Context {U : Unicode}.

Lemma strLe_total a b : strLe a b = false → strLe b a = true.
Proof.
  revert b. induction a as [|x a IH]; intros [|y b]; simpl; try done.
  intros [Hlt H]%orb_false_iff. apply N.ltb_ge in Hlt.
  destruct (N.eq_dec x y) as [->|Hne].
  - rewrite N.eqb_refl in *. simpl in *. rewrite IH by done. apply orb_true_r.
  - assert (y < x) as ->%N.ltb_lt by lia. done.
Qed.

Lemma insertSorted_HdRel x y l :
  strLeP y x → HdRel strLeP y l → HdRel strLeP y (insertSorted x l).
Proof.
  intros Hyx Hl. destruct l as [|z l]; simpl; [by constructor|].
  case_match; constructor; [done|]. by inversion Hl.
Qed.

Lemma insertSorted_Sorted x l : Sorted strLeP l → Sorted strLeP (insertSorted x l).
Proof.
  induction 1 as [|y l Hs IH Hhd]; simpl; [by repeat constructor|].
  destruct (strLe x y) eqn:E.
  - constructor; [by constructor|by constructor].
  - constructor; [done|]. apply insertSorted_HdRel; [|done].
    by apply strLe_total.
Qed.

Lemma sort_Sorted l : Sorted strLeP (sort l).
Proof.
  induction l as [|x l IH]; simpl; [constructor|]. by apply insertSorted_Sorted.
Qed.

(** X28. The admin request to add a sentence stores its normalised form. A
    sentence of which nothing is left, or one that is in the cache, is
    refused and nothing changes; otherwise the cache gains that one entry
    and is put in ascending order as a whole. *)
Theorem adminCacheAdd_outcome sentence s :
  let key := normalizeSentence sentence in
  let s' := adminCacheAdd sentence s in
  (key = [] ∨ key ∈ localCache s → s' = s)
  ∧ (key ≠ [] → key ∉ localCache s →
     localCache s' ≡ₚ key :: localCache s
     ∧ Sorted strLeP (localCache s')
     ∧ rooms s' = rooms s).
Proof.
  intros key s'. subst s'. unfold adminCacheAdd, contains. fold key. split.
  - intros [->|Hin]; [done|]. rewrite (bool_decide_eq_true_2 _ Hin).
    by rewrite andb_false_r.
  - intros Hne Hout. rewrite (bool_decide_eq_false_2 _ Hout).
    destruct key as [|k0 key']; [done|]. simpl. split; [|split; [|done]].
    + rewrite sort_Permutation. by rewrite Permutation_app_comm.
    + apply sort_Sorted.
Qed.

Lemma removeFirst_elem x l y :
  y ∈ removeFirst x l → y ∈ l.
Proof. intros H. eapply elem_of_sublist; [done|apply removeFirst_sublist]. Qed.

Lemma removeFirst_NoDup x l :
  NoDup l → (x ∉ removeFirst x l) ∧ ∀ y, y ≠ x → y ∈ l → y ∈ removeFirst x l.
Proof.
  induction 1 as [|z l Hz Hnd IH]; simpl; [split; [by intros ?%elem_of_nil|done]|].
  case_decide as E.
  - subst z. split; [done|]. intros y Hy [->|?]%elem_of_cons; done.
  - destruct IH as [IH1 IH2]. split.
    + intros [->|?]%elem_of_cons; done.
    + intros y Hy [->|?]%elem_of_cons; [by left|]. right. by apply IH2.
Qed.

(** X29. The admin request to delete a sentence removes its normalised form
    from a cache without duplicates, keeps every other entry and their
    order; a sentence that is not in the cache changes nothing. *)
Theorem adminCacheDelete_outcome sentence s :
  NoDup (localCache s) →
  let key := normalizeSentence sentence in
  let s' := adminCacheDelete sentence s in
  (key ∉ localCache s')
  ∧ (∀ x, x ≠ key → x ∈ localCache s' ↔ x ∈ localCache s)
  ∧ sublist (localCache s') (localCache s)
  ∧ (key ∉ localCache s → s' = s).
Proof.
  intros Hnd key s'. subst s'. unfold adminCacheDelete, contains. fold key.
  case_bool_decide as Hin; simpl.
  - destruct (removeFirst_NoDup key _ Hnd) as [H1 H2].
    split; [done|]. split; [|split; [apply removeFirst_sublist|done]].
    intros x Hx. split; [apply removeFirst_elem|by apply H2].
  - done.
Qed.
End Cache.

(** ** Submitting during a vote *)

Section Waiting.
Context {U : Unicode}.

Lemma processValidationQueue_busy roomId s v :
  voteOf roomId s = Some v → processValidationQueue roomId s = s.
Proof.
  unfold voteOf. intros Hv. rewrite processValidationQueue_flat.
  unfold processValidationQueue_.
  destruct (rooms s !! roomId) as [room|]; [|done]. simpl in Hv. by rewrite Hv.
Qed.

(** X4. An answer submitted while a vote is running never touches the
    vote: the session, the timers, the choice sessions and the cache stay
    as they are, and the room changes at most by that answer joining the
    end of the queue. *)
Theorem handlePlayerInput_during_vote sid roomId ans s room v :
  rooms s !! roomId = Some room → currentVote room = Some v →
  let s' := handlePlayerInput sid roomId ans s in
  timers s' = timers s
  ∧ choiceTimeouts s' = choiceTimeouts s
  ∧ localCache s' = localCache s
  ∧ (rooms s' = rooms s
     ∨ ∃ nick, sockets s !! sid ≫= sock_nickname = Some nick
        ∧ rooms s' = <[roomId := setRoom_validationQueue
                         (validationQueue room ++ [mkSubmission (trim ans) nick]) room]>
                       (rooms s)).
Proof.
  intros Hr Hv s'. subst s'. unfold handlePlayerInput. rewrite Hr.
  destruct (sockets s !! sid ≫= sock_nickname) as [nick|]; [|by auto].
  repeat case_match; try (by auto).
  pose proof (rooms_enqueue roomId (mkSubmission (trim ans) nick) s room Hr) as He.
  unfold enqueue in He.
  rewrite (processValidationQueue_busy _ _ v).
  - rewrite timers_broadcastGameState, choiceTimeouts_broadcastGameState,
      localCache_broadcastGameState, rooms_broadcastGameState.
    repeat split; try done. right. by exists nick.
  - unfold voteOf. rewrite rooms_broadcastGameState, He, lookup_insert_eq. done.
Qed.
End Waiting.

(** ** Casting a vote *)

Section Casting.
Context {U : Unicode}.

(** X7. The vote of a voter who has none on record is recorded as sent, its
    countdown is cancelled and no other timer is touched; the vote is
    closed by [handleVoteEnd] at once when the votes on record are then as
    many as the voters, and stays open otherwise. *)
Theorem handlePlayerVote_records sid roomId vote s room v nick p :
  rooms s !! roomId = Some room → currentVote room = Some v →
  sockets s !! sid ≫= sock_nickname = Some nick → nick ≠ [] →
  players room !! nick = Some p →
  nick ∈ voters v → notVoted v nick = true →
  let v' := v ▷ setVote_timeouts (delete nick (timeouts v))
              ▷ setVote_votes (<[nick := vote]> (votes v)) in
  ∃ recorded,
    voteOf roomId recorded = Some v'
    ∧ (∀ t, timeouts v !! nick = Some t → timers recorded !! t = None)
    ∧ (∀ t, timeouts v !! nick ≠ Some t → timers recorded !! t = timers s !! t)
    ∧ handlePlayerVote sid roomId vote s
      = (if bool_decide (length (voters v) ≤ size (<[nick := vote]> (votes v)))%nat
         then handleVoteEnd roomId recorded else recorded).
Proof.
  intros Hr Hv Hs Hn Hp Hin Hnv v'. unfold handlePlayerVote.
  rewrite Hr, Hs, Hv, Hp, Hnv. unfold contains.
  rewrite (bool_decide_eq_true_2 _ Hin). destruct nick as [|c0 nick]; [done|].
  simpl andb. cbv iota.
  match goal with
  | |- ∃ _, _ ∧ _ ∧ _ ∧ endVoteIfComplete _ ?x = _ => set (rec := x)
  end.
  assert (G1 : voteOf roomId rec = Some v').
  { subst rec. unfold voteOf.
    rewrite rooms_broadcastGameState, rooms_broadcastMessage, lookup_alter_eq.
    unfold modVote. rewrite !rooms_modRoom, !lookup_alter_eq, rooms_clearTimeout, Hr.
    cbn [fmap option_fmap option_map mbind option_bind].
    simpl. by rewrite Hv. }
  assert (G2 : timers rec = timers (clearTimeout (timeouts v !! (c0 :: nick)) s)).
  { subst rec. by rewrite timers_broadcastGameState, timers_broadcastMessage. }
  clearbody rec. exists rec. split; [done|]. split; [|split].
  - intros t Ht. rewrite G2, Ht. apply lookup_delete_eq.
  - intros t Ht. rewrite G2. destruct (timeouts v !! (c0 :: nick)) as [t'|]; [|done].
    simpl. apply lookup_delete_ne. congruence.
  - unfold endVoteIfComplete. unfold voteOf in G1. by rewrite G1.
Qed.
End Casting.

(** ** The message log *)

Section Logging.
Context {U : Unicode}.

(** X17. [broadcastMessage] in a room whose log holds at most 50 messages:
    the message, stamped with the current time, is sent to the room and
    becomes the last of the log, and the log is then the last 50 of the old
    log followed by the message. Nothing else in the room changes. *)
Theorem broadcastMessage_keeps_latest roomId c s room :
  rooms s !! roomId = Some room → (length (messages room) ≤ 50)%nat →
  let s' := broadcastMessage roomId c s in
  let m := mkMessage c GameMessage (now s) in
  outbox s' = outbox s ++ [ToRoom roomId (NewMessage m)]
  ∧ ∃ room',
      rooms s' = <[roomId := room']> (rooms s)
      ∧ messages room'
        = drop (length (messages room) + 1 - 50) (messages room ++ [m])
      ∧ last (messages room') = Some m
      ∧ players room' = players room
      ∧ validationQueue room' = validationQueue room
      ∧ currentVote room' = currentVote room
      ∧ usedSentences room' = usedSentences room
      ∧ currentStartChar room' = currentStartChar room.
Proof.
  intros Hr Hlen s' m. subst s'. unfold broadcastMessage. rewrite Hr.
  lazy zeta. split; [done|].
  eexists. split; [unfold modRoom; simpl; by apply alter_present|].
  simpl. fold m. rewrite length_app. simpl.
  case_bool_decide as Hfull.
  - assert (length (messages room) = 50)%nat as Heq by lia. rewrite Heq. simpl.
    destruct (messages room) as [|m0 l] eqn:El; [done|]. simpl.
    split; [done|]. split; [apply last_snoc|done].
  - replace (length (messages room) + 1 - 50)%nat with 0%nat by lia. simpl.
    split; [done|]. split; [apply last_snoc|done].
Qed.
End Logging.

(** ** Dropping out and coming back *)

Section RoundTrip.
Context {U : Unicode}.

Lemma reconnectTimeouts_broadcastMessage roomId c s :
  reconnectTimeouts (broadcastMessage roomId c s) = reconnectTimeouts s.
Proof. unfold broadcastMessage. by case_match. Qed.

Lemma nextTimer_broadcastMessage roomId c s :
  nextTimer (broadcastMessage roomId c s) = nextTimer s.
Proof. unfold broadcastMessage. by case_match. Qed.

Lemma now_broadcastMessage roomId c s : now (broadcastMessage roomId c s) = now s.
Proof. unfold broadcastMessage. by case_match. Qed.

(** X24. A player who drops out of a room that is not permanent, while no
    vote is running, is kept as an offline record stamped with the time,
    and a grace timer due 30000 ms later is registered under the nickname.
    Reconnecting then brings back the same record, nickname and score
    included, online under the new socket, and cancels that timer. *)
Theorem disconnect_then_reconnect sid sid' roomId nick s room p :
  sockets s !! sid = Some (mkSocket (Some roomId) (Some nick)) →
  roomId ≠ [] → nick ≠ [] →
  rooms s !! roomId = Some room → players room !! nick = Some p →
  isPermanent room = false → currentVote room = None →
  let s1 := handlePlayerDisconnect sid false s in
  let s2 := reconnectPlayer sid' roomId nick s1 in
  (∃ room1, rooms s1 !! roomId = Some room1
            ∧ players room1 = <[nick := goOffline (now s) p]> (players room))
  ∧ reconnectTimeouts s1 !! nick = Some (nextTimer s)
  ∧ timers s1 !! nextTimer s
    = Some ((now s + 30000)%Z, ReconnectGrace roomId nick)
  ∧ (∃ room2, rooms s2 !! roomId = Some room2
              ∧ players room2 = <[nick := comeBack sid' p]> (players room))
  ∧ reconnectTimeouts s2 !! nick = None
  ∧ timers s2 !! nextTimer s = None
  ∧ sockets s2 !! sid' = Some (mkSocket (Some roomId) (Some nick)).
Proof.
  intros Hs Hrid Hn Hr Hp Hperm Hv s1.
  assert (G : ∃ room1, rooms s1 !! roomId = Some room1
                ∧ players room1 = <[nick := goOffline (now s) p]> (players room)
                ∧ currentVote room1 = None
                ∧ reconnectTimeouts s1 !! nick = Some (nextTimer s)
                ∧ timers s1 !! nextTimer s
                  = Some ((now s + 30000)%Z, ReconnectGrace roomId nick)).
  { subst s1. unfold handlePlayerDisconnect. rewrite Hs.
    destruct roomId as [|r0 roomId]; [done|]. destruct nick as [|c0 nick]; [done|].
    simpl negb. simpl orb. cbv iota. rewrite Hr, Hp, Hperm. lazy zeta. cbv iota.
    unfold disconnectTail. rewrite Hv.
    set (s0 := broadcastMessage _ _ _).
    assert (H0 : rooms s0 !! (r0 :: roomId)
                 = Some (logMessage (mkMessage (MsgDisconnected (nickname p)) GameMessage (now s))
                           (setRoom_players (alter (goOffline (now s)) (c0 :: nick)) room))).
    { subst s0. rewrite rooms_broadcastMessage, lookup_alter_eq. unfold modPlayer.
      by rewrite rooms_modRoom, lookup_alter_eq, Hr. }
    assert (H1 : nextTimer s0 = nextTimer s).
    { subst s0. by rewrite nextTimer_broadcastMessage. }
    assert (H2 : now s0 = now s).
    { subst s0. by rewrite now_broadcastMessage. }
    clearbody s0.
    set (s3 := set_reconnectTimeouts _ _).
    assert (H3 : rooms s3 = rooms s0) by done.
    assert (H4 : reconnectTimeouts s3 !! (c0 :: nick) = Some (nextTimer s)).
    { subst s3. simpl. rewrite H1. apply lookup_insert_eq. }
    assert (H5 : timers s3 !! nextTimer s
                 = Some ((now s + 30000)%Z, ReconnectGrace (r0 :: roomId) (c0 :: nick))).
    { subst s3. simpl. rewrite H1, H2. apply lookup_insert_eq. }
    clearbody s3. cbv beta. rewrite H3, H0.
    rewrite rooms_broadcastRoomList, rooms_broadcastGameState, H3, H0.
    rewrite reconnectTimeouts_broadcastRoomList, reconnectTimeouts_broadcastGameState.
    rewrite timers_broadcastRoomList, timers_broadcastGameState.
    eexists. split; [done|]. simpl. split; [by apply alter_present|]. done. }
  clearbody s1. destruct G as (room1 & Hr1 & Hp1 & Hv1 & Ht1 & Htm1).
  intros s2. split; [eauto|]. split; [done|]. split; [done|].
  assert (Hp1' : players room1 !! nick = Some (goOffline (now s) p)).
  { rewrite Hp1. apply lookup_insert_eq. }
  subst s2. unfold reconnectPlayer. rewrite Hr1, Hp1'. simpl online. cbv iota.
  rewrite Hv1, Ht1.
  rewrite rooms_broadcastRoomList, rooms_broadcastGameState,
    reconnectTimeouts_broadcastRoomList, reconnectTimeouts_broadcastGameState,
    timers_broadcastRoomList, timers_broadcastGameState,
    sockets_broadcastRoomList, sockets_broadcastGameState.
  rewrite rooms_broadcastMessage, lookup_alter_eq, reconnectTimeouts_broadcastMessage,
    timers_broadcastMessage.
  split; [|split; [|split]].
  - unfold modPlayer. cbn [rooms emit setSocket set_sockets].
    rewrite rooms_modRoom, lookup_alter_eq. cbn [rooms set_reconnectTimeouts clearTimeout set_timers].
    rewrite Hr1. eexists. split; [done|]. simpl.
    rewrite (alter_present _ _ _ _ Hp1'), Hp1. by rewrite insert_insert_eq.
  - simpl. apply lookup_delete_eq.
  - simpl. apply lookup_delete_eq.
  - unfold broadcastMessage. case_match; simpl; apply lookup_insert_eq.
Qed.
End RoundTrip.

(** ** A countdown that runs out *)

Section Countdown.
Context {U : Unicode}.

(** X8. A countdown that runs out for a nickname without a vote on record
    counts as an approval, whether or not the nickname is among the
    voters: ['valid'] is recorded under it, its handle is forgotten, no
    timer is touched, and the vote is closed by [handleVoteEnd] at once
    when the votes on record are then as many as the voters. *)
Theorem handleVoteTimeout_records roomId nick s v :
  voteOf roomId s = Some v → notVoted v nick = true →
  let v' := v ▷ setVote_votes (<[nick := VALID]> (votes v))
              ▷ setVote_timeouts (delete nick (timeouts v)) in
  ∃ recorded,
    voteOf roomId recorded = Some v'
    ∧ timers recorded = timers s
    ∧ handleVoteTimeout roomId nick s
      = (if bool_decide (length (voters v) ≤ size (<[nick := VALID]> (votes v)))%nat
         then handleVoteEnd roomId recorded else recorded).
Proof.
  intros Hv Hnv v'. unfold handleVoteTimeout. unfold voteOf in Hv.
  rewrite Hv, Hnv. simpl negb. cbv iota.
  match goal with
  | |- ∃ _, _ ∧ _ ∧ endVoteIfComplete _ ?x = _ => set (rec := x)
  end.
  assert (G1 : voteOf roomId rec = Some v').
  { subst rec. unfold voteOf.
    rewrite rooms_broadcastGameState, rooms_broadcastMessage, lookup_alter_eq.
    unfold modVote. rewrite !rooms_modRoom, !lookup_alter_eq.
    destruct (rooms s !! roomId) as [room|]; [|done]. simpl in *. by rewrite Hv. }
  assert (G2 : timers rec = timers s).
  { subst rec. by rewrite timers_broadcastGameState, timers_broadcastMessage. }
  clearbody rec. exists rec. split; [done|]. split; [done|].
  unfold endVoteIfComplete. unfold voteOf in G1. by rewrite G1.
Qed.
End Countdown.

(** ** The admin data listing *)

Section AdminData.
Context {U : Unicode}.

(** X30. The admin data response lists the cache in ascending order, with
    the same entries as the stored cache, whose order it does not change;
    and it lists every room once. *)
Theorem adminData_outcome s :
  Sorted strLeP (adminData s).2
  ∧ (adminData s).2 ≡ₚ localCache s
  ∧ length (adminData s).1 = size (rooms s)
  ∧ ∀ roomId r, rooms s !! roomId = Some r →
      (room_id r, onlineCount r, isPermanent r) ∈ (adminData s).1.
Proof.
  unfold adminData. simpl. split; [apply sort_Sorted|].
  split; [apply sort_Permutation|]. split.
  - by rewrite !length_fmap, length_map_to_list.
  - intros roomId r Hr. apply list_elem_of_fmap. exists r. split; [done|].
    apply list_elem_of_fmap. exists (roomId, r). split; [done|].
    by apply elem_of_map_to_list.
Qed.
End AdminData.

(** * Concrete runs

    The engine evaluated on small traces, with the runtime tables
    restricted to Basic Latin. *)

Module Runs.
#[local] Existing Instance latin.
Import Traces Scenes.

(** [handleVoteEnd] on the vote of [threeVoting], in which one of the two
    voters has approved: one approval is below the threshold of two, the
    answer fails. *)
Lemma handleVoteEnd_majority_witness :
  let s := run threeVoting initial in
  rooms s !! R = Some (theRoom s)
  ∧ currentVote (theRoom s) = Some (theVote s)
  ∧ length (voters (theVote s)) = 2%nat
  ∧ votes (theVote s) = {[B := VALID]}
  ∧ ∃ s1, localCache s1 = localCache s
          ∧ handleVoteEnd R s = processValidationQueue R s1.
Proof.
  intros s.
  assert (H1 : rooms s !! R = Some (theRoom s)) by (vm_compute; reflexivity).
  assert (H2 : currentVote (theRoom s) = Some (theVote s))
    by (vm_compute; reflexivity).
  split; [exact H1|]. split; [exact H2|].
  split; [vm_compute; reflexivity|]. split; [vm_compute; reflexivity|].
  destruct (handleVoteEnd_majority R s (theRoom s) (theVote s) H1 H2)
    as (verdict & s1 & _ & _ & _ & Hvoted & _ & Hfail).
  exists s1. apply Hfail.
  destruct Hvoted as [[Hp|Hf] Hiff]; [by vm_compute| |exact Hf].
  apply Hiff in Hp. vm_compute in Hp. lia.
Defined.

(** C1: a vote with an empty voter set is never concluded. A, alone in R,
    submits an answer that is not in the cache: the vote opens with no
    voter and no countdown. Nothing calls [handleVoteEnd] for it: A's own
    vote is ignored, no timer is pending however much time passes, and B,
    who joins afterwards, is not a voter and B's vote is ignored too. An
    hour later the vote is still open, A's score is 0 and the cache is
    empty; [handleVoteEnd], had it been called when the vote opened,
    passes the answer at once. *)
Lemma vote_without_voters_stays_open :
  let s := run soloVote initial in
  let u := run [Connect 2; JoinRoom 2 R B; SubmitVote 2 VALID;
                ClockAdvances 3600000] s in
  voters (theVote s) = [] ∧ votes (theVote s) = ∅ ∧ timers s = ∅
  ∧ submission (theVote s) = mkSubmission moonX A
  ∧ validationQueue (theRoom s) = [mkSubmission moonX A]
  ∧ step (SubmitVote 1 VALID) s = s
  ∧ voteOf R u = voteOf R s ∧ timers u = ∅
  ∧ score (thePlayer A u) = 0%Z ∧ localCache u = []
  ∧ voteOf R (handleVoteEnd R s) = None
  ∧ score (thePlayer A (handleVoteEnd R s)) = 1%Z
  ∧ localCache (handleVoteEnd R s) = [moonX]
  ∧ ∀ ms t, step (TimerFires t) (step (ClockAdvances ms) s)
            = step (ClockAdvances ms) s.
Proof.
  intros s u.
  do 13 (split; [vm_compute; reflexivity|]).
  intros ms t. unfold step at 1.
  assert (E : timers (step (ClockAdvances ms) s) = ∅) by (vm_compute; reflexivity).
  rewrite E. by rewrite lookup_empty.
Qed.

(** [handleVoteEnd] shifts the head of the queue, whichever entry that is.
    In [strayEntry] the vote is on A's answer, but A has left and
    withdrawn: the queue holds B's answer only, and the vote goes on. When
    B and C reject A's answer, it is B's answer, never examined, that is
    dropped. *)
Lemma failed_vote_drops_another_entry :
  let s := run strayEntry initial in
  let s' := run [SubmitVote 2 INVALID; SubmitVote 3 INVALID] s in
  submission (theVote s) = mkSubmission moonX A
  ∧ validationQueue (theRoom s) = [mkSubmission moonY B]
  ∧ voteOf R s' = None
  ∧ validationQueue (theRoom s') = []
  ∧ last (messages (theRoom s'))
    = Some (mkMessage (MsgVoteFailed moonX) GameMessage 0)
  ∧ localCache s' = [].
Proof. vm_compute. repeat split; reflexivity. Qed.

(** Witness of C2: in [voting], A submits a second time. *)
Lemma handlePlayerInput_intake_witness :
  let s := run voting initial in
  handlePlayerInput 1 R moonlight s = privately 1 TipAlreadySubmitted s.
Proof.
  intros s.
  apply (handlePlayerInput_intake 1 R moonlight s (theRoom s) A).
  - vm_compute; reflexivity.
  - vm_compute; reflexivity.
  - vm_compute; discriminate.
  - vm_compute; eexists; reflexivity.
  - vm_compute. apply Exists_cons_hd. reflexivity.
Defined.

(** Counterexample to C2 as stated: a text of two spaces is rejected and
    nothing at all is sent to the submitter. *)
Lemma empty_submission_is_rejected_silently :
  let s := run twoPlayers initial in
  let s' := step (SubmitAnswer 1 (js "  ")) s in
  trim (js "  ") = [] ∧ rooms s' = rooms s ∧ outbox s' = outbox s.
Proof. vm_compute. repeat split; reflexivity. Qed.

(** Witness of C3: A's answer is accepted in [twoPlayers] while B's is
    queued behind it. A's score goes from 0 to 1 and B's record is as it
    was, the queue is empty, the ring holds the answer, and the choice
    session and its timer are due at 15000. *)
Lemma handleCorrectAnswer_accepts_witness :
  let s := enqueue R (mkSubmission moonX B) (run twoPlayers initial) in
  let s' := handleCorrectAnswer R (mkSubmission moonlight A) s in
  rooms s !! R = Some (theRoom s)
  ∧ validationQueue (theRoom s) = [mkSubmission moonX B]
  ∧ score (thePlayer A s) = 0%Z
  ∧ score (thePlayer A s') = 1%Z
  ∧ thePlayer B s' = thePlayer B s
  ∧ validationQueue (theRoom s') = []
  ∧ usedSentences (theRoom s') = [moonlight]
  ∧ choiceTimeouts s' !! R
    = Some {| winnerNickname := A; choice_answer := moonlight;
              choice_endTime := 15000; timer := 0 |}
  ∧ timers s' !! 0 = Some (15000%Z, ChoiceWindow R moonlight).
Proof.
  intros s s'.
  assert (H1 : rooms s !! R = Some (theRoom s)) by (vm_compute; reflexivity).
  split; [exact H1|].
  split; [vm_compute; reflexivity|]. split; [vm_compute; reflexivity|].
  pose proof (handleCorrectAnswer_accepts R (mkSubmission moonlight A) s
                (theRoom s) H1) as T.
  cbv zeta in T.
  assert (Hp : players (theRoom s) !! sub_nickname (mkSubmission moonlight A)
               = Some (thePlayer A s)) by (vm_compute; reflexivity).
  rewrite Hp in T.
  destruct T as ((room' & Hrooms & Hplayers & Hqueue & Hbelow & _ & _)
                 & Hc & Ht & _).
  assert (Hroom : theRoom s' = room').
  { unfold theRoom. subst s'. rewrite Hrooms. by rewrite lookup_insert_eq. }
  unfold thePlayer. rewrite !Hroom, Hplayers, Hqueue, Hbelow
    by (vm_compute; lia).
  subst s'. rewrite Hc, Ht.
  repeat split; vm_compute; reflexivity.
Defined.



(** C5: an ungraceful disconnect of the only voter. In a permanent room
    the handler returns before it reaches the vote: the session is left
    as it was, with no vote recorded and the voter's countdown still
    pending. In an ordinary room the same event records the vote and
    concludes the session. *)
Lemma permanent_room_disconnect_leaves_vote_waiting :
  let s := run permanentVoting initial in
  let s' := step (Disconnect 2) s in
  let t' := step (Disconnect 2) (run voting initial) in
  isPermanent (theRoom s) = true
  ∧ voters (theVote s) = [B] ∧ notVoted (theVote s) B = true
  ∧ online (thePlayer B s') = false
  ∧ voteOf R s' = voteOf R s
  ∧ votes (theVote s') = ∅
  ∧ timers s' !! 0 = Some (15000%Z, VoteCountdown R B)
  ∧ voteOf R t' = None
  ∧ score (thePlayer A t') = 1%Z.
Proof. vm_compute. repeat split; reflexivity. Qed.

(** Counterexample to C6 as stated: after the admin deleted R in the
    middle of a vote the voter's countdown is still pending, and after
    the last player left R the choice timer is still pending. *)
Lemma timers_survive_destruction :
  let s := run (voting ++ [AdminDeleteRoom R]) initial in
  let t := run winAndLeave initial in
  rooms s !! R = None
  ∧ timers s !! 0 = Some (15000%Z, VoteCountdown R B)
  ∧ rooms t !! R = None
  ∧ timers t !! 0 = Some (15000%Z, ChoiceWindow R moonlight).
Proof. vm_compute. repeat split; reflexivity. Qed.

(** Witness of C6, amended: in [lastVoter] the countdowns of B and C are
    pending; B, the last player, leaves. The room is removed, B's own
    countdown is cancelled and C's stays pending. *)
Lemma destroyed_room_timers_stay_pending_witness :
  let s := run lastVoter initial in
  let s' := step (LeaveRoom 2) s in
  ∃ tB tC,
    timeouts (theVote s) !! B = Some tB
    ∧ timeouts (theVote s) !! C = Some tC
    ∧ timers s !! tB = Some (15000%Z, VoteCountdown R B)
    ∧ timers s !! tC = Some (15000%Z, VoteCountdown R C)
    ∧ rooms s' !! R = None
    ∧ timers s' !! tB = None
    ∧ timers s' !! tC = Some (15000%Z, VoteCountdown R C).
Proof.
  intros s s'.
  exists (default 0 (timeouts (theVote s) !! B)),
         (default 0 (timeouts (theVote s) !! C)).
  do 4 (split; [vm_compute; reflexivity|]).
  assert (E : s' = handlePlayerDisconnect 2 true s) by (vm_compute; reflexivity).
  destruct (proj1 (proj2 (proj2 (proj2 (proj2 destroyed_room_timers_stay_pending))))
              2 R B s (theRoom s) (thePlayer B s)
              ltac:(vm_compute; reflexivity) ltac:(discriminate)
              ltac:(discriminate) ltac:(vm_compute; reflexivity)
              ltac:(vm_compute; reflexivity) ltac:(vm_compute; reflexivity))
    as (G1 & G2 & G3).
  rewrite E. split; [exact G1|].
  split; [apply (G3 ltac:(vm_compute; reflexivity) (theVote s)); vm_compute;
          [reflexivity|by repeat constructor|reflexivity..]|].
  rewrite G2; [vm_compute; reflexivity|].
  intros v Hv.
  assert (Hv' : currentVote (theRoom s) = Some (theVote s))
    by (vm_compute; reflexivity).
  rewrite Hv' in Hv. apply (inj Some) in Hv. rewrite <- Hv.
  vm_compute. discriminate.
Defined.

(** A room created again under the id of a deleted one meets the timers
    of the old one. In [recreated] the countdown of B, a voter of the
    deleted room, is still pending; C is alone in the new room R, with a
    vote open that has no voter. When the old countdown fires, a vote is
    recorded for B, who has no record in the new room, and the vote ends:
    C's answer passes. *)
Lemma stale_countdown_acts_on_recreated_room :
  let s := run recreated initial in
  let s' := step (TimerFires 0) s in
  timers s !! 0 = Some (15000%Z, VoteCountdown R B)
  ∧ players (theRoom s) !! B = None
  ∧ submission (theVote s) = mkSubmission moonY C
  ∧ voters (theVote s) = []
  ∧ voteOf R s' = None
  ∧ score (thePlayer C s') = 1%Z
  ∧ localCache s' = [moonY].
Proof. vm_compute. repeat split; reflexivity. Qed.

(** C7: with the nickname A offline in two rooms, reconnecting to R
    cancels the eviction timer of R2's player and leaves the one of R's
    player pending. R2's record has no timer left. R's player, dropping
    out again at 20 s, is evicted when the old timer fires at 30 s, and
    the reconnection attempted then is refused. *)
Lemma reconnect_cancels_the_other_rooms_timer :
  let s := run twoRooms initial in
  let t := run evictedEarly initial in
  online (thePlayer A s) = true
  ∧ timers s !! 0 = Some (30000%Z, ReconnectGrace R A)
  ∧ (rooms s !! R2 ≫= λ r, online <$> players r !! A) = Some false
  ∧ timers s !! 1 = None
  ∧ now t = 30000%Z
  ∧ players (theRoom t) !! A = None
  ∧ last (outbox t) = Some (ToSocket 6 (ReconnectError CannotReconnect)).
Proof. vm_compute. repeat split; reflexivity. Qed.

(** Witness of C8: the queue of R after [overlap]. *)
Lemma queue_one_entry_per_nickname_witness :
  NoDup (sub_nickname <$> validationQueue (theRoom (run overlap initial))).
Proof.
  apply (proj1 queue_one_entry_per_nickname (run overlap initial)
           (reachable_run overlap initial reachable_initial) R).
  vm_compute; reflexivity.
Defined.

(** Counterexample to C9 as stated: with Bob and bob both offline, a join
    as "bob" differs from the offline record "Bob" only in case and is not
    held by anyone online, yet it is routed to [reconnectPlayer]: the
    existing record, with its score of 1, is put back online. *)
Lemma case_variant_join_reconnects :
  let s := run caseTwins initial in
  let s' := step (JoinRoom 3 R bob) s in
  online (thePlayer Bob s) = false
  ∧ Bob ≠ bob ∧ toLowerCase Bob = toLowerCase bob
  ∧ isTakenOnline (theRoom s) bob = false
  ∧ s' = reconnectPlayer 3 R bob s
  ∧ players (theRoom s') !! bob
    = Some {| nickname := bob; score := 1; online := true; socketId := 3;
              disconnectTime := None |}.
Proof. vm_compute. repeat split; try reflexivity. discriminate. Qed.

(** Witness of C9, amended: bob joins while Bob is offline. *)
Lemma joinRoom_case_variant_witness :
  let s := run bobOffline initial in
  rooms (joinRoom 2 R bob s)
  = <[R := logMessage (mkMessage (MsgWelcome bob) GameMessage (now s))
             (setRoom_players
                <[bob := {| nickname := bob; score := 0; online := true;
                            socketId := 2; disconnectTime := None |}]>
                (theRoom s))]> (rooms s).
Proof.
  intros s.
  apply (joinRoom_case_variant 2 R bob s (theRoom s) Bob (thePlayer Bob s)).
  - vm_compute; reflexivity.
  - vm_compute; lia.
  - vm_compute; reflexivity.
  - vm_compute; reflexivity.
  - vm_compute; discriminate.
  - vm_compute; reflexivity.
  - vm_compute; reflexivity.
  - vm_compute; reflexivity.
  - vm_compute; reflexivity.
Defined.

(** Witness of C10. *)
Lemma cache_has_no_duplicates_witness :
  NoDup (localCache (run overlap initial)).
Proof.
  apply (proj1 cache_has_no_duplicates (run overlap initial)).
  apply reachable_run. constructor.
Defined.
End Runs.

(** * Further runs

    The further properties applied to the states of small traces. *)

Module Checks.
#[local] Existing Instance latin.
Import Traces Scenes.

(** A decidable proposition, settled by evaluating its decision. *)
Ltac decided :=
  match goal with
  | |- ?P => apply (bool_decide_unpack P); vm_compute; exact I
  end.

(** Witness of X16: the room of [voting]. *)
Lemma message_log_is_bounded_witness :
  (length (messages (theRoom (run voting initial))) ≤ 50)%nat.
Proof.
  apply (proj1 message_log_is_bounded (run voting initial)
           (reachable_run voting initial reachable_initial) R).
  vm_compute; reflexivity.
Defined.

(** Witness of X15: the room of [choosing], whose ring holds the winning
    answer. *)
Lemma recent_ring_is_bounded_witness :
  (length (usedSentences (theRoom (run choosing initial))) ≤ 50)%nat.
Proof.
  apply (proj1 recent_ring_is_bounded (run choosing initial)
           (reachable_run choosing initial reachable_initial) R).
  vm_compute; reflexivity.
Defined.

(** Witness of X21: the room of [twoPlayers]. *)
Lemma rooms_are_self_named_witness :
  room_id (theRoom (run twoPlayers initial)) = R
  ∧ room_name (theRoom (run twoPlayers initial)) = R.
Proof.
  apply (proj1 rooms_are_self_named (run twoPlayers initial)
           (reachable_run twoPlayers initial reachable_initial) R).
  vm_compute; reflexivity.
Defined.

(** Witness of X20: the record of A in [choosing], with one point. *)
Lemma players_are_well_formed_witness :
  let p := thePlayer A (run choosing initial) in
  nickname p = A ∧ (1 ≤ length A ≤ 10)%nat ∧ (0 ≤ score p)%Z.
Proof.
  apply (proj1 players_are_well_formed (run choosing initial)
           (reachable_run choosing initial reachable_initial) R
           (theRoom (run choosing initial)) A); vm_compute; reflexivity.
Defined.

(** Witness of X3: the entry under vote in [voting]. *)
Lemma queued_answers_are_clean_witness :
  let q := mkSubmission moonX A in
  sub_nickname q ≠ [] ∧ answer q ≠ []
  ∧ illegalCharsRegex_test (answer q) = false
  ∧ normalizeSentence (answer q) = answer q.
Proof.
  apply (proj1 queued_answers_are_clean (run voting initial)
           (reachable_run voting initial reachable_initial) R
           (theRoom (run voting initial)) (mkSubmission moonX A)).
  - vm_compute; reflexivity.
  - vm_compute. apply list_elem_of_here.
Defined.

(** Witness of X6: the vote of [threeVoting], with voters B and C. *)
Lemma voters_are_distinct_and_exclude_the_submitter_witness :
  let v := theVote (run threeVoting initial) in
  NoDup (voters v) ∧ sub_nickname (submission v) ∉ voters v.
Proof.
  apply (proj1 voters_are_distinct_and_exclude_the_submitter
           (run threeVoting initial)
           (reachable_run threeVoting initial reachable_initial) R
           (theRoom (run threeVoting initial))); vm_compute; reflexivity.
Defined.

(** Witness of X23: both players leave the permanent room, which stays. *)
Lemma game_events_keep_permanence_witness :
  let s := run permanentRoom initial in
  let s' := step (LeaveRoom 1) (step (LeaveRoom 2) s) in
  ∃ r', rooms s' !! R = Some r' ∧ players r' !! A = Some (thePlayer A s')
        ∧ online (thePlayer A s') = false ∧ isPermanent r' = true.
Proof.
  intros s s'. exists (theRoom s').
  assert (E : rooms s' !! R = Some (theRoom s')) by (vm_compute; reflexivity).
  split; [exact E|]. split; [vm_compute; reflexivity|].
  split; [vm_compute; reflexivity|].
  pose proof (game_events_keep_permanence (LeaveRoom 1) (step (LeaveRoom 2) s) R
                (theRoom (step (LeaveRoom 2) s)) eq_refl
                ltac:(vm_compute; reflexivity)) as H.
  fold s' in H. rewrite E in H. rewrite H. vm_compute; reflexivity.
Defined.

(** Witness of X22: A is removed from the room of [twoPlayers]. *)
Lemma removePlayerFromRoom_outcome_witness :
  let s := run twoPlayers initial in
  let room := theRoom s in
  let p := thePlayer A s in
  let result := removePlayerFromRoom R A s in
  (result.1 = true ↔ players room = {[A := p]} ∧ isPermanent room = false)
  ∧ rooms result.2
    = (if result.1 then delete R (rooms s)
       else <[R := setRoom_players (delete A) room]> (rooms s))
  ∧ reconnectTimeouts result.2 = delete A (reconnectTimeouts s)
  ∧ timers result.2 = timers s.
Proof.
  intros s room p.
  apply (removePlayerFromRoom_outcome R A s room p); vm_compute; reflexivity.
Defined.

(** Witness of X17: a message to the room of [twoPlayers]. *)
Lemma broadcastMessage_keeps_latest_witness :
  let s := run twoPlayers initial in
  let room := theRoom s in
  let s' := broadcastMessage R MsgVoteInterrupted s in
  let m := mkMessage MsgVoteInterrupted GameMessage (now s) in
  outbox s' = outbox s ++ [ToRoom R (NewMessage m)]
  ∧ ∃ room',
      rooms s' = <[R := room']> (rooms s)
      ∧ messages room'
        = drop (length (messages room) + 1 - 50) (messages room ++ [m])
      ∧ last (messages room') = Some m
      ∧ players room' = players room
      ∧ validationQueue room' = validationQueue room
      ∧ currentVote room' = currentVote room
      ∧ usedSentences room' = usedSentences room
      ∧ currentStartChar room' = currentStartChar room.
Proof.
  intros s room.
  apply (broadcastMessage_keeps_latest R MsgVoteInterrupted s room);
    [vm_compute; reflexivity|vm_compute; lia].
Defined.

(** Witness of X18: a room created with an empty nickname stays behind. *)
Lemma createRoom_outcome_witness :
  let s := run [Connect 1] initial in
  createRoom 1 R [] [] s
  = s ▷ set_rooms <[R := newRoom R]> ▷ emit (ToSocket 1 (JoinError BadNickname)).
Proof.
  intros s.
  apply (proj1 (proj2 (createRoom_outcome 1 R [] [] s)));
    [vm_compute; reflexivity|vm_compute; reflexivity|by left].
Defined.

(** Witness of X19: C joins during the vote of [voting]. *)
Lemma joinRoom_during_vote_witness :
  let s := run (voting ++ [Connect 3]) initial in
  let v := theVote s in
  let s' := joinRoom 3 R C s in
  voteOf R s' = Some v
  ∧ timers s' = timers s
  ∧ ToSocket 3 (VoteInProgress (answer (submission v))) ∈ outbox s'
  ∧ (∃ room', rooms s' !! R = Some room'
              ∧ players room' = <[C := freshPlayer C 3]> (players (theRoom s))).
Proof.
  intros s v.
  apply (joinRoom_during_vote 3 R C s (theRoom s) v);
    try (vm_compute; reflexivity); [discriminate|vm_compute; lia].
Defined.

(** Witness of X5: with A, B and C in the room, A's answer, not in the
    cache, at the head of the queue. *)
Lemma processValidationQueue_opens_vote_witness :
  let s := enqueue R (mkSubmission moonX A) (run threePlayers initial) in
  ∃ room' v,
    rooms (processValidationQueue R s) !! R = Some room'
    ∧ currentVote room' = Some v
    ∧ validationQueue room' = [mkSubmission moonX A]
    ∧ submission v = mkSubmission moonX A
    ∧ voters v ≡ₚ [B; C].
Proof.
  intros s.
  destruct (processValidationQueue_opens_vote R s (theRoom s)
              (mkSubmission moonX A) []
              ltac:(vm_compute; reflexivity) ltac:(vm_compute; reflexivity)
              ltac:(vm_compute; reflexivity) ltac:(decided))
    as (room' & v & H1 & H2 & H3 & H4 & _ & H6 & _).
  exists room', v. do 4 (split; [done|]).
  rewrite H6. vm_compute. first [reflexivity | apply perm_swap].
Defined.

(** Witness of X7: B, the only voter of [voting], approves. *)
Lemma handlePlayerVote_records_witness :
  let s := run voting initial in
  let v := theVote s in
  let v' := v ▷ setVote_timeouts (delete B (timeouts v))
              ▷ setVote_votes (<[B := VALID]> (votes v)) in
  ∃ recorded,
    voteOf R recorded = Some v'
    ∧ (∀ t, timeouts v !! B = Some t → timers recorded !! t = None)
    ∧ (∀ t, timeouts v !! B ≠ Some t → timers recorded !! t = timers s !! t)
    ∧ handlePlayerVote 2 R VALID s
      = (if bool_decide (length (voters v) ≤ size (<[B := VALID]> (votes v)))%nat
         then handleVoteEnd R recorded else recorded).
Proof.
  intros s v.
  apply (handlePlayerVote_records 2 R VALID s (theRoom s) v B (thePlayer B s));
    try (vm_compute; reflexivity); [discriminate|].
  vm_compute. apply list_elem_of_here.
Defined.

(** Witness of X9: B has approved in [threeVoting] while C has not voted. *)
Lemma recorded_vote_is_final_witness :
  let s := run threeVoting initial in
  handleVoteTimeout R B s = s ∧ handlePlayerVote 2 R [] s = s.
Proof.
  intros s.
  destruct (recorded_vote_is_final R B s (theVote s)
              ltac:(vm_compute; reflexivity)) as [H1 H2].
  split; [apply H1; vm_compute; reflexivity|].
  apply H2; [right|]; vm_compute; reflexivity.
Defined.

(** Witness of X8: B's countdown runs out in [voting]. *)
Lemma handleVoteTimeout_records_witness :
  let s := run voting initial in
  let v := theVote s in
  let v' := v ▷ setVote_votes (<[B := VALID]> (votes v))
              ▷ setVote_timeouts (delete B (timeouts v)) in
  ∃ recorded,
    voteOf R recorded = Some v'
    ∧ timers recorded = timers s
    ∧ handleVoteTimeout R B s
      = (if bool_decide (length (voters v) ≤ size (<[B := VALID]> (votes v)))%nat
         then handleVoteEnd R recorded else recorded).
Proof.
  intros s v.
  apply (handleVoteTimeout_records R B s v); vm_compute; reflexivity.
Defined.

(** Witness of X4: B submits during the vote of [voting]. *)
Lemma handlePlayerInput_during_vote_witness :
  let s := run voting initial in
  let s' := handlePlayerInput 2 R moonlight s in
  timers s' = timers s
  ∧ choiceTimeouts s' = choiceTimeouts s
  ∧ localCache s' = localCache s
  ∧ (rooms s' = rooms s
     ∨ ∃ nick, sockets s !! 2 ≫= sock_nickname = Some nick
        ∧ rooms s' = <[R := setRoom_validationQueue
                         (validationQueue (theRoom s)
                            ++ [mkSubmission (trim moonlight) nick]) (theRoom s)]>
                       (rooms s)).
Proof.
  intros s.
  apply (handlePlayerInput_during_vote 2 R moonlight s (theRoom s) (theVote s));
    vm_compute; reflexivity.
Defined.

(** Witness of X11: A withdraws in [twoPlayers], having submitted nothing. *)
Lemma withdrawAnswer_nothing_queued_witness :
  withdrawAnswer 1 (run twoPlayers initial) = run twoPlayers initial.
Proof.
  apply (withdrawAnswer_nothing_queued 1 (run twoPlayers initial) R A
           (theRoom (run twoPlayers initial)));
    [vm_compute; reflexivity..|].
  decided.
Defined.

(** Witness of X12: A withdraws the answer under vote in [voting]. *)
Lemma withdrawAnswer_aborts_vote_witness :
  let s := run voting initial in
  ∃ aborted room',
    withdrawAnswer 1 s = processValidationQueue R aborted
    ∧ rooms aborted !! R = Some room'
    ∧ currentVote room' = None
    ∧ validationQueue room' = []
    ∧ (∀ voter t, timeouts (theVote s) !! voter = Some t → timers aborted !! t = None).
Proof.
  intros s.
  destruct (withdrawAnswer_aborts_vote 1 s R A (theRoom s) (theVote s) (thePlayer A s)
              ltac:(vm_compute; reflexivity) ltac:(discriminate) ltac:(discriminate)
              ltac:(vm_compute; reflexivity) ltac:(vm_compute; reflexivity)
              ltac:(vm_compute; reflexivity) ltac:(vm_compute; reflexivity)
              ltac:(decided))
    as (aborted & room' & H1 & H2 & H3 & H4 & _ & _ & H7 & _).
  exists aborted, room'. repeat split; try done.
Defined.

(** Witness of X13: A, the winner of [choosing], picks a character. *)
Lemma handleCharChoice_outcome_witness :
  let s := run choosing initial in
  let c := default (mkChoice [] [] 0 0) (choiceTimeouts s !! R) in
  let s' := handleCharChoice 1 R [0x5149] s in
  rooms s'
  = <[R := logMessage (mkMessage (MsgNewRound A [0x5149]) GameMessage (now s))
             (setRoom_currentStartChar [0x5149] (theRoom s))]> (rooms s)
  ∧ choiceTimeouts s' = delete R (choiceTimeouts s)
  ∧ timers s' = delete (timer c) (timers s).
Proof.
  intros s c.
  pose proof (handleCharChoice_outcome 1 R [0x5149] s (theRoom s) c
                ltac:(vm_compute; reflexivity) ltac:(vm_compute; reflexivity)) as H.
  exact H.
Defined.

(** Witness of X14: the choice of [choosing] times out. *)
Lemma choiceWindowExpired_outcome_witness :
  let s := run choosing initial in
  let s' := choiceWindowExpired R moonlight s in
  choiceTimeouts s' = delete R (choiceTimeouts s)
  ∧ ∃ char room',
      rooms s' !! R = Some room'
      ∧ currentStartChar room' = char
      ∧ length char = 1%nat
      ∧ (char = FALLBACK_CHAR ∧ normalizeSentence moonlight = []
         ∨ includes moonlight char = true
           ∧ head char = head (normalizeSentence moonlight))
      ∧ players room' = players (theRoom s)
      ∧ validationQueue room' = validationQueue (theRoom s)
      ∧ currentVote room' = currentVote (theRoom s).
Proof.
  intros s.
  apply (choiceWindowExpired_outcome R moonlight s
           (default (mkChoice [] [] 0 0) (choiceTimeouts s !! R)) (theRoom s));
    vm_compute; reflexivity.
Defined.

(** Witness of X27: the grace period of Bob, offline and alone in the room,
    ends. *)
Lemma reconnectGraceExpired_outcome_witness :
  let s := run bobOffline initial in
  let s' := reconnectGraceExpired R Bob s in
  (∀ room', rooms s' !! R = Some room' → players room' !! Bob = None)
  ∧ (rooms s' !! R = None ↔
     players (theRoom s) = {[Bob := thePlayer Bob s]}
     ∧ isPermanent (theRoom s) = false)
  ∧ ∀ sid, ∃ reason,
      reconnectPlayer sid R Bob s' = s' ▷ emit (ToSocket sid (ReconnectError reason)).
Proof.
  intros s.
  pose proof (reconnectGraceExpired_outcome R Bob s (theRoom s) (thePlayer Bob s)
                ltac:(vm_compute; reflexivity) ltac:(vm_compute; reflexivity)) as H.
  exact H.
Defined.

(** Witness of X24: A drops out of the room of [twoPlayers] and comes back. *)
Lemma disconnect_then_reconnect_witness :
  let s := run twoPlayers initial in
  let s1 := handlePlayerDisconnect 1 false s in
  let s2 := reconnectPlayer 3 R A s1 in
  (∃ room1, rooms s1 !! R = Some room1
            ∧ players room1
              = <[A := goOffline (now s) (thePlayer A s)]> (players (theRoom s)))
  ∧ reconnectTimeouts s1 !! A = Some (nextTimer s)
  ∧ timers s1 !! nextTimer s = Some ((now s + 30000)%Z, ReconnectGrace R A)
  ∧ (∃ room2, rooms s2 !! R = Some room2
              ∧ players room2
                = <[A := comeBack 3 (thePlayer A s)]> (players (theRoom s)))
  ∧ reconnectTimeouts s2 !! A = None
  ∧ timers s2 !! nextTimer s = None
  ∧ sockets s2 !! 3 = Some (mkSocket (Some R) (Some A)).
Proof.
  intros s.
  apply (disconnect_then_reconnect 1 3 R A s (theRoom s) (thePlayer A s));
    try (vm_compute; reflexivity); discriminate.
Defined.

(** Witness of X25: Bob, offline in [bobOffline], reconnects. *)
Lemma reconnectPlayer_restores_witness :
  let s := run bobOffline initial in
  let p := thePlayer Bob s in
  let s' := reconnectPlayer 2 R Bob s in
  let restored := {| nickname := nickname p; score := score p; online := true;
                     socketId := 2; disconnectTime := None |} in
  (∃ room', rooms s' !! R = Some room'
            ∧ players room' = <[Bob := restored]> (players (theRoom s)))
  ∧ sockets s' !! 2 = Some (mkSocket (Some R) (Some Bob))
  ∧ reconnectTimeouts s' = delete Bob (reconnectTimeouts s)
  ∧ ToSocket 2 (JoinSuccess R (room_name (theRoom s))) ∈ outbox s'.
Proof.
  intros s p.
  apply (reconnectPlayer_restores 2 R Bob s (theRoom s) p); vm_compute; reflexivity.
Defined.

(** Witness of X26: B, offline in [voterOffline] without a vote on record,
    reconnects. *)
Lemma reconnectPlayer_restarts_countdown_witness :
  let s := run voterOffline initial in
  let v := theVote s in
  let s' := reconnectPlayer 3 R B s in
  timers s' !! nextTimer s = Some ((now s + 15000)%Z, VoteCountdown R B)
  ∧ voteOf R s' = Some (setVote_timeouts (<[B := nextTimer s]> (timeouts v)) v).
Proof.
  intros s v.
  apply (reconnectPlayer_restarts_countdown 3 R B s (theRoom s) (thePlayer B s) v);
    try (vm_compute; reflexivity).
  vm_compute. apply list_elem_of_here.
Defined.

(** Witness of X10: the tail of a disconnect of B, the voter of [voting]. *)
Lemma disconnectTail_records_vote_witness :
  let s := run voting initial in
  let v := theVote s in
  let player := thePlayer B s in
  let v' := v ▷ setVote_timeouts (delete B (timeouts v))
              ▷ setVote_votes (<[B := VALID]> (votes v)) in
  ∃ recorded,
    voteOf R recorded = Some v'
    ∧ (∀ t, timeouts v !! B = Some t → timers recorded !! t = None)
    ∧ disconnectTail R (theRoom s) player s
      = (if bool_decide (length (voters v') ≤ size (votes v'))%nat
         then handleVoteEnd R recorded else recorded)
          ▷ (λ s2, match rooms s2 !! R with
                   | Some _ => broadcastGameState R s2
                   | None => s2
                   end)
          ▷ broadcastRoomList.
Proof.
  intros s v player.
  apply (disconnectTail_records_vote R (theRoom s) player s v);
    try (vm_compute; reflexivity).
  vm_compute. apply list_elem_of_here.
Defined.

(** Witness of X28: a sentence with a comma is added to a cache of one
    entry. *)
Lemma adminCacheAdd_outcome_witness :
  let s := run [AdminCacheAdd moonX] initial in
  let key := normalizeSentence [0x6708; 0xFF0C; 0x5149] in
  let s' := adminCacheAdd [0x6708; 0xFF0C; 0x5149] s in
  localCache s' ≡ₚ key :: localCache s
  ∧ Sorted strLeP (localCache s')
  ∧ rooms s' = rooms s.
Proof.
  intros s.
  apply (proj2 (adminCacheAdd_outcome [0x6708; 0xFF0C; 0x5149] s));
    [vm_compute; discriminate|decided].
Defined.

(** Witness of X29: one of two cached sentences is deleted. *)
Lemma adminCacheDelete_outcome_witness :
  let s := run [AdminCacheAdd moonX; AdminCacheAdd moonlight] initial in
  let key := normalizeSentence moonX in
  let s' := adminCacheDelete moonX s in
  (key ∉ localCache s')
  ∧ (∀ x, x ≠ key → x ∈ localCache s' ↔ x ∈ localCache s)
  ∧ sublist (localCache s') (localCache s)
  ∧ (key ∉ localCache s → s' = s).
Proof.
  intros s.
  apply (adminCacheDelete_outcome moonX s).
  decided.
Defined.
End Checks.
